(** * Trust API client: canonicalisation, validation, rate control, retries

    A shallow embedding of [server/src/trust-api.ts] (class [TrustAPIClient]),
    [server/src/validators.ts] (class [RequestValidator]) and the
    [score_transaction] tools, with the properties stated about them.

    Conventions of the model.
    - Caller payloads are JSON documents: [value] has one constructor per
      JSON kind.  [undefined] is not a JSON value; a function that may
      return [undefined] returns an [option value].
    - A JS object is the association list of its own enumerable members in
      [Object.entries] order; a well-formed object has pairwise distinct
      keys ([wf_obj]).  A parsed document may have an own member named
      [__proto__]; an assignment [o[k] = v] with that key adds no member to
      a plain object ([assign]).  The prototype such an assignment sets is
      not represented: [isEmptyValue], [cleanObject], [normalizeGroupFields]
      and [JSON.stringify] read own members only.
    - JSON numbers are carried as integers; no operation modelled here does
      arithmetic on a payload number.
    - A string is the sequence of its code units, here the code units
      below 256: the character with code [n] stands for U+00nn.  [trim] and
      [toLowerCase] are those of [String.prototype] on such strings.
    - Time is in milliseconds, as [Date.now()] gives it.  A suspended call
      is modelled by the delay it asks [sleep] for. *)

From Stdlib Require Import List String Ascii ZArith Bool Lia Arith DecimalString.
From Stdlib Require Import Sorted.
From Stdlib Require Decimal.
Import ListNotations.
Local Open Scope string_scope.
Local Open Scope Z_scope.

(** ** JSON values *)

Module Json.

Unset Elimination Schemes.
Inductive value : Type :=
| JNull
| JBool (b : bool)
| JNum (n : Z)
| JStr (s : string)
| JArr (items : list value)
| JObj (entries : list (string * value)).
Set Elimination Schemes.

Definition obj := list (string * value).

(** Structural induction that reaches the members of arrays and objects. *)
Definition value_nested_ind (P : value -> Prop)
  (Hnull : P JNull)
  (Hbool : forall b, P (JBool b))
  (Hnum : forall n, P (JNum n))
  (Hstr : forall s, P (JStr s))
  (Harr : forall items, Forall P items -> P (JArr items))
  (Hobj : forall entries, Forall (fun kv => P (snd kv)) entries -> P (JObj entries))
  : forall v, P v :=
  fix go (v : value) : P v :=
    match v with
    | JNull => Hnull
    | JBool b => Hbool b
    | JNum n => Hnum n
    | JStr s => Hstr s
    | JArr items =>
        Harr items
          ((fix all (l : list value) : Forall P l :=
              match l with
              | [] => Forall_nil P
              | x :: t => Forall_cons x (go x) (all t)
              end) items)
    | JObj entries =>
        Hobj entries
          ((fix all (l : obj) : Forall (fun kv => P (snd kv)) l :=
              match l with
              | [] => Forall_nil _
              | kv :: t => Forall_cons kv (go (snd kv)) (all t)
              end) entries)
    end.

(** [o[k]] for an own property: the first entry with that key. *)
Fixpoint obj_get (k : string) (o : obj) : option value :=
  match o with
  | [] => None
  | (k', v) :: t => if String.eqb k k' then Some v else obj_get k t
  end.

(** [o[k] = v]: overwrite in place when the key exists, append otherwise. *)
Fixpoint obj_set (k : string) (v : value) (o : obj) : obj :=
  match o with
  | [] => [(k, v)]
  | (k', v') :: t =>
      if String.eqb k k' then (k', v) :: t else (k', v') :: obj_set k v t
  end.

(** [o[k] = v] on a plain object: the key [__proto__] reaches the setter
    of [Object.prototype] and adds no own member. *)
Definition assign (k : string) (v : value) (o : obj) : obj :=
  if String.eqb k "__proto__" then o else obj_set k v o.

Definition keys (o : obj) : list string := map fst o.

Definition wf_obj (o : obj) : Prop := NoDup (keys o).

(** JS truthiness of a JSON value. *)
Definition truthy (v : value) : bool :=
  match v with
  | JNull => false
  | JBool b => b
  | JNum n => negb (n =? 0)
  | JStr s => negb (String.eqb s "")
  | JArr _ | JObj _ => true
  end.

End Json.
Import Json.

(** ** String helpers of the JS standard library *)

Module Str.

(** White space and line terminators below U+0100: U+0009 to U+000D,
    U+0020 and U+00A0. *)
Definition is_space (c : ascii) : bool :=
  let n := nat_of_ascii c in
  (Nat.eqb n 32 || (Nat.leb 9 n && Nat.leb n 13) || Nat.eqb n 160)%bool.

Fixpoint trimStart (s : string) : string :=
  match s with
  | EmptyString => EmptyString
  | String c t => if is_space c then trimStart t else s
  end.

Fixpoint trimEnd (s : string) : string :=
  match s with
  | EmptyString => EmptyString
  | String c t =>
      match trimEnd t with
      | EmptyString => if is_space c then EmptyString else String c EmptyString
      | t' => String c t'
      end
  end.

Definition trim (s : string) : string := trimEnd (trimStart s).

(** The lower case of a character below U+0100: A to Z, and U+00C0 to
    U+00DE except the multiplication sign U+00D7, move up by 32. *)
Definition lower (c : ascii) : ascii :=
  let n := nat_of_ascii c in
  if ((Nat.leb 65 n && Nat.leb n 90)
      || (Nat.leb 192 n && Nat.leb n 222 && negb (Nat.eqb n 215)))%bool
  then ascii_of_nat (n + 32) else c.

Fixpoint toLowerCase (s : string) : string :=
  match s with
  | EmptyString => EmptyString
  | String c t => String (lower c) (toLowerCase t)
  end.

Definition mem (s : string) (l : list string) : bool :=
  existsb (String.eqb s) l.

Definition startsWith (p s : string) : bool := String.prefix p s.

(** Every single quote becomes a double quote (character 34), as the
    global replace in [buildRequest] does. *)
Fixpoint replace_quotes (s : string) : string :=
  match s with
  | EmptyString => EmptyString
  | String c t =>
      String (if Ascii.eqb c "'"%char then ascii_of_nat 34 else c)
             (replace_quotes t)
  end.

End Str.

(** ** ObjectSanitizer: [isEmptyValue] and [cleanObject] *)

Module Sanitizer.

Definition placeholders : list string := [""; "n/a"; "na"; "null"; "none"].

(** The string test of [isEmptyValue]. *)
Definition is_placeholder (s : string) : bool :=
  Str.mem (Str.toLowerCase (Str.trim s)) placeholders.

(** [isEmptyValue(value)] on a value that is not [undefined]. *)
Definition isEmptyValue (v : value) : bool :=
  match v with
  | JNull => true
  | JStr s => is_placeholder s
  | JObj entries => match entries with [] => true | _ => false end
  | JArr _ => false
  | JBool _ | JNum _ => false
  end.

(** [isEmptyValue(value)] where [None] stands for [undefined]. *)
Definition isEmptyValue_u (v : option value) : bool :=
  match v with
  | None => true
  | Some x => isEmptyValue x
  end.

(** [items.filter(item => !isEmptyValue(item))] over possibly-undefined items. *)
Fixpoint keep_items (l : list (option value)) : list value :=
  match l with
  | [] => []
  | None :: t => keep_items t
  | Some x :: t => if isEmptyValue x then keep_items t else x :: keep_items t
  end.

(** The loop of [cleanObject] that copies the non-empty cleaned members:
    [if (!this.isEmptyValue(cleanedValue)) cleaned[key] = cleanedValue], where
    the assignment adds no member for the key [__proto__]. *)
Fixpoint keep_entries (l : list (string * option value)) : obj :=
  match l with
  | [] => []
  | (k, None) :: t => keep_entries t
  | (k, Some x) :: t =>
      if isEmptyValue x then keep_entries t
      else if String.eqb k "__proto__" then keep_entries t
      else (k, x) :: keep_entries t
  end.

Fixpoint cleanObject (v : value) : option value :=
  match v with
  | JArr items => Some (JArr (keep_items (map cleanObject items)))
  | JObj entries =>
      let cleaned :=
        keep_entries (map (fun kv => (fst kv, cleanObject (snd kv))) entries) in
      match cleaned with
      | [] => None
      | _ => Some (JObj cleaned)
      end
  | _ => if isEmptyValue v then None else Some v
  end.

(** [cleanObject] applied to a possibly-undefined argument. *)
Definition cleanObject_u (v : option value) : option value :=
  match v with
  | None => None
  | Some x => cleanObject x
  end.

(** No object of the value, at any depth, has a member named
    [__proto__]. *)
Fixpoint proto_free (v : value) : bool :=
  match v with
  | JArr items => forallb proto_free items
  | JObj entries =>
      forallb (fun kv => (negb (String.eqb (fst kv) "__proto__")
                          && proto_free (snd kv))%bool) entries
  | _ => true
  end.

Definition proto_free_u (x : option value) : bool :=
  match x with
  | None => true
  | Some v => proto_free v
  end.

(** The condition under which sanitization is said to yield absence, with
    arrays counted among the containers. *)
Definition absent_as_claimed (x : option value) : Prop :=
  match x with
  | None => True
  | Some v =>
      v = JNull
      \/ (exists s, v = JStr s /\ is_placeholder s = true)
      \/ (exists items, v = JArr items
                        /\ Forall (fun m => cleanObject m = None) items)
      \/ (exists entries, v = JObj entries
                          /\ Forall (fun kv => cleanObject (snd kv) = None) entries)
  end.

(** The condition under which [cleanObject] does yield absence: arrays are
    not among the containers that can vanish. *)
Definition absent_in_code (x : option value) : Prop :=
  match x with
  | None => True
  | Some v =>
      v = JNull
      \/ (exists s, v = JStr s /\ is_placeholder s = true)
      \/ (exists entries, v = JObj entries
                          /\ Forall (fun kv => cleanObject (snd kv) = None) entries)
  end.

End Sanitizer.

(** ** FieldNormalizer and RequestCanonicalizer: [buildRequest] *)

Module Canonicalizer.
Import Sanitizer.

(** Decimal rendering of an array index, as [Object.entries] names the
    members of an array. *)
Definition index_key (i : nat) : string :=
  NilZero.string_of_uint (Nat.to_uint i).

Fixpoint indexed_from (i : nat) (l : list value) : obj :=
  match l with
  | [] => []
  | x :: t => (index_key i, x) :: indexed_from (S i) t
  end.

(** [typeof value === 'object' && value !== null]. *)
Definition is_object (v : value) : bool :=
  match v with
  | JArr _ | JObj _ => true
  | _ => false
  end.

(** [Object.entries(value)] for a non-null object. *)
Definition entries_of (v : value) : obj :=
  match v with
  | JObj entries => entries
  | JArr items => indexed_from 0 items
  | _ => []
  end.

Definition normalizeField (fieldType : string) (v : value) : value :=
  if is_object v then v
  else
    match v with
    | JStr s =>
        if String.eqb fieldType "email" then JObj [("raw", v)]
        else if String.eqb fieldType "phone" then JObj [("raw", v)]
        else if String.eqb fieldType "address" then JObj [("raw", v)]
        else if String.eqb fieldType "name" then JObj [("raw", v)]
        else if String.eqb fieldType "device" then JObj [("ip", v)]
        else v
    | _ => v
    end.

Definition normalizeGroupFields (group : value) : value :=
  if is_object group then
    JObj (fold_left (fun normalized kv =>
                       assign (fst kv) (normalizeField (fst kv) (snd kv)) normalized)
                    (entries_of group) [])
  else group.

Definition dataFields : list string := ["name"; "email"; "phone"; "address"].

Definition otherFields : list string :=
  ["device"; "browser"; "card"; "order"; "payment"; "session"; "person";
   "personal_identifier"; "locale"; "custom"; "page"].

Definition default_action : value := JObj [("type", JStr "purchase")].

(** [x || default_action] for a possibly-undefined [x]. *)
Definition action_or_default (a : option value) : value :=
  match a with
  | Some v => if truthy v then v else default_action
  | None => default_action
  end.

Section BuildRequest.

(** [JSON.parse] is the platform's; [None] stands for a thrown SyntaxError. *)
Variable JSON_parse : string -> option value.

(** The value kept for a [sender] / [recipient] / [metadata] entry. *)
Definition parse_embedded (v : value) : option value :=
  let parsedValue :=
    match v with
    | JStr s =>
        let trimmed := Str.trim s in
        if (Str.startsWith "{" trimmed || Str.startsWith "[" trimmed)%bool then
          match JSON_parse (Str.replace_quotes trimmed) with
          | Some parsed => parsed
          | None => v
          end
        else v
    | _ => v
    end in
  if is_object parsedValue then cleanObject parsedValue else Some parsedValue.

(** The two objects the loop of [buildRequest] fills. *)
Record build_state := {
  request : obj;
  accountFields : obj
}.

Definition set_request (k : string) (v : option value) (st : build_state)
  : build_state :=
  match v with
  | Some x =>
      if isEmptyValue x then st
      else {| request := obj_set k x (request st);
              accountFields := accountFields st |}
  | None => st
  end.

Definition set_account (k : string) (v : value) (st : build_state)
  : build_state :=
  if isEmptyValue v then st
  else {| request := request st;
          accountFields := obj_set k v (accountFields st) |}.

(** One iteration of [for (const [key, value] of Object.entries(data))]. *)
Definition build_step (hasAccountGroup : bool) (st : build_state)
  (kv : string * value) : build_state :=
  let (key, v) := kv in
  if (String.eqb key "action" || String.eqb key "key")%bool then st
  else if isEmptyValue v then st
  else if (String.eqb key "sender" || String.eqb key "recipient"
           || String.eqb key "metadata")%bool then
    set_request key (parse_embedded v) st
  else if (String.eqb key "account" || String.eqb key "billing"
           || String.eqb key "shipping")%bool then
    set_request key (cleanObject (normalizeGroupFields v)) st
  else if (Str.mem key dataFields && negb hasAccountGroup)%bool then
    set_account key (normalizeField key v) st
  else if Str.mem key (dataFields ++ otherFields) then
    set_request key (Some (normalizeField key v)) st
  else st.

(** [if (data.flag !== undefined) request.flag = data.flag]. *)
Definition copy_flag (flag : string) (data req : obj) : obj :=
  match obj_get flag data with
  | Some v => obj_set flag v req
  | None => req
  end.

Definition buildRequest (data : obj) : obj :=
  let hasAccountGroup :=
    match obj_get "account" data with Some _ => true | None => false end in
  let st := fold_left (build_step hasAccountGroup) data
              {| request := [("action", action_or_default (obj_get "action" data))];
                 accountFields := [] |} in
  let req :=
    match accountFields st with
    | [] => request st
    | fields =>
        if negb hasAccountGroup then obj_set "account" (JObj fields) (request st)
        else request st
    end in
  copy_flag "signals" data
    (copy_flag "connectivity" data (copy_flag "echo_query" data req)).

End BuildRequest.

(** What an identity field at the root of the input contributes: nothing
    when it is missing or empty, its normalized form otherwise. *)
Definition contribution (k : string) (data : obj) : option value :=
  match obj_get k data with
  | Some v => if isEmptyValue v then None else Some (normalizeField k v)
  | None => None
  end.

(** Reading a member of a group that may be missing. *)
Definition member (group : option value) (k : string) : option value :=
  match group with
  | Some (JObj o) => obj_get k o
  | _ => None
  end.

End Canonicalizer.

(** ** The request at its declared types ([types.ts]) *)

Module Types.

(** [string | number] *)
Definition strnum := (string + Z)%type.

Module NameObject.
Record t := {
  raw : option string;
  first_name : option string;
  last_name : option string;
  middle_name : option string;
  prefix : option string;
  suffix : option string
}.
End NameObject.

Module EmailObject.
Record t := {
  address : option string;
  verified : option bool
}.
End EmailObject.

Module PhoneObject.
Record t := {
  raw : option string;
  country_code : option strnum;
  number : option strnum;
  extension : option strnum;
  verified : option bool
}.
End PhoneObject.

Module AddressObject.
Record t := {
  raw : option string;
  country : option string;
  state : option string;
  city : option string;
  street : option string;
  house : option string;
  po_box : option string;
  zip_code : option string
}.
End AddressObject.

Module PersonObject.
Record t := {
  dob : option string;
  gender : option string
}.
End PersonObject.

Module PersonalIdentifierObject.
Record t := {
  type : option string;
  value : option string;
  country : option string;
  issue_date : option string;
  expiry_date : option string
}.
End PersonalIdentifierObject.

(** Of the fields of [DeviceObject], those the validator reads. *)
Module DeviceObject.
Record t := {
  ip : option string;
  true_ip : option string;
  battery_level : option Z;
  is_emulator : option bool;
  is_virtual_env : option bool;
  is_rooted : option bool
}.
End DeviceObject.

Module AccountObject.
Record t := {
  created : option string;
  ip_created : option string;
  ip_history : option (list string);
  ip_last : option string;
  name : option NameObject.t;
  email : option EmailObject.t;
  phone : option PhoneObject.t;
  address : option AddressObject.t;
  person : option PersonObject.t;
  personal_identifier : option PersonalIdentifierObject.t
}.
End AccountObject.

(** The inline type of [billing] and [shipping]. *)
Module GroupObject.
Record t := {
  name : option NameObject.t;
  email : option EmailObject.t;
  phone : option PhoneObject.t;
  address : option AddressObject.t
}.
End GroupObject.

Module ActionObject.
Record t := {
  type : option string;
  id : option string;
  organization : option string
}.
End ActionObject.

(** [Partial<TrustRequest>].  The fields the validator only tests for
    presence carry their JSON content. *)
Module TrustRequest.
Record t := {
  action : option ActionObject.t;
  account : option AccountObject.t;
  billing : option GroupObject.t;
  shipping : option GroupObject.t;
  sender : option Json.value;
  recipient : option Json.value;
  metadata : option Json.value;
  name : option NameObject.t;
  email : option EmailObject.t;
  phone : option PhoneObject.t;
  address : option AddressObject.t;
  person : option PersonObject.t;
  personal_identifier : option PersonalIdentifierObject.t;
  device : option DeviceObject.t;
  browser : option Json.value;
  card : option Json.value;
  order : option Json.value;
  page : option Json.value;
  payment : option Json.value;
  session : option Json.value;
  locale : option Json.value;
  custom : option Json.value
}.
End TrustRequest.

Module ERROR_CODES.
Definition THROTTLE_REACHED := 1001.
Definition FIELD_VALIDATION_ERROR := 1015.
Definition PARTIAL_ADDRESS := 1017.
Definition TOO_MANY_FEEDBACKS := 1023.
Definition RAW_WITH_OTHER_FIELDS := 1024.
Definition MISSING_REQUIRED_FIELD := 2023.
Definition ACTION_REQUIRED := 2030.
Definition INVALID_ACTION := 2031.
End ERROR_CODES.

End Types.

(** ** TrustAPIClient: errors, local checks, rate limiter, transport, facade *)

Module Client.
Import Sanitizer Canonicalizer.

(** What a call can throw.  [TrustAPIError] keeps the constructor's three
    arguments as passed ([None] for [undefined]); [TypeError] is the
    platform's error for reading a property of [null]. *)
Inductive failure : Type :=
| TrustAPIError (message : option value) (code : option value)
                (httpStatus : option Z)
| TypeError.

Definition error_code (e : failure) : option value :=
  match e with
  | TrustAPIError _ c _ => c
  | TypeError => None
  end.

Definition api_error (message : string) (code : option Z) (http : option Z)
  : failure :=
  TrustAPIError (Some (JStr message)) (option_map JNum code) http.

(** The configuration argument of the constructor. *)
Record TrustAPIConfig := {
  cfg_apiKey : string;
  cfg_baseUrl : option string;
  cfg_maxRetries : option Z;
  cfg_retryDelay : option Z;
  cfg_timeout : option Z;
  cfg_rateLimitQPS : option Z
}.

Record RateLimiterState := {
  requests : list Z;
  lastReset : Z
}.

(** The fields of a constructed client that never change. *)
Record TrustAPIClient := {
  apiKey : string;
  baseUrl : string;
  maxRetries : Z;
  retryDelay : Z;
  timeout : Z;
  rateLimitQPS : Z
}.

Definition nullish_or {A} (x : option A) (d : A) : A :=
  match x with Some v => v | None => d end.

(** The constructor; [None] when it throws for a missing API key.  The
    limiter starts with an empty window. *)
Definition new_client (config : TrustAPIConfig) : option TrustAPIClient :=
  if String.eqb (cfg_apiKey config) "" then None
  else Some {|
    apiKey := cfg_apiKey config;
    baseUrl := match cfg_baseUrl config with
               | Some u => if String.eqb u "" then "https://api.elephant.online/trust/" else u
               | None => "https://api.elephant.online/trust/"
               end;
    maxRetries := nullish_or (cfg_maxRetries config) 3;
    retryDelay := nullish_or (cfg_retryDelay config) 1000;
    timeout := nullish_or (cfg_timeout config) 30000;
    rateLimitQPS := nullish_or (cfg_rateLimitQPS config) 10 |}.

Definition new_limiter (now : Z) : RateLimiterState :=
  {| requests := []; lastReset := now |}.

(** *** Property reads on [any] *)

(** [v[k]] / [v?.[k]] for a property name that no primitive or array
    carries; [None] is [undefined]. *)
Definition get_prop (v : option value) (k : string) : option value :=
  match v with
  | Some (JObj o) => obj_get k o
  | _ => None
  end.

Definition truthy_u (v : option value) : bool :=
  match v with
  | Some x => truthy x
  | None => false
  end.

(** [Object.keys(v).length]. *)
Definition keys_length (v : value) : nat :=
  match v with
  | JObj o => List.length o
  | JArr items => List.length items
  | JStr s => String.length s
  | _ => 0%nat
  end.

(** [path.split("?.")]. *)
Fixpoint split_path (s cur : string) : list string :=
  match s with
  | EmptyString => [cur]
  | String "?" (String "." t) => cur :: split_path t EmptyString
  | String c t => split_path t (cur ++ String c EmptyString)
  end.

Fixpoint walk (v : option value) (parts : list string) : option value :=
  match parts with
  | [] => v
  | part :: rest =>
      let v' := get_prop v part in
      if truthy_u v' then walk v' rest else v'
  end.

Definition getNestedValue (o : obj) (path : string) : option value :=
  walk (Some (JObj o)) (split_path path EmptyString).

(** *** The local checks of [validateRequest] *)

Definition requiredDataFields : list string :=
  ["account"; "billing"; "shipping"; "sender"; "recipient"; "name"; "email";
   "phone"; "address"; "device"; "browser"; "card"; "order"; "page";
   "payment"; "session"; "person"; "personal_identifier"; "locale"; "custom";
   "metadata"].

Definition has_key (o : obj) (k : string) : bool :=
  match obj_get k o with Some _ => true | None => false end.

Definition check_action (request : obj) : option failure :=
  if truthy_u (get_prop (obj_get "action" request) "type") then None
  else Some (api_error "Action type is required" (Some 2030) None).

Definition check_data_field (request : obj) : option failure :=
  if existsb (has_key request) requiredDataFields then None
  else Some (api_error
    "At least one data field is required (name, email, phone, address, sender, recipient, etc.)"
    (Some 2023) None).

(** [v.k] read as a condition. *)
Definition truthy_prop (v : option value) (k : string) : bool :=
  truthy_u (get_prop v k).

(** The body of the loop of [validatePhoneObjects] for one path. *)
Definition check_phone (path : string) (request : obj) : option failure :=
  let phone := getNestedValue request path in
  if truthy_u phone then
    if (negb (truthy_prop phone "raw")
        && (negb (truthy_prop phone "country_code") || negb (truthy_prop phone "number")))%bool then
      Some (api_error
        ("Phone object at " ++ path ++
         " must have either 'raw' or both 'country_code' and 'number'")
        (Some 1015) None)
    else if (truthy_prop phone "raw" && (truthy_prop phone "country_code" || truthy_prop phone "number"))%bool then
      Some (api_error
        ("Phone object at " ++ path ++ " cannot have 'raw' with other fields")
        (Some 1024) None)
    else None
  else None.

Definition check_address (path : string) (request : obj) : option failure :=
  let address := getNestedValue request path in
  if truthy_u address then
    if (negb (truthy_prop address "raw") && negb (truthy_prop address "country")
        && negb (truthy_prop address "state") && negb (truthy_prop address "zip_code")
        && negb (truthy_prop address "city"))%bool then
      Some (api_error
        ("Address object at " ++ path ++
         " must have at least one of: raw, country, state, zip_code, or city")
        (Some 1017) None)
    else if (truthy_prop address "raw"
             && Nat.ltb 1 (match address with Some a => keys_length a | None => 0%nat end))%bool then
      Some (api_error
        ("Address object at " ++ path ++ " cannot have 'raw' with other fields")
        (Some 1024) None)
    else None
  else None.

Definition check_name (path : string) (request : obj) : option failure :=
  let name := getNestedValue request path in
  if truthy_u name then
    if (negb (truthy_prop name "raw")
        && (negb (truthy_prop name "first_name") || negb (truthy_prop name "last_name")))%bool then
      Some (api_error
        ("Name object at " ++ path ++
         " must have either 'raw' or both 'first_name' and 'last_name'")
        (Some 2023) None)
    else if (truthy_prop name "raw" && (truthy_prop name "first_name" || truthy_prop name "last_name"))%bool then
      Some (api_error
        ("Name object at " ++ path ++ " cannot have 'raw' with other fields")
        (Some 1024) None)
    else None
  else None.

Definition phoneFields := ["phone"; "account?.phone"; "billing?.phone"; "shipping?.phone"].
Definition addressFields :=
  ["address"; "account?.address"; "billing?.address"; "shipping?.address"].
Definition nameFields := ["name"; "account?.name"; "billing?.name"; "shipping?.name"].

(** Running rules in sequence, each throwing on failure: the first failure
    is the one thrown. *)
Fixpoint first_failure (rs : list (obj -> option failure)) (request : obj)
  : option failure :=
  match rs with
  | [] => None
  | r :: rest =>
      match r request with
      | Some e => Some e
      | None => first_failure rest request
      end
  end.

(** The three loops over paths; [Some e] when the loop throws [e]. *)
Definition validatePhoneObjects (request : obj) : option failure :=
  first_failure (map check_phone phoneFields) request.

Definition validateAddressObjects (request : obj) : option failure :=
  first_failure (map check_address addressFields) request.

Definition validateNameObjects (request : obj) : option failure :=
  first_failure (map check_name nameFields) request.

(** [validateRequest]: [Some e] when it throws [e]. *)
Definition validateRequest (request : obj) : option failure :=
  first_failure
    [check_action; check_data_field; validatePhoneObjects;
     validateAddressObjects; validateNameObjects] request.

(** Every single rule of [validateRequest], in the order the code reaches
    them. *)
Definition rules : list (obj -> option failure) :=
  [check_action; check_data_field]
  ++ map check_phone phoneFields
  ++ map check_address addressFields
  ++ map check_name nameFields.

(** Every rule that the request breaks, had each been run on its own. *)
Fixpoint all_failures (rs : list (obj -> option failure)) (request : obj)
  : list failure :=
  match rs with
  | [] => []
  | r :: rest =>
      match r request with
      | Some e => e :: all_failures rest request
      | None => all_failures rest request
      end
  end.

(** The client built from a configuration that gives only the API key. *)
Definition default_client : TrustAPIClient :=
  {| apiKey := "k"; baseUrl := "https://api.elephant.online/trust/";
     maxRetries := 3; retryDelay := 1000; timeout := 30000;
     rateLimitQPS := 10 |}.

End Client.

(** ** RateLimiter: [applyRateLimit] *)

Module Limiter.
Import Client.

(** One run of [applyRateLimit] entered at time [now]: the delay it asks
    [sleep] for, if any, and the window it leaves.  The window is pruned
    before the sleep and [now], read on entry, is pushed after it. *)
Definition applyRateLimit (c : TrustAPIClient) (now : Z) (st : RateLimiterState)
  : option Z * RateLimiterState :=
  let oneSecondAgo := now - 1000 in
  let kept := filter (fun timestamp => oneSecondAgo <? timestamp) (requests st) in
  let slept :=
    if rateLimitQPS c <=? Z.of_nat (List.length kept) then
      match kept with
      | oldestRequest :: _ =>
          let waitTime := 1000 - (now - oldestRequest) + 10 in
          if 0 <? waitTime then Some waitTime else None
      | [] => None
      end
    else None in
  (slept, {| requests := kept ++ [now]; lastReset := lastReset st |}).

(** The time at which a call entered at [now] is let through. *)
Definition admitted_at (now : Z) (slept : option Z) : Z :=
  match slept with
  | Some w => now + w
  | None => now
  end.

(** Calls made one after the other at the given entry times: each call has
    returned, its sleep over and its timestamp pushed, when the next one
    enters.  Calls that enter while another one sleeps are not described. *)
Fixpoint admit_all (c : TrustAPIClient) (times : list Z) (st : RateLimiterState)
  : list (option Z) * RateLimiterState :=
  match times with
  | [] => ([], st)
  | now :: rest =>
      let (w, st1) := applyRateLimit c now st in
      let (ws, st2) := admit_all c rest st1 in
      (w :: ws, st2)
  end.

(** A window holding ten admissions made at time 0. *)
Definition ten_at_zero : RateLimiterState :=
  {| requests := repeat 0 10; lastReset := 0 |}.

(** The times at which such calls are let through. *)
Definition admission_times (c : TrustAPIClient) (times : list Z)
  (st : RateLimiterState) : list Z :=
  map (fun p => admitted_at (fst p) (snd p))
      (combine times (fst (admit_all c times st))).

(** Ten calls at time 0, one at time 1, and ten more at time 1010, when
    the sleep of the eleventh call is over. *)
Definition burst : list Z := (repeat 0 10 ++ [1] ++ repeat 1010 10)%list.

End Limiter.

(** ** ResilientTransport: [makeRequest] *)

Module Transport.
Import Client.

(** The body of a response: what [response.json()] yields, or the message
    of the error it throws. *)
Inductive body : Type :=
| Parsed (data : value)
| Unparsable (message : string).

(** What one [fetch] can produce. *)
Inductive fetch_outcome : Type :=
| Response (status : Z) (retryAfter : option string) (b : body)
| Aborted
| Fault (message : string).

Record transport_result := {
  outcome : failure + value;
  attempts : nat;
  sleeps : list (option Z)
}.

Definition digit_value (c : ascii) : option Z :=
  let n := nat_of_ascii c in
  if (Nat.leb 48 n && Nat.leb n 57)%bool then Some (Z.of_nat (n - 48)) else None.

Definition hex_value (c : ascii) : option Z :=
  let n := nat_of_ascii c in
  if (Nat.leb 48 n && Nat.leb n 57)%bool then Some (Z.of_nat (n - 48))
  else if (Nat.leb 97 n && Nat.leb n 102)%bool then Some (Z.of_nat (n - 87))
  else if (Nat.leb 65 n && Nat.leb n 70)%bool then Some (Z.of_nat (n - 55))
  else None.

(** The longest prefix of digits in the given radix, read as a number;
    [None] when there is no digit. *)
Fixpoint read_digits (radix : Z) (dv : ascii -> option Z) (s : string)
  (acc : option Z) : option Z :=
  match s with
  | EmptyString => acc
  | String c rest =>
      match dv c with
      | Some d => read_digits radix dv rest (Some (nullish_or acc 0 * radix + d))
      | None => acc
      end
  end.

(** [parseInt(s)] without a radix; [None] is [NaN].  The result is the
    integer the digits denote, which is the number the code holds as long as
    it stays below 2^53; beyond that the code holds the nearest double. *)
Definition parseInt (s : string) : option Z :=
  let s1 := Str.trimStart s in
  let '(sign, s2) :=
    match s1 with
    | String "-" rest => (-1, rest)
    | String "+" rest => (1, rest)
    | _ => (1, s1)
    end in
  let magnitude :=
    match s2 with
    | String "0" (String "x" rest) => read_digits 16 hex_value rest None
    | String "0" (String "X" rest) => read_digits 16 hex_value rest None
    | _ => read_digits 10 digit_value s2 None
    end in
  option_map (Z.mul sign) magnitude.

Definition response_ok (status : Z) : bool :=
  ((200 <=? status) && (status <=? 299))%bool.

Definition null_read_message : string :=
  "Cannot read properties of null (reading 'message')".

Definition decimal (n : Z) : string := NilZero.string_of_int (Z.to_int n).

Section MakeRequest.

Variable c : TrustAPIClient.

(** The network: what the [n]-th [fetch] of this call produces. *)
Variable net : nat -> fetch_outcome.

Definition finished (o : failure + value) : option transport_result :=
  Some {| outcome := o; attempts := 1; sleeps := [] |}.

Definition after_sleep (delay : option Z) (next : option transport_result)
  : option transport_result :=
  option_map (fun r => {| outcome := outcome r;
                          attempts := S (attempts r);
                          sleeps := delay :: sleeps r |}) next.

Definition may_retry (attempt : nat) : bool :=
  Z.of_nat attempt <=? maxRetries c.

Definition backoff (attempt : nat) : option Z :=
  Some (retryDelay c * Z.of_nat attempt).

(** [makeRequest(url, method, body, attempt)]; the recursion of the source
    is bounded by [fuel], and [None] means the bound was reached. *)
Fixpoint makeRequest_from (fuel attempt : nat) : option transport_result :=
  match fuel with
  | O => None
  | S fuel' =>
      let again (delay : option Z) :=
        after_sleep delay (makeRequest_from fuel' (S attempt)) in
      (* the catch block, for an error that is neither an abort nor a
         TrustAPIError *)
      let caught (message : string) :=
        if may_retry attempt then again (backoff attempt)
        else finished (inl (api_error
               (if String.eqb message "" then "Network error" else message)
               None None)) in
      match net attempt with
      | Aborted => finished (inl (api_error "Request timeout" None (Some 408)))
      | Fault message => caught message
      | Response status retryAfter b =>
          if status =? 429 then
            if may_retry attempt then
              again (match retryAfter with
                     | Some h =>
                         if String.eqb h "" then backoff attempt
                         else option_map (fun n => n * 1000) (parseInt h)
                     | None => backoff attempt
                     end)
            else finished (inl (api_error "Rate limit exceeded" (Some 1001) (Some 429)))
          else if ((500 <=? status) && may_retry attempt)%bool then
            again (backoff attempt)
          else
            match b with
            | Unparsable message => caught message
            | Parsed data =>
                if response_ok status then finished (inr data)
                else
                  match data with
                  | JNull => caught null_read_message
                  | _ =>
                      let m := get_prop (Some data) "message" in
                      finished (inl (TrustAPIError
                        (if truthy_u m then m
                         else Some (JStr ("HTTP " ++ decimal status)))
                        (get_prop (Some data) "code")
                        (Some status)))
                  end
            end
      end
  end.

(** A call starts at attempt 1; [maxRetries + 1] attempts are enough. *)
Definition makeRequest : option transport_result :=
  makeRequest_from (S (Z.to_nat (maxRetries c))) 1.

End MakeRequest.

Definition timeout_error : failure := api_error "Request timeout" None (Some 408).

(** What one attempt of [makeRequest_from] decides, read off its body: stop
    with an outcome ([inl]) or sleep and try again ([inr]). *)
Definition verdict (c : TrustAPIClient) (attempt : nat) (o : fetch_outcome)
  : (failure + value) + option Z :=
  let caught (message : string) :=
    if may_retry c attempt then inr (backoff c attempt)
    else inl (inl (api_error
           (if String.eqb message "" then "Network error" else message)
           None None)) in
  match o with
  | Aborted => inl (inl timeout_error)
  | Fault message => caught message
  | Response status retryAfter b =>
      if status =? 429 then
        if may_retry c attempt then
          inr (match retryAfter with
               | Some h =>
                   if String.eqb h "" then backoff c attempt
                   else option_map (fun n => n * 1000) (parseInt h)
               | None => backoff c attempt
               end)
        else inl (inl (api_error "Rate limit exceeded" (Some 1001) (Some 429)))
      else if ((500 <=? status) && may_retry c attempt)%bool then
        inr (backoff c attempt)
      else
        match b with
        | Unparsable message => caught message
        | Parsed data =>
            if response_ok status then inl (inr data)
            else
              match data with
              | JNull => caught null_read_message
              | _ =>
                  let m := get_prop (Some data) "message" in
                  inl (inl (TrustAPIError
                    (if truthy_u m then m
                     else Some (JStr ("HTTP " ++ decimal status)%string))
                    (get_prop (Some data) "code")
                    (Some status)))
              end
        end
  end.

(** A response with a 5xx status. *)
Definition server_error (o : fetch_outcome) : Prop :=
  exists status h b, o = Response status h b /\ 500 <= status.

Definition total_sleep (delays : list (option Z)) : Z :=
  fold_right (fun d acc => match d with Some ms => ms + acc | None => acc end)
             0 delays.

(** A network that answers 503 twice and then 200 with a score. *)
Definition two_503_then_200 (n : nat) : fetch_outcome :=
  if (n <? 3)%nat then Response 503 None (Parsed JNull)
  else Response 200 None (Parsed (JObj [("score", JNum 700)])).

(** A network that answers 503 twice and then 200 with a body that is not
    JSON. *)
Definition two_503_then_html (n : nat) : fetch_outcome :=
  if (n <? 3)%nat then Response 503 None (Parsed JNull)
  else Response 200 None (Unparsable "Unexpected token < in JSON at position 0").

(** A network that answers 429 with [Retry-After: 7] and then 200. *)
Definition retry_after_then_200 (n : nat) : fetch_outcome :=
  if (n <? 2)%nat then Response 429 (Some "7") (Parsed JNull)
  else Response 200 None (Parsed (JObj [("score", JNum 700)])).

(** The reading of the claim on the backoff: every sleep is the base delay
    times the number of the attempt it follows. *)
Definition linear_as_claimed (c : TrustAPIClient) (net : nat -> fetch_outcome)
  : Prop :=
  forall r, makeRequest c net = Some r ->
  forall i delay, nth_error (sleeps r) i = Some delay ->
                  delay = Some (retryDelay c * Z.of_nat (S i)).

(** The reading of the claim on its scenario: with 3 retries, a status of
    500 or more on attempts 1 and 2 and the status 200 on attempt 3, the
    call succeeds, having slept at least the first two backoffs. *)
Definition scenario_as_claimed (c : TrustAPIClient)
  (net : nat -> fetch_outcome) : Prop :=
  maxRetries c = 3 ->
  (exists s1 h1 b1, net 1%nat = Response s1 h1 b1 /\ 500 <= s1) ->
  (exists s2 h2 b2, net 2%nat = Response s2 h2 b2 /\ 500 <= s2) ->
  (exists h3 b3, net 3%nat = Response 200 h3 b3) ->
  exists r data,
    makeRequest c net = Some r
    /\ outcome r = inr data
    /\ retryDelay c * 1 + retryDelay c * 2 <= total_sleep (sleeps r).

End Transport.

(** ** ScoringClient facade: [scoreTransaction] and [sendFeedback] *)

Module Facade.
Import Canonicalizer Client Limiter Transport.

(** What one facade call did: its result, the limiter window it left, the
    delay the limiter asked for, the JSON body handed to the transport (if
    it got that far) and the transport's record of the exchange. *)
Record call_result := {
  result : failure + value;
  limiter : RateLimiterState;
  waited : option Z;
  sent : option obj;
  network : option transport_result
}.

Definition network_attempts (r : call_result) : nat :=
  match network r with
  | Some tr => attempts tr
  | None => 0%nat
  end.

(** A call that throws before the limiter and the network are touched. *)
Definition fails_locally (e : failure) (st : RateLimiterState) : call_result :=
  {| result := inl e; limiter := st; waited := None; sent := None;
     network := None |}.

(** [if (response.error) throw new TrustAPIError(...)] on the parsed body. *)
Definition check_response (data : value) : failure + value :=
  match data with
  | JNull => inl TypeError
  | _ =>
      let err := get_prop (Some data) "error" in
      if truthy_u err then
        inl (TrustAPIError (get_prop err "message") (get_prop err "code") None)
      else inr data
  end.

(** Rate limiting, then the exchange, then the check of the body. *)
Definition deliver (c : TrustAPIClient) (net : nat -> fetch_outcome) (now : Z)
  (st : RateLimiterState) (fullRequest : obj) : option call_result :=
  let (w, st') := applyRateLimit c now st in
  match makeRequest c net with
  | None => None
  | Some tr =>
      Some {| result := match outcome tr with
                        | inl e => inl e
                        | inr data => check_response data
                        end;
              limiter := st';
              waited := w;
              sent := Some fullRequest;
              network := Some tr |}
  end.

(** The object literal [{...request, key: this.apiKey, action: ...}]. *)
Definition score_payload (c : TrustAPIClient) (request : obj) : obj :=
  obj_set "action" (action_or_default (obj_get "action" request))
    (obj_set "key" (JStr (apiKey c)) request).

Definition scoreTransaction (c : TrustAPIClient) (net : nat -> fetch_outcome)
  (now : Z) (st : RateLimiterState) (request : obj) : option call_result :=
  let fullRequest := score_payload c request in
  match validateRequest fullRequest with
  | Some e => Some (fails_locally e st)
  | None => deliver c net now st fullRequest
  end.

(** The argument of [sendFeedback], at its declared type
    [Partial<FeedbackRequest>]; the items are carried as JSON. *)
Record FeedbackAction := {
  organization : option string
}.

Record FeedbackInput := {
  in_key : option string;
  in_action : option FeedbackAction;
  in_feedbacks : option (list value)
}.

Definition feedback_items (request : FeedbackInput) : list value :=
  match in_feedbacks request with
  | Some items => items
  | None => []
  end.

(** The body of a feedback call as [JSON.stringify] writes it: an
    [organization] that is [undefined] is left out. *)
Definition feedback_payload (c : TrustAPIClient) (request : FeedbackInput) : obj :=
  [("key", JStr (apiKey c));
   ("action",
    JObj (("type", JStr "feedback")
          :: match in_action request with
             | Some a =>
                 match organization a with
                 | Some o => [("organization", JStr o)]
                 | None => []
                 end
             | None => []
             end));
   ("feedbacks", JArr (feedback_items request))].

Definition sendFeedback (c : TrustAPIClient) (net : nat -> fetch_outcome)
  (now : Z) (st : RateLimiterState) (request : FeedbackInput)
  : option call_result :=
  let fullRequest := feedback_payload c request in
  let count := Z.of_nat (List.length (feedback_items request)) in
  if count =? 0 then
    Some (fails_locally
            (api_error "At least one feedback item is required" None None) st)
  else if 1000 <? count then
    Some (fails_locally
            (api_error "Maximum 1000 feedback items allowed per request"
                       (Some 1023) None) st)
  else deliver c net now st fullRequest.

(** The reading of the claim for an empty feedback list: the error thrown
    is the missing-required-field error of the API's table of codes. *)
Definition missing_required_field (e : failure) : Prop :=
  error_code e = Some (JNum Types.ERROR_CODES.MISSING_REQUIRED_FIELD).

Definition no_feedback : FeedbackInput :=
  {| in_key := None; in_action := None; in_feedbacks := Some [] |}.

(** A feedback request with [n] items. *)
Definition feedback_of (n : nat) : FeedbackInput :=
  {| in_key := None; in_action := None; in_feedbacks := Some (repeat JNull n) |}.

(** The error [sendFeedback] throws for an empty list. *)
Definition no_items_error : failure :=
  api_error "At least one feedback item is required" None None.

(** Two inputs with the same keys in the same order and the same value
    under every key except, possibly, [key]. *)
Definition differ_only_in_key (a b : obj) : Prop :=
  Forall2 (fun p q => fst p = fst q /\ (fst p = "key" \/ snd p = snd q)) a b.

(** A request that breaks two rules: a phone without country code and a
    name without last name, both in the account group. *)
Definition two_faults : obj :=
  [("account",
    JObj [("phone", JObj [("number", JStr "5551234")]);
          ("name", JObj [("first_name", JStr "Jo")])])].

(** What the caller of [scoreTransaction] is given when it throws. *)
Definition received (r : call_result) : list failure :=
  match result r with
  | inl e => [e]
  | inr _ => []
  end.

(** The reading of the claim on [scoreTransaction]: a local failure hands
    the caller every rule the request breaks. *)
Definition receives_all_findings (c : TrustAPIClient) (request : obj) : Prop :=
  forall net now st r,
    scoreTransaction c net now st request = Some r ->
    network r = None ->
    received r = all_failures rules (score_payload c request).

Definition phone_rule_error : failure :=
  api_error
    "Phone object at account?.phone must have either 'raw' or both 'country_code' and 'number'"
    (Some 1015) None.

End Facade.

(** ** The regular expressions of [validators.ts], as string tests *)

Module Pattern.

Definition code (c : ascii) : nat := nat_of_ascii c.

Definition between (lo hi : nat) (c : ascii) : bool :=
  (Nat.leb lo (code c) && Nat.leb (code c) hi)%bool.

(** [\d] *)
Definition digit (c : ascii) : bool := between 48 57 c.

(** [[a-zA-Z]] *)
Definition letter (c : ascii) : bool := (between 97 122 c || between 65 90 c)%bool.

(** [[0-9a-fA-F]] *)
Definition hex (c : ascii) : bool :=
  (digit c || between 97 102 c || between 65 70 c)%bool.

Definition one_of (chars : string) (c : ascii) : bool :=
  existsb (Ascii.eqb c) (list_ascii_of_string chars).

Definition exactly (x : ascii) (c : ascii) : bool := Ascii.eqb c x.

Fixpoint all (p : ascii -> bool) (s : string) : bool :=
  match s with
  | EmptyString => true
  | String c rest => (p c && all p rest)%bool
  end.

Fixpoint keep (p : ascii -> bool) (s : string) : string :=
  match s with
  | EmptyString => EmptyString
  | String c rest => if p c then String c (keep p rest) else keep p rest
  end.

(** An anchored pattern with one character class per position. *)
Fixpoint shape (classes : list (ascii -> bool)) (s : string) : bool :=
  match classes, s with
  | [], EmptyString => true
  | p :: ps, String c rest => (p c && shape ps rest)%bool
  | _, _ => false
  end.

(** [s.split(sep)] for a one-character separator. *)
Fixpoint split (sep : ascii) (s cur : string) : list string :=
  match s with
  | EmptyString => [cur]
  | String c rest =>
      if Ascii.eqb c sep then cur :: split sep rest EmptyString
      else split sep rest (cur ++ String c EmptyString)
  end.

Definition len_in (lo hi : nat) (s : string) : bool :=
  (Nat.leb lo (String.length s) && Nat.leb (String.length s) hi)%bool.

(** [/^\d{4}-\d{2}-\d{2}$/] *)
Definition ymd : list (ascii -> bool) :=
  [digit; digit; digit; digit; exactly "-"; digit; digit; exactly "-"; digit; digit]%char.

Definition date_full (s : string) : bool := shape ymd s.

(** [/^\d{4}(-\d{2})?$/] *)
Definition date_year_month (s : string) : bool :=
  (shape [digit; digit; digit; digit] s
   || shape [digit; digit; digit; digit; exactly "-"; digit; digit]%char s)%bool.

(** [/^\d+$/] *)
Definition digits_only (s : string) : bool :=
  (Nat.ltb 0 (String.length s) && all digit s)%bool.

(** [/^\d{4}-\d{2}-\d{2}( \d{2}:\d{2}:\d{2})?$/] *)
Definition created_format (s : string) : bool :=
  (shape ymd s
   || shape (ymd ++ [exactly " "; digit; digit; exactly ":"; digit; digit; exactly ":";
                     digit; digit]%char) s)%bool.

(** The local part and the domain classes of [emailRegex]. *)
Definition email_local (c : ascii) : bool :=
  (digit c || letter c || one_of "'.!_%-+" c)%bool.

Definition email_domain (c : ascii) : bool :=
  (digit c || letter c || one_of "._%-" c)%bool.

(** The text before the first [sep] and the text after it. *)
Fixpoint cut_first (sep : ascii) (s : string) : option (string * string) :=
  match s with
  | EmptyString => None
  | String c rest =>
      if Ascii.eqb c sep then Some (EmptyString, rest)
      else match cut_first sep rest with
           | Some (a, b) => Some (String c a, b)
           | None => None
           end
  end.

(** The text before the last [sep] and the text after it. *)
Fixpoint cut_last (sep : ascii) (s : string) : option (string * string) :=
  match s with
  | EmptyString => None
  | String c rest =>
      match cut_last sep rest with
      | Some (a, b) => Some (String c a, b)
      | None => if Ascii.eqb c sep then Some (EmptyString, rest) else None
      end
  end.

(** [/^[a-zA-Z0-9'.!_%\-+]+@[a-zA-Z0-9._%\-]+\.[a-zA-Z]{2,24}$/]: neither
    class holds [@] and the last class holds no dot, so the [@] is the
    first one and the dot before the top-level domain is the last one. *)
Definition emailRegex (s : string) : bool :=
  match cut_first "@" s with
  | Some (local, rest) =>
      match cut_last "." rest with
      | Some (domain, tld) =>
          (Nat.ltb 0 (String.length local) && all email_local local
           && Nat.ltb 0 (String.length domain) && all email_domain domain
           && len_in 2 24 tld && all letter tld)%bool
      | None => false
      end
  | None => false
  end.

(** [/^(\d{1,3}\.){3}\d{1,3}$/] *)
Definition ipv4Regex (s : string) : bool :=
  let parts := split "." s EmptyString in
  (Nat.eqb (List.length parts) 4
   && forallb (fun p => (len_in 1 3 p && all digit p)%bool) parts)%bool.

(** [/^([0-9a-fA-F]{0,4}:){2,7}[0-9a-fA-F]{0,4}$/] *)
Definition ipv6Regex (s : string) : bool :=
  let parts := split ":" s EmptyString in
  (Nat.leb 3 (List.length parts) && Nat.leb (List.length parts) 8
   && forallb (fun p => (len_in 0 4 p && all hex p)%bool) parts)%bool.

(** [/^(\d)\1{10}$/] *)
Definition same_digit_11 (s : string) : bool :=
  match s with
  | String d rest =>
      (digit d && Nat.eqb (String.length rest) 10 && all (exactly d) rest)%bool
  | EmptyString => false
  end.

End Pattern.

(** ** RequestValidator ([validators.ts]) *)

Module RequestValidator.
Import Types Types.ERROR_CODES.

Record ValidationError := {
  field : string;
  message : string;
  code : option Z
}.

(** [ValidationWarning] has the same three members. *)
Definition ValidationWarning := ValidationError.

Record ValidationResult := {
  valid : bool;
  errors : list ValidationError;
  warnings : list ValidationWarning
}.

(** The two arrays every method pushes to. *)
Record findings := {
  errs : list ValidationError;
  warns : list ValidationWarning
}.

(** A method body: a transformation of the two arrays. *)
Definition check := findings -> findings.

Definition skip : check := fun f => f.

Definition seq (a b : check) : check := fun f => b (a f).
Infix ";;" := seq (at level 61, right associativity).

Definition when_ (b : bool) (a : check) : check := if b then a else skip.

Definition push_error (fld msg : string) (c : Z) : check :=
  fun f => {| errs := errs f ++ [{| field := fld; message := msg; code := Some c |}];
              warns := warns f |}.

Definition push_warning (fld msg : string) (c : option Z) : check :=
  fun f => {| errs := errs f;
              warns := warns f ++ [{| field := fld; message := msg; code := c |}] |}.

(** [if (x) body(x)] for an optional object. *)
Definition if_present {A} (x : option A) (body : A -> check) : check :=
  match x with
  | Some a => body a
  | None => skip
  end.

(** Truthiness of an optional string, of a [string | number], of a flag. *)
Definition ts (x : option string) : bool :=
  match x with
  | Some s => negb (String.eqb s "")
  | None => false
  end.

Definition tn (x : option strnum) : bool :=
  match x with
  | Some (inl s) => negb (String.eqb s "")
  | Some (inr n) => negb (n =? 0)
  | None => false
  end.

Definition tb (x : option bool) : bool :=
  match x with
  | Some b => b
  | None => false
  end.

Definition str (x : option string) : string :=
  match x with Some s => s | None => EmptyString end.

(** [String(x)] for an optional [string | number]. *)
Definition to_string_u (x : option strnum) : string :=
  match x with
  | Some (inl s) => s
  | Some (inr n) => NilZero.string_of_int (Z.to_int n)
  | None => "undefined"
  end.

Definition is_str (x : option string) (s : string) : bool :=
  match x with
  | Some y => String.eqb y s
  | None => false
  end.

Definition slen (s : string) : nat := String.length s.

Definition validateName (name : NameObject.t) (path : string) : check :=
  if ts (NameObject.raw name) then
    when_ (ts (NameObject.first_name name) || ts (NameObject.last_name name)
           || ts (NameObject.middle_name name) || ts (NameObject.prefix name)
           || ts (NameObject.suffix name))
      (push_error path "Cannot use raw with other name fields" RAW_WITH_OTHER_FIELDS) ;;
    when_ (Nat.ltb (slen (Str.trim (str (NameObject.raw name)))) 2)
      (push_warning (path ++ ".raw") "Name appears too short" None)
  else if (negb (ts (NameObject.first_name name))
           || negb (ts (NameObject.last_name name)))%bool then
    push_error path "Name must have either raw or both first_name and last_name"
      MISSING_REQUIRED_FIELD
  else
    when_ (Nat.ltb (slen (str (NameObject.first_name name))) 1)
      (push_warning (path ++ ".first_name")
         "First name should be at least 1 character" None) ;;
    when_ (Nat.ltb (slen (str (NameObject.last_name name))) 2)
      (push_warning (path ++ ".last_name")
         "Last name should be at least 2 characters" None).

Definition testEmails : list string :=
  ["test@test.com"; "example@example.com"; "user@example.com"].

Definition validateEmail (email : EmailObject.t) (path : string) : check :=
  if negb (ts (EmailObject.address email)) then
    push_error path "Email address is required" MISSING_REQUIRED_FIELD
  else
    let address := str (EmailObject.address email) in
    when_ (negb (Pattern.emailRegex address))
      (push_error (path ++ ".address") "Invalid email format" FIELD_VALIDATION_ERROR) ;;
    when_ (Str.mem (Str.toLowerCase address) testEmails)
      (push_warning (path ++ ".address") "Test email address detected" None).

Definition validatePhone (phone : PhoneObject.t) (path : string) : check :=
  if ts (PhoneObject.raw phone) then
    when_ (tn (PhoneObject.country_code phone) || tn (PhoneObject.number phone)
           || tn (PhoneObject.extension phone))
      (push_error path "Cannot use raw with other phone fields" RAW_WITH_OTHER_FIELDS) ;;
    let digitsOnly := Pattern.keep Pattern.digit (str (PhoneObject.raw phone)) in
    when_ (Nat.ltb (slen digitsOnly) 7)
      (push_warning (path ++ ".raw") "Phone number appears too short" None)
  else if (negb (tn (PhoneObject.country_code phone))
           || negb (tn (PhoneObject.number phone)))%bool then
    push_error path "Phone must have either raw or both country_code and number"
      FIELD_VALIDATION_ERROR
  else
    let cc := to_string_u (PhoneObject.country_code phone) in
    let num := to_string_u (PhoneObject.number phone) in
    when_ (Nat.ltb 3 (slen cc) || Nat.ltb (slen cc) 1)
      (push_warning (path ++ ".country_code")
         "Country code should be 1-3 digits" None) ;;
    when_ (Nat.ltb (slen num) 7 || Nat.ltb 15 (slen num))
      (push_warning (path ++ ".number")
         "Phone number should be 7-15 digits" None).

Definition validateAddress (address : AddressObject.t) (path : string) : check :=
  if ts (AddressObject.raw address) then
    let hasOtherFields :=
      existsb ts [AddressObject.country address; AddressObject.state address;
                  AddressObject.city address; AddressObject.street address;
                  AddressObject.house address; AddressObject.po_box address;
                  AddressObject.zip_code address] in
    when_ hasOtherFields
      (push_error path "Cannot use raw with other address fields"
         RAW_WITH_OTHER_FIELDS)
  else
    let country := AddressObject.country address in
    let state := AddressObject.state address in
    let city := AddressObject.city address in
    let hasMinimumFields :=
      (ts country || ts state || ts (AddressObject.zip_code address) || ts city)%bool in
    when_ (negb hasMinimumFields)
      (push_error path
         "Address must have at least one of: raw, country, state, zip_code, or city"
         PARTIAL_ADDRESS) ;;
    when_ (ts country && negb (Nat.eqb (slen (str country)) 2))
      (push_warning (path ++ ".country") "Country should be a 2-letter ISO code"
         (Some 2013)) ;;
    when_ (ts state && is_str country "US" && negb (Nat.eqb (slen (str state)) 2))
      (push_warning (path ++ ".state") "US state should be a 2-letter code"
         (Some 2005)) ;;
    when_ (ts state && negb (ts country))
      (push_warning (path ++ ".state") "State provided without country"
         (Some 2014)) ;;
    when_ (ts city && negb (ts state) && negb (ts country))
      (push_warning (path ++ ".city") "City provided without state or country"
         (Some 2016)).

(** [parseInt(part, 10)] on a run of digits, and the 0..255 test. *)
Definition octet_ok (part : string) : bool :=
  match Transport.read_digits 10 Transport.digit_value part None with
  | Some n => ((0 <=? n) && (n <=? 255))%bool
  | None => false
  end.

Definition isValidIP (ip : string) : bool :=
  if Pattern.ipv4Regex ip then
    forallb octet_ok (Pattern.split "." ip EmptyString)
  else Pattern.ipv6Regex ip.

Definition isValidCPF (cpf : string) : bool :=
  let cleaned := Pattern.keep Pattern.digit cpf in
  if negb (Nat.eqb (slen cleaned) 11) then false
  else if Pattern.same_digit_11 cleaned then false
  else true.

Definition validateDevice (device : DeviceObject.t) (path : string) : check :=
  when_ (ts (DeviceObject.ip device)
         && negb (isValidIP (str (DeviceObject.ip device))))
    (push_error (path ++ ".ip") "Invalid IP address format" FIELD_VALIDATION_ERROR) ;;
  when_ (ts (DeviceObject.true_ip device)
         && negb (isValidIP (str (DeviceObject.true_ip device))))
    (push_error (path ++ ".true_ip") "Invalid true_ip address format"
       FIELD_VALIDATION_ERROR) ;;
  when_ (match DeviceObject.battery_level device with
         | Some level => ((level <? 0) || (100 <? level))%bool
         | None => false
         end)
    (push_warning (path ++ ".battery_level")
       "Battery level should be between 0 and 100" None) ;;
  when_ (tb (DeviceObject.is_emulator device) || tb (DeviceObject.is_virtual_env device))
    (push_warning path "Virtual environment or emulator detected" None) ;;
  when_ (tb (DeviceObject.is_rooted device))
    (push_warning path "Rooted/jailbroken device detected" None).

Definition validatePerson (person : PersonObject.t) (path : string) : check :=
  let dob := str (PersonObject.dob person) in
  when_ (ts (PersonObject.dob person)
         && negb (Pattern.date_full dob) && negb (Pattern.date_year_month dob)
         && negb (Pattern.digits_only dob))
    (push_warning (path ++ ".dob")
       "Date of birth should be in YYYY-MM-DD, YYYY-MM, YYYY, or age format" None) ;;
  when_ (ts (PersonObject.gender person)
         && negb (is_str (PersonObject.gender person) "M")
         && negb (is_str (PersonObject.gender person) "F"))
    (push_error (path ++ ".gender") "Gender must be M or F" FIELD_VALIDATION_ERROR).

Definition validatePersonalIdentifier (identifier : PersonalIdentifierObject.t)
  (path : string) : check :=
  let type := PersonalIdentifierObject.type identifier in
  let value := PersonalIdentifierObject.value identifier in
  let issue_date := PersonalIdentifierObject.issue_date identifier in
  let expiry_date := PersonalIdentifierObject.expiry_date identifier in
  when_ (negb (ts type))
    (push_error (path ++ ".type") "Identifier type is required"
       MISSING_REQUIRED_FIELD) ;;
  when_ (negb (ts value))
    (push_error (path ++ ".value") "Identifier value is required"
       MISSING_REQUIRED_FIELD) ;;
  when_ (is_str type "CPF" && ts value && negb (isValidCPF (str value)))
    (push_warning (path ++ ".value") "CPF format appears invalid" None) ;;
  when_ (ts issue_date && negb (Pattern.date_full (str issue_date)))
    (push_warning (path ++ ".issue_date")
       "Issue date should be in YYYY-MM-DD format" None) ;;
  when_ (ts expiry_date && negb (Pattern.date_full (str expiry_date)))
    (push_warning (path ++ ".expiry_date")
       "Expiry date should be in YYYY-MM-DD format" None).

Definition validateAccountGroup (account : AccountObject.t) : check :=
  if_present (AccountObject.name account)
    (fun x => validateName x "account.name") ;;
  if_present (AccountObject.email account)
    (fun x => validateEmail x "account.email") ;;
  if_present (AccountObject.phone account)
    (fun x => validatePhone x "account.phone") ;;
  if_present (AccountObject.address account)
    (fun x => validateAddress x "account.address") ;;
  if_present (AccountObject.person account)
    (fun x => validatePerson x "account.person") ;;
  if_present (AccountObject.personal_identifier account)
    (fun x => validatePersonalIdentifier x "account.personal_identifier") ;;
  when_ (ts (AccountObject.created account)
         && negb (Pattern.created_format (str (AccountObject.created account))))
    (push_warning "account.created"
       "Created date should be in YYYY-MM-DD HH:MM:SS format" None) ;;
  when_ (ts (AccountObject.ip_created account)
         && negb (isValidIP (str (AccountObject.ip_created account))))
    (push_warning "account.ip_created" "Invalid IP address format" None) ;;
  when_ (ts (AccountObject.ip_last account)
         && negb (isValidIP (str (AccountObject.ip_last account))))
    (push_warning "account.ip_last" "Invalid IP address format" None) ;;
  if_present (AccountObject.ip_history account)
    (fun history =>
       fold_right seq skip
         (map (fun entry =>
                 when_ (negb (isValidIP (snd entry)))
                   (push_warning
                      ("account.ip_history[" ++ Canonicalizer.index_key (fst entry) ++ "]")
                      "Invalid IP address format" None))
              (combine (List.seq 0 (List.length history)) history))).

Definition validateBillingShippingGroup (group : GroupObject.t)
  (groupName : string) : check :=
  if_present (GroupObject.name group)
    (fun x => validateName x (groupName ++ ".name")) ;;
  if_present (GroupObject.email group)
    (fun x => validateEmail x (groupName ++ ".email")) ;;
  if_present (GroupObject.phone group)
    (fun x => validatePhone x (groupName ++ ".phone")) ;;
  if_present (GroupObject.address group)
    (fun x => validateAddress x (groupName ++ ".address")).

Definition present {A} (x : option A) : bool :=
  match x with Some _ => true | None => false end.

(** [dataFields.some(field => request[field] !== undefined)] *)
Definition hasDataField (request : TrustRequest.t) : bool :=
  (present (TrustRequest.name request) || present (TrustRequest.email request)
   || present (TrustRequest.phone request) || present (TrustRequest.address request)
   || present (TrustRequest.device request) || present (TrustRequest.account request)
   || present (TrustRequest.billing request) || present (TrustRequest.shipping request)
   || present (TrustRequest.sender request) || present (TrustRequest.recipient request)
   || present (TrustRequest.browser request) || present (TrustRequest.card request)
   || present (TrustRequest.order request) || present (TrustRequest.page request)
   || present (TrustRequest.payment request) || present (TrustRequest.session request)
   || present (TrustRequest.person request)
   || present (TrustRequest.personal_identifier request)
   || present (TrustRequest.locale request) || present (TrustRequest.custom request)
   || present (TrustRequest.metadata request))%bool.

(** The pushes of [validateRequest], in source order. *)
Definition request_checks (request : TrustRequest.t) : check :=
  match TrustRequest.action request with
  | None => push_error "action" "Action object is required" ACTION_REQUIRED
  | Some action =>
      when_ (negb (ts (ActionObject.type action)))
        (push_error "action.type" "Action type is required" INVALID_ACTION)
  end ;;
  when_ (negb (hasDataField request))
    (push_error "data" "At least one data field is required"
       MISSING_REQUIRED_FIELD) ;;
  if_present (TrustRequest.name request) (fun x => validateName x "name") ;;
  if_present (TrustRequest.email request) (fun x => validateEmail x "email") ;;
  if_present (TrustRequest.phone request) (fun x => validatePhone x "phone") ;;
  if_present (TrustRequest.address request) (fun x => validateAddress x "address") ;;
  if_present (TrustRequest.device request) (fun x => validateDevice x "device") ;;
  if_present (TrustRequest.person request) (fun x => validatePerson x "person") ;;
  if_present (TrustRequest.personal_identifier request)
    (fun x => validatePersonalIdentifier x "personal_identifier") ;;
  if_present (TrustRequest.account request) validateAccountGroup ;;
  if_present (TrustRequest.billing request)
    (fun g => validateBillingShippingGroup g "billing") ;;
  if_present (TrustRequest.shipping request)
    (fun g => validateBillingShippingGroup g "shipping").

Definition no_findings : findings := {| errs := []; warns := [] |}.

Definition result_of (f : findings) : ValidationResult :=
  {| valid := match errs f with [] => true | _ => false end;
     errors := errs f;
     warnings := warns f |}.

Definition validateRequest (request : TrustRequest.t) : ValidationResult :=
  result_of (request_checks request no_findings).

(** A single field validated on its own, from empty arrays. *)
Definition run (c : check) : ValidationResult := result_of (c no_findings).

(** A check is additive when it only appends to the two arrays, and what
    it appends does not depend on what they already hold. *)
Definition additive (c : check) : Prop :=
  forall f, c f = {| errs := (errs f ++ errs (c no_findings))%list;
                     warns := (warns f ++ warns (c no_findings))%list |}.

(** Every error pushed so far carries a code. *)
Definition coded (f : findings) : Prop :=
  Forall (fun e => code e <> None) (errs f).

(** A check is sound when it is additive and keeps every error coded. *)
Definition sound (c : check) : Prop :=
  additive c /\ (forall f, coded f -> coded (c f)).

(** The checks [validateRequest] runs, one per statement of its body. *)
Definition sub_checks (request : TrustRequest.t) : list check :=
  [ match TrustRequest.action request with
    | None => push_error "action" "Action object is required" ACTION_REQUIRED
    | Some action =>
        when_ (negb (ts (ActionObject.type action)))
          (push_error "action.type" "Action type is required" INVALID_ACTION)
    end;
    when_ (negb (hasDataField request))
      (push_error "data" "At least one data field is required"
         MISSING_REQUIRED_FIELD);
    if_present (TrustRequest.name request) (fun x => validateName x "name");
    if_present (TrustRequest.email request) (fun x => validateEmail x "email");
    if_present (TrustRequest.phone request) (fun x => validatePhone x "phone");
    if_present (TrustRequest.address request)
      (fun x => validateAddress x "address");
    if_present (TrustRequest.device request) (fun x => validateDevice x "device");
    if_present (TrustRequest.person request) (fun x => validatePerson x "person");
    if_present (TrustRequest.personal_identifier request)
      (fun x => validatePersonalIdentifier x "personal_identifier");
    if_present (TrustRequest.account request) validateAccountGroup;
    if_present (TrustRequest.billing request)
      (fun g => validateBillingShippingGroup g "billing");
    if_present (TrustRequest.shipping request)
      (fun g => validateBillingShippingGroup g "shipping") ].

Definition phone_of (raw : option string) (number : option strnum)
  : PhoneObject.t :=
  {| PhoneObject.raw := raw; PhoneObject.country_code := None;
     PhoneObject.number := number; PhoneObject.extension := None;
     PhoneObject.verified := None |}.

(** The reading of the tie-break for a phone: once an Error is emitted
    for it, no Warning is. *)
Definition error_silences_warnings (phone : PhoneObject.t) (path : string)
  : Prop :=
  errors (run (validatePhone phone path)) <> [] ->
  warnings (run (validatePhone phone path)) = [].

Definition raw_with_other_fields (path : string) : ValidationError :=
  {| field := path; message := "Cannot use raw with other phone fields";
     code := Some RAW_WITH_OTHER_FIELDS |}.

Definition raw_too_short (path : string) : ValidationWarning :=
  {| field := (path ++ ".raw")%string;
     message := "Phone number appears too short"; code := None |}.

End RequestValidator.

(** ** The [score_transaction] tools *)

Module ScoreTool.
Import Client Facade.

(** What [execute] of [tools/score-transaction.ts] hands back when the
    validator rejects the built request: the whole validation result.  When
    the validator accepts it, [execute] goes on to [scoreTransaction]. *)
Inductive validation_stage : Type :=
| Rejected (validation : RequestValidator.ValidationResult)
| Accepted (validation : RequestValidator.ValidationResult).

Definition validate_stage (request : Types.TrustRequest.t) : validation_stage :=
  let validation := RequestValidator.validateRequest request in
  if negb (RequestValidator.valid validation) then Rejected validation
  else Accepted validation.

End ScoreTool.

(** ** Shapes of values and requests *)

Module Shapes.
Import Sanitizer Canonicalizer.

(** A value that holds, at no depth, a [null], a placeholder string or an
    object without members. *)
Fixpoint deep_clean (v : value) : bool :=
  match v with
  | JNull => false
  | JBool _ | JNum _ => true
  | JStr s => negb (is_placeholder s)
  | JArr items => forallb deep_clean items
  | JObj entries =>
      (match entries with [] => false | _ => true end
       && forallb (fun kv => deep_clean (snd kv)) entries)%bool
  end.

(** The keys [buildRequest] can write. *)
Definition recognizedKeys : list string :=
  (["action"; "sender"; "recipient"; "metadata"; "account"; "billing";
    "shipping"] ++ dataFields ++ otherFields
   ++ ["echo_query"; "connectivity"; "signals"])%list.

Definition flagKeys : list string := ["echo_query"; "connectivity"; "signals"].

(** What a group ([account], [billing], [shipping]) of the input becomes. *)
Definition group_result (group : option value) : option value :=
  match group with
  | Some g => if isEmptyValue g then None else cleanObject (normalizeGroupFields g)
  | None => None
  end.

(** What a [sender], [recipient] or [metadata] entry of the input becomes. *)
Definition embedded_result (JSON_parse : string -> option value)
  (entry : option value) : option value :=
  match entry with
  | Some v =>
      if isEmptyValue v then None
      else match parse_embedded JSON_parse v with
           | Some x => if isEmptyValue x then None else Some x
           | None => None
           end
  | None => None
  end.

(** The group keys the loop of [buildRequest] writes. *)
Definition loopKeys : list string :=
  ["account"; "billing"; "shipping"; "sender"; "recipient"; "metadata"].

(** The keys whose values [buildRequest] cleans at every depth. *)
Definition cleanedKeys : list string :=
  ["billing"; "shipping"; "sender"; "recipient"; "metadata"].

(** A request with distinct, recognized keys, whose values (the action and
    the flags apart) are not empty, and are clean at every depth under the
    keys listed in [deep]. *)
Definition shaped (deep : list string) (o : obj) : Prop :=
  wf_obj o
  /\ forall k v, obj_get k o = Some v ->
       In k recognizedKeys
       /\ (k = "action" \/ In k flagKeys \/ isEmptyValue v = false)
       /\ (In k deep -> deep_clean v = true).

(** The fields collected for a synthesized account: identity fields only,
    none of them empty. *)
Definition collected (o : obj) : Prop :=
  wf_obj o
  /\ forall k v, obj_get k o = Some v ->
       In k dataFields /\ isEmptyValue v = false.

(** An input with an unrecognized key, a bare string, a group holding a
    placeholder and one flag. *)
Definition sample_input : obj :=
  [("email", JStr "a@b.com"); ("foo", JNum 1);
   ("billing", JObj [("name", JStr "Al"); ("phone", JStr "n/a")]);
   ("signals", JBool false)].

End Shapes.

(** ** Shapes of the rate window *)

Module Windows.
Import Client Limiter.

(** The timestamps of the window are in non-decreasing order. *)
Definition in_order (st : RateLimiterState) : Prop :=
  StronglySorted Z.le (requests st).

(** No timestamp of the window is later than [now]. *)
Definition not_after (now : Z) (st : RateLimiterState) : Prop :=
  Forall (fun ts => ts <= now) (requests st).

End Windows.

(** ** Kinds of exchanges *)

Module Exchanges.
Import Client Transport.

(** An outcome the transport answers by trying again while retries remain:
    a 429, a 5xx or a network fault. *)
Definition transient (o : fetch_outcome) : Prop :=
  match o with
  | Response status _ _ => status = 429 \/ 500 <= status
  | Fault _ => True
  | Aborted => False
  end.

Definition is_api_error (e : failure) : Prop :=
  match e with
  | TrustAPIError _ _ _ => True
  | TypeError => False
  end.

(** No 429 of this network carries a Retry-After header. *)
Definition no_retry_after (net : nat -> fetch_outcome) : Prop :=
  forall n h b, net n = Response 429 (Some h) b -> h = EmptyString.

(** The delays of [n] linear backoffs: [retryDelay * 1], ..., [retryDelay * n]. *)
Definition linear_sleeps (c : TrustAPIClient) (n : nat) : list (option Z) :=
  map (fun i => Some (retryDelay c * Z.of_nat i)) (seq 1 n).

(** A body the code can read an error out of: JSON, and not [null]. *)
Definition readable (b : body) : Prop :=
  match b with
  | Parsed JNull => False
  | Parsed _ => True
  | Unparsable _ => False
  end.

(** The error thrown for a non-2xx answer with a readable body. *)
Definition http_error (status : Z) (data : value) : failure :=
  let m := get_prop (Some data) "message" in
  TrustAPIError
    (if truthy_u m then m else Some (JStr ("HTTP " ++ decimal status)))
    (get_prop (Some data) "code") (Some status).

(** A network that answers 429 without a Retry-After header, always. *)
Definition always_429 (n : nat) : fetch_outcome :=
  Response 429 None (Parsed (JObj [])).

End Exchanges.

(** ** Sample networks *)

Module Networks.
Import Client Transport.

(** A network that always answers 404 with a JSON error body. *)
Definition always_404 (n : nat) : fetch_outcome :=
  Response 404 None
    (Parsed (JObj [("message", JStr "not found"); ("code", JNum 2006)])).

End Networks.

(** ** Replies of the API *)

Module Replies.
Import Client Limiter Transport Facade.

(** The reply [data] came back from the network and passed the check of
    its [error] member. *)
Definition clean_reply (r : call_result) (data : value) : Prop :=
  exists tr,
    network r = Some tr /\ outcome tr = inr data
    /\ data <> JNull /\ truthy_u (get_prop (Some data) "error") = false.

(** [new TrustAPIError(response.error.message, response.error.code)] *)
Definition reply_error (data : value) : failure :=
  let err := get_prop (Some data) "error" in
  TrustAPIError (get_prop err "message") (get_prop err "code") None.

(** The timestamps of [st] that a call entered at [now] keeps. *)
Definition still_counted (now : Z) (st : RateLimiterState) : list Z :=
  filter (fun timestamp => now - 1000 <? timestamp) (requests st).

(** A 200 whose body reports an error of the API. *)
Definition rejected_reply : value :=
  JObj [("error", JObj [("message", JStr "Invalid key"); ("code", JNum 1002)])].

Definition always_rejected (n : nat) : fetch_outcome :=
  Response 200 None (Parsed rejected_reply).

Definition one_email : obj :=
  [("account", JObj [("email", JObj [("address", JStr "a@b.co")])])].

End Replies.

(** ** Sample fields for the validator *)

Module Fields.
Import Types RequestValidator.

Definition name_of (raw first last : option string) : NameObject.t :=
  {| NameObject.raw := raw; NameObject.first_name := first;
     NameObject.last_name := last; NameObject.middle_name := None;
     NameObject.prefix := None; NameObject.suffix := None |}.

Definition address_of (raw country state city : option string)
  : AddressObject.t :=
  {| AddressObject.raw := raw; AddressObject.country := country;
     AddressObject.state := state; AddressObject.city := city;
     AddressObject.street := None; AddressObject.house := None;
     AddressObject.po_box := None; AddressObject.zip_code := None |}.

Definition email_of (address : option string) : EmailObject.t :=
  {| EmailObject.address := address; EmailObject.verified := None |}.

(** The name fields other than [raw] that the conflict test looks at. *)
Definition other_name_fields (name : NameObject.t) : bool :=
  (ts (NameObject.first_name name) || ts (NameObject.last_name name)
   || ts (NameObject.middle_name name) || ts (NameObject.prefix name)
   || ts (NameObject.suffix name))%bool.

Definition first_name_warning : string :=
  "First name should be at least 1 character".

(** Both halves of a cut string in lower case. *)
Definition lower_pair (p : string * string) : string * string :=
  (Str.toLowerCase (fst p), Str.toLowerCase (snd p)).

End Fields.

(** ** Dotted quads *)

Module Quads.
Import Pattern RequestValidator.

(** A natural number in decimal, without leading zeros. *)
Definition dec (n : nat) : string := NilZero.string_of_uint (Nat.to_uint n).

Definition dot : string := ".".

(** [a.b.c.d] *)
Definition quad (a b c d : nat) : string :=
  dec a ++ dot ++ dec b ++ dot ++ dec c ++ dot ++ dec d.

(** What holds of the decimal of one part below 1000. *)
Definition part_ok (n : nat) : bool :=
  (len_in 1 3 (dec n) && all digit (dec n)
   && all (fun c => negb (Ascii.eqb c ".")) (dec n)
   && Bool.eqb (octet_ok (dec n)) (Nat.leb n 255))%bool.

End Quads.

(** ** Sample requests for the validator *)

Module Requests.
Import Types RequestValidator.

(** A request without any member. *)
Definition empty_request : TrustRequest.t :=
  {| TrustRequest.action := None; TrustRequest.account := None;
     TrustRequest.billing := None; TrustRequest.shipping := None;
     TrustRequest.sender := None; TrustRequest.recipient := None;
     TrustRequest.metadata := None; TrustRequest.name := None;
     TrustRequest.email := None; TrustRequest.phone := None;
     TrustRequest.address := None; TrustRequest.person := None;
     TrustRequest.personal_identifier := None; TrustRequest.device := None;
     TrustRequest.browser := None; TrustRequest.card := None;
     TrustRequest.order := None; TrustRequest.page := None;
     TrustRequest.payment := None; TrustRequest.session := None;
     TrustRequest.locale := None; TrustRequest.custom := None |}.

(** The finding about the action of a request. *)
Definition action_findings (request : TrustRequest.t) : list ValidationError :=
  match TrustRequest.action request with
  | None =>
      [{| field := "action"; message := "Action object is required";
          code := Some ERROR_CODES.ACTION_REQUIRED |}]
  | Some action =>
      if ts (ActionObject.type action) then []
      else [{| field := "action.type"; message := "Action type is required";
               code := Some ERROR_CODES.INVALID_ACTION |}]
  end.

Definition data_finding : ValidationError :=
  {| field := "data"; message := "At least one data field is required";
     code := Some ERROR_CODES.MISSING_REQUIRED_FIELD |}.

End Requests.

(** ** Insights: [analyzeResponse] and [analyzeFieldSignals] *)

Module Insights.

(** The members of the trust signals that the analysis reads, at the types
    of the [*TrustSignals] interfaces. *)
Record EmailTrustSignals := {
  domain_type : option string;
  email_age_days : option Z
}.

Record PhoneTrustSignals := {
  line_type : option string;
  voip_type : option string;
  is_disposable : option bool
}.

Record IPTrustSignals := {
  is_proxy : option bool;
  is_vpn : option bool;
  is_tor : option bool;
  is_bot : option bool
}.

Record AddressTrustSignals := {
  is_valid : option bool;
  is_freight_forward : option bool
}.

Record FieldResponse (T : Type) := {
  trust_signals : option T
}.
Arguments trust_signals {T} _.

Record AccountFieldResponses := {
  account_email : option (FieldResponse EmailTrustSignals);
  account_phone : option (FieldResponse PhoneTrustSignals)
}.

Record DeviceFieldResponse := {
  ip : option (FieldResponse IPTrustSignals)
}.

Record GroupFieldResponses := {
  address : option (FieldResponse AddressTrustSignals)
}.

Record TrustResponse := {
  score : Z;
  warnings : option (list Json.value);
  account : option AccountFieldResponses;
  email : option (FieldResponse EmailTrustSignals);
  phone : option (FieldResponse PhoneTrustSignals);
  device : option DeviceFieldResponse;
  billing : option GroupFieldResponses;
  shipping : option GroupFieldResponses
}.

Inductive risk : Type := low | medium | high.

(** The two arrays the analysis pushes to. *)
Record notes := {
  issues : list string;
  recommendations : list string
}.

Definition no_notes : notes := {| issues := []; recommendations := [] |}.

Definition issue (text : string) (n : notes) : notes :=
  {| issues := issues n ++ [text]; recommendations := recommendations n |}.

Definition recommend (text : string) (n : notes) : notes :=
  {| issues := issues n; recommendations := recommendations n ++ [text] |}.

(** [if (b) { issues.push(i); recommendations.push(r) }] *)
Definition flag (b : bool) (i r : string) (n : notes) : notes :=
  if b then recommend r (issue i n) else n.

(** [if (b) issues.push(i)] *)
Definition remark (b : bool) (i : string) (n : notes) : notes :=
  if b then issue i n else n.

(** [x?.trust_signals] *)
Definition signals_of {T} (x : option (FieldResponse T)) : option T :=
  match x with
  | Some r => trust_signals r
  | None => None
  end.

(** [a || b] for two optional objects. *)
Definition or_else {T} (a b : option T) : option T :=
  match a with
  | Some x => Some x
  | None => b
  end.

Definition through {A B} (x : option A) (f : A -> option B) : option B :=
  match x with
  | Some a => f a
  | None => None
  end.

Definition is_text (x : option string) (s : string) : bool :=
  match x with
  | Some y => String.eqb y s
  | None => false
  end.

Definition truthy_flag (x : option bool) : bool :=
  match x with
  | Some b => b
  | None => false
  end.

Definition emailSignals (response : TrustResponse) : option EmailTrustSignals :=
  or_else (signals_of (through (account response) account_email))
          (signals_of (email response)).

Definition phoneSignals (response : TrustResponse) : option PhoneTrustSignals :=
  or_else (signals_of (through (account response) account_phone))
          (signals_of (phone response)).

Definition ipSignals (response : TrustResponse) : option IPTrustSignals :=
  signals_of (through (device response) ip).

Definition addressSignals (response : TrustResponse)
  : option AddressTrustSignals :=
  or_else (signals_of (through (billing response) address))
          (signals_of (through (shipping response) address)).

Definition checkEmail (s : EmailTrustSignals) (n : notes) : notes :=
  remark (match email_age_days s with Some d => d =? 0 | None => false end)
    "Email address is new to the system"
    (flag (is_text (domain_type s) "disposable")
       "Disposable email address detected" "Require non-disposable email" n).

Definition checkPhone (s : PhoneTrustSignals) (n : notes) : notes :=
  remark (truthy_flag (is_disposable s)) "Disposable phone number detected"
    (flag (is_text (line_type s) "voip" && is_text (voip_type s) "non_fixed")
       "Non-fixed VOIP phone detected"
       "Consider requiring mobile or landline number" n).

Definition checkIP (s : IPTrustSignals) (n : notes) : notes :=
  flag (truthy_flag (is_bot s)) "Bot activity detected" "Block automated traffic"
    (flag (truthy_flag (is_tor s)) "TOR network detected"
       "High risk - manual review required"
       (flag (truthy_flag (is_proxy s) || truthy_flag (is_vpn s))
          "Proxy/VPN usage detected"
          "Consider blocking or flagging proxy/VPN users" n)).

Definition checkAddress (s : AddressTrustSignals) (n : notes) : notes :=
  flag (truthy_flag (is_freight_forward s)) "Freight forwarding address detected"
    "Higher risk for international fraud"
    (flag (negb (truthy_flag (is_valid s))) "Invalid address provided"
       "Verify address before processing" n).

Definition with_signals {T} (s : option T) (body : T -> notes -> notes)
  (n : notes) : notes :=
  match s with
  | Some x => body x n
  | None => n
  end.

Definition analyzeFieldSignals (response : TrustResponse) (n : notes) : notes :=
  with_signals (addressSignals response) checkAddress
    (with_signals (ipSignals response) checkIP
       (with_signals (phoneSignals response) checkPhone
          (with_signals (emailSignals response) checkEmail n))).

Record analysis := {
  riskLevel : risk;
  found : notes
}.

Definition warning_count (response : TrustResponse) : nat :=
  match warnings response with
  | Some ws => List.length ws
  | None => 0%nat
  end.

Definition analyzeResponse (response : TrustResponse) : analysis :=
  let level :=
    if score response <? 300 then high
    else if score response <? 600 then medium
    else low in
  let scored :=
    if score response <? 300 then
      recommend "Manual review strongly recommended"
        (issue "Very low trust score indicates high risk" no_notes)
    else if score response <? 600 then
      recommend "Consider additional verification"
        (issue "Moderate trust score requires attention" no_notes)
    else no_notes in
  let warned :=
    remark (Nat.ltb 0 (warning_count response))
      (NilZero.string_of_uint (Nat.to_uint (warning_count response))
       ++ " warning(s) in response") scored in
  {| riskLevel := level; found := analyzeFieldSignals response warned |}.

(** A response with the given score and address signals of the two
    groups, and nothing else. *)
Definition response_of (s : Z) (bill ship : option AddressTrustSignals)
  : TrustResponse :=
  {| score := s; warnings := None; account := None; email := None;
     phone := None; device := None;
     billing := Some {| address := Some {| trust_signals := bill |} |};
     shipping := Some {| address := Some {| trust_signals := ship |} |} |}.

(** The same response with other shipping data. *)
Definition with_shipping (response : TrustResponse)
  (ship : option GroupFieldResponses) : TrustResponse :=
  {| score := score response; warnings := warnings response;
     account := account response; email := email response;
     phone := phone response; device := device response;
     billing := billing response; shipping := ship |}.

(** A check only appends, and appends no more recommendations than
    issues. *)
Definition measured (f : notes -> notes) : Prop :=
  exists di dr,
    (List.length dr <= List.length di)%nat
    /\ forall n, f n = {| issues := issues n ++ di;
                          recommendations := recommendations n ++ dr |}.

End Insights.

(** ** The analysis tools of [tools.ts] *)

Module Analysis.

Definition getRiskLevel (score : Z) : string :=
  if 800 <=? score then "very_low"
  else if 600 <=? score then "low"
  else if 400 <=? score then "medium"
  else if 200 <=? score then "high"
  else "very_high".

Definition interpretScore (score : Z) : string :=
  if 800 <=? score then "Very trustworthy"
  else if 600 <=? score then "Moderately trustworthy"
  else if 400 <=? score then "Neutral/unknown"
  else if 200 <=? score then "Somewhat risky"
  else "High risk".

(** The issue about the score that [AnalyzeTrustResponseTool.execute]
    pushes, if any. *)
Definition score_issue (score : Z) : option string :=
  if score <? 300 then Some "Very low trust score - high fraud risk"
  else if score <? 600 then Some "Moderate trust score - some risk indicators"
  else None.

(** How risky a level is, from 0 ([very_low]) to 4 ([very_high]). *)
Definition risk_rank (level : string) : nat :=
  if String.eqb level "very_low" then 0
  else if String.eqb level "low" then 1
  else if String.eqb level "medium" then 2
  else if String.eqb level "high" then 3
  else 4.

(** One entry of [connections]; [None] is a [null] score. *)
Record connection := {
  from : string;
  to : string;
  conn_score : option Z
}.

(** [x >= t] and [x < t] for [x : number | null]: [null] compares as 0. *)
Definition to_number (x : option Z) : Z :=
  match x with
  | Some n => n
  | None => 0
  end.

Definition ge (x : option Z) (t : Z) : bool := t <=? to_number x.
Definition lt (x : option Z) (t : Z) : bool := to_number x <? t.

Definition is_null (x : option Z) : bool :=
  match x with
  | Some _ => false
  | None => true
  end.

Definition strongConnections (connections : list connection) : list connection :=
  filter (fun c => ge (conn_score c) 80) connections.

Definition moderateConnections (threshold : Z) (connections : list connection)
  : list connection :=
  filter (fun c => ge (conn_score c) threshold && lt (conn_score c) 80)
         connections.

Definition weakConnections (threshold : Z) (connections : list connection)
  : list connection :=
  filter (fun c => lt (conn_score c) threshold && negb (is_null (conn_score c)))
         connections.

Definition noData (connections : list connection) : list connection :=
  filter (fun c => is_null (conn_score c)) connections.

Record summary := {
  total : nat;
  strong : nat;
  moderate : nat;
  weak : nat;
  no_data : nat
}.

(** The [summary] member of what [CheckConnectivityTool.execute] returns. *)
Definition connectivity_summary (threshold : Z) (connections : list connection)
  : summary :=
  {| total := List.length connections;
     strong := List.length (strongConnections connections);
     moderate := List.length (moderateConnections threshold connections);
     weak := List.length (weakConnections threshold connections);
     no_data := List.length (noData connections) |}.

(** The four counts add up to the total. *)
Definition adds_up (s : summary) : Prop :=
  total s = (strong s + moderate s + weak s + no_data s)%nat.

(** In how many of the four classes one connection is counted. *)
Definition times_counted (threshold : Z) (c : connection) : nat :=
  (Nat.b2n (ge (conn_score c) 80)
   + Nat.b2n (ge (conn_score c) threshold && lt (conn_score c) 80)
   + Nat.b2n (lt (conn_score c) threshold && negb (is_null (conn_score c)))
   + Nat.b2n (is_null (conn_score c)))%nat.

Definition scored (s : option Z) : connection :=
  {| from := "account.email"; to := "account.phone"; conn_score := s |}.

End Analysis.

(** ** [toJSONSchema] *)

Module Schema.
Import RequestValidator.

(** [s.replace('.', '/')]: a string pattern replaces the first occurrence
    only. *)
Fixpoint replace_first_dot (s : string) : string :=
  match s with
  | EmptyString => EmptyString
  | String c rest =>
      if Ascii.eqb c "." then String "/" rest
      else String c (replace_first_dot rest)
  end.

Record entry := {
  instancePath : string;
  entry_message : string;
  keyword : string;
  params_code : option Z
}.

Record schema := {
  schema_valid : bool;
  schema_errors : list entry;
  schema_warnings : list entry
}.

Definition to_entry (kw : string) (e : ValidationError) : entry :=
  {| instancePath := "/" ++ replace_first_dot (field e);
     entry_message := message e;
     keyword := kw;
     params_code := code e |}.

Definition toJSONSchema (result : ValidationResult) : schema :=
  {| schema_valid := valid result;
     schema_errors := map (to_entry "validation") (errors result);
     schema_warnings := map (to_entry "warning") (warnings result) |}.

(** How often a character occurs in a string. *)
Fixpoint occurrences (x : ascii) (s : string) : nat :=
  match s with
  | EmptyString => 0
  | String c rest =>
      ((if Ascii.eqb c x then 1 else 0) + occurrences x rest)%nat
  end.

End Schema.

(** * Properties *)

(** ** ObjectSanitizer *)

Module SanitizerFacts.
Import Sanitizer.
Local Open Scope list_scope.

(** Whatever [cleanObject] returns is not an empty value. *)
Lemma cleanObject_not_empty v c :
  cleanObject v = Some c -> isEmptyValue c = false.
Proof.
  destruct v; simpl; intros H.
  - discriminate.
  - now inversion H.
  - now inversion H.
  - destruct (is_placeholder s) eqn:E; inversion H; subst; exact E.
  - now inversion H.
  - destruct (keep_entries _) eqn:E; inversion H; subst; reflexivity.
Qed.

(** The filter of the array branch keeps exactly the members that did not
    clean to [undefined]. *)
Lemma keep_items_clean items :
  keep_items (map cleanObject items)
  = flat_map (fun x => match cleanObject x with Some c => [c] | None => [] end)
             items.
Proof.
  induction items as [|x t IH]; simpl; auto.
  destruct (cleanObject x) as [c|] eqn:E; simpl; auto.
  rewrite (cleanObject_not_empty _ _ E). now rewrite IH.
Qed.

(** The loop of the object branch keeps exactly the members that did not
    clean to [undefined] and are not named [__proto__]. *)
Lemma keep_entries_clean entries :
  keep_entries (map (fun kv => (fst kv, cleanObject (snd kv))) entries)
  = flat_map (fun kv => match cleanObject (snd kv) with
                        | Some c =>
                            if String.eqb (fst kv) "__proto__" then []
                            else [(fst kv, c)]
                        | None => []
                        end) entries.
Proof.
  induction entries as [|[k x] t IH]; simpl; auto.
  destruct (cleanObject x) as [c|] eqn:E; simpl; auto.
  rewrite (cleanObject_not_empty _ _ E).
  destruct (String.eqb k "__proto__"); simpl; now rewrite IH.
Qed.

Lemma keep_entries_nil entries :
  keep_entries (map (fun kv => (fst kv, cleanObject (snd kv))) entries) = []
  <-> Forall (fun kv => fst kv = "__proto__"%string
                        \/ cleanObject (snd kv) = None) entries.
Proof.
  rewrite keep_entries_clean.
  induction entries as [|[k x] t IH]; simpl.
  - split; auto.
  - destruct (cleanObject x) as [c|] eqn:E; simpl.
    + destruct (String.eqb_spec k "__proto__") as [->|N]; simpl.
      * rewrite IH. split; intros H.
        -- constructor; auto.
        -- now inversion H.
      * split; [discriminate|]. intros H. inversion H as [|? ? [K|K] ?]; subst;
          simpl in K; congruence.
    + rewrite IH. split; intros H.
      * constructor; auto.
      * now inversion H.
Qed.

Lemma proto_free_keys entries :
  proto_free (JObj entries) = true ->
  Forall (fun kv => fst kv <> "__proto__"%string) entries.
Proof.
  simpl. intros H. rewrite forallb_forall in H. apply Forall_forall.
  intros kv I. specialize (H kv I). apply andb_prop in H. destruct H as [K _].
  intros E. rewrite E in K. discriminate K.
Qed.

Lemma cleanObject_obj entries :
  cleanObject (JObj entries)
  = let cleaned :=
      keep_entries (map (fun kv => (fst kv, cleanObject (snd kv))) entries) in
    match cleaned with
    | [] => None
    | _ => Some (JObj cleaned)
    end.
Proof. reflexivity. Qed.

(** A value that [cleanObject] produced is left as it is by a second pass. *)
Lemma cleanObject_fixed v :
  forall c, cleanObject v = Some c -> cleanObject c = Some c.
Proof.
  induction v as [| b | n | s | items IH | entries IH] using value_nested_ind; intros c H.
  - discriminate.
  - simpl in H. inversion H; subst. reflexivity.
  - simpl in H. inversion H; subst. reflexivity.
  - simpl in H. destruct (is_placeholder s) eqn:E; inversion H; subst.
    simpl. now rewrite E.
  - simpl in H. inversion H; subst; clear H. simpl. do 2 f_equal.
    rewrite !keep_items_clean.
    induction IH as [|x t Hx _ IHt]; simpl; auto.
    destruct (cleanObject x) as [cx|] eqn:E; simpl; auto.
    rewrite (Hx _ eq_refl). simpl. now rewrite IHt.
  - assert (Hfix :
      forall cleaned,
        cleaned = keep_entries (map (fun kv => (fst kv, cleanObject (snd kv))) entries) ->
        keep_entries (map (fun kv => (fst kv, cleanObject (snd kv))) cleaned) = cleaned).
    { intros cleaned ->. clear H. rewrite !keep_entries_clean.
      induction IH as [|[k x] t Hx _ IHt]; simpl; auto.
      simpl in Hx. destruct (cleanObject x) as [cx|] eqn:E; simpl; auto.
      destruct (String.eqb k "__proto__") eqn:K; simpl; auto.
      rewrite (Hx _ eq_refl), K. simpl. now rewrite IHt. }
    simpl in H.
    destruct (keep_entries (map (fun kv => (fst kv, cleanObject (snd kv))) entries))
      as [|kv rest] eqn:E; [discriminate|].
    inversion H; subst; clear H.
    specialize (Hfix _ eq_refl).
    rewrite cleanObject_obj. cbv zeta.
    now rewrite Hfix.
Qed.

(** C2, as stated, fails on a sequence: every member of [[null]] sanitizes
    to absent, yet [cleanObject] returns the empty array, not [undefined]. *)
Lemma sanitize_absent_array_counterexample :
  ~ (cleanObject_u (Some (JArr [JNull])) = None
     <-> absent_as_claimed (Some (JArr [JNull]))).
Proof.
  intros [_ H].
  assert (A : absent_as_claimed (Some (JArr [JNull]))).
  { right. right. left. exists [JNull]. split; [reflexivity|].
    constructor; [reflexivity | constructor]. }
  specialize (H A). discriminate H.
Qed.

(** C2 (amended): [cleanObject] is a total function; for an input in
    which no object has a member named [__proto__] it yields absence
    exactly for [undefined], [null], a placeholder string, or an object
    whose every member sanitizes to absent; an array is never absent and
    sanitizes to the array of its members that are not absent. *)
Theorem sanitize_absent_iff :
  (forall x, proto_free_u x = true ->
             (cleanObject_u x = None <-> absent_in_code x))
  /\ (forall items,
        cleanObject (JArr items)
        = Some (JArr (flat_map (fun m => match cleanObject m with
                                         | Some c => [c]
                                         | None => []
                                         end) items))).
Proof.
  split.
  - intros [v|] PF; simpl; [|tauto]. simpl in PF.
    destruct v as [| b | n | s | items | entries].
    + simpl. split; auto.
    + simpl. split; [discriminate|].
      intros [H|[(s & H & _)|(e & H & _)]]; discriminate.
    + simpl. split; [discriminate|].
      intros [H|[(s & H & _)|(e & H & _)]]; discriminate.
    + simpl. destruct (is_placeholder s) eqn:E.
      * split; auto. intros _. right. left. now exists s.
      * split; [discriminate|].
        intros [H|[(s' & H & P)|(e & H & _)]]; try discriminate.
        inversion H; subst. congruence.
    + simpl. split; [discriminate|].
      intros [H|[(s & H & _)|(e & H & _)]]; discriminate.
    + apply proto_free_keys in PF. rewrite cleanObject_obj. cbv zeta.
      destruct (keep_entries _) as [|kv rest] eqn:E.
      * split; auto. intros _. right. right. exists entries. split; auto.
        apply keep_entries_nil in E.
        rewrite Forall_forall in *. intros kv I.
        destruct (E kv I) as [K|K]; [now contradiction (PF kv I) | exact K].
      * split; [discriminate|].
        intros [H|[(s & H & _)|(e & H & A)]]; try discriminate.
        inversion H; subst.
        assert (N : keep_entries
                      (map (fun kv => (fst kv, cleanObject (snd kv))) e) = []).
        { apply keep_entries_nil. rewrite Forall_forall in *.
          intros kv' I. right. now apply A. }
        congruence.
  - intros items. simpl. now rewrite keep_items_clean.
Qed.

(** The theorem for an object whose only member is a placeholder, and for
    one that keeps a member. *)
Lemma sanitize_absent_iff_witness :
  cleanObject_u (Some (JObj [("phone", JStr " N/A ")])) = None
  /\ cleanObject_u (Some (JObj [("phone", JStr "555")])) <> None.
Proof.
  destruct sanitize_absent_iff as [Iff _]. split.
  - apply (Iff (Some (JObj [("phone", JStr " N/A ")]))); [reflexivity|].
    right. right. exists [("phone", JStr " N/A ")]. split; [reflexivity|].
    constructor; [reflexivity | constructor].
  - intros H.
    apply (Iff (Some (JObj [("phone", JStr "555")]))) in H; [|reflexivity].
    destruct H as [H|[(s & H & _)|(e & H & A)]]; try discriminate H.
    inversion H; subst. inversion A as [|? ? B _]; subst. discriminate B.
Defined.

(** C3: sanitization is idempotent, [sanitize(sanitize(x)) = sanitize(x)],
    where [x] ranges over every JSON value and [undefined]. *)
Theorem sanitize_idempotent :
  forall x, cleanObject_u (cleanObject_u x) = cleanObject_u x.
Proof.
  intros [v|]; simpl; [|reflexivity].
  destruct (cleanObject v) as [c|] eqn:E; simpl; [|reflexivity].
  now apply cleanObject_fixed with (v := v).
Qed.

End SanitizerFacts.

(** ** RequestCanonicalizer *)

Module CanonicalizerFacts.
Import Sanitizer Canonicalizer.
Local Open Scope list_scope.

Lemma obj_get_set_same k v o : obj_get k (obj_set k v o) = Some v.
Proof.
  induction o as [|[k' v'] rest IH]; simpl.
  - now rewrite String.eqb_refl.
  - destruct (String.eqb k k') eqn:E; simpl; rewrite E; auto.
Qed.

Lemma obj_get_set_other k k' v o :
  k <> k' -> obj_get k (obj_set k' v o) = obj_get k o.
Proof.
  intros N. induction o as [|[k2 v2] rest IH]; simpl.
  - destruct (String.eqb_spec k k'); congruence.
  - destruct (String.eqb_spec k' k2); simpl.
    + subst. destruct (String.eqb_spec k k2); congruence.
    + now rewrite IH.
Qed.

Lemma obj_get_not_in k o : ~ In k (keys o) -> obj_get k o = None.
Proof.
  induction o as [|[k' v'] rest IH]; simpl; auto.
  intros N. destruct (String.eqb_spec k k').
  - subst. tauto.
  - apply IH. tauto.
Qed.

(** A present key splits a well-formed object around its single entry. *)
Lemma obj_get_split k v o :
  wf_obj o -> obj_get k o = Some v ->
  exists before after,
    o = before ++ (k, v) :: after
    /\ ~ In k (keys before) /\ ~ In k (keys after).
Proof.
  unfold wf_obj. induction o as [|[k' v'] rest IH]; simpl; [discriminate|].
  intros W H. inversion W as [|? ? Hnot Hrest]; subst.
  destruct (String.eqb_spec k k').
  - inversion H; subst. exists [], rest. simpl. tauto.
  - destruct (IH Hrest H) as (b & a & -> & Hb & Ha).
    exists ((k', v') :: b), a. simpl. repeat split; auto.
    intros [E|E]; [congruence | tauto].
Qed.

(** Normalizing a non-empty value never makes it empty. *)
Lemma normalizeField_not_empty k v :
  isEmptyValue v = false -> isEmptyValue (normalizeField k v) = false.
Proof.
  intros H. unfold normalizeField.
  destruct (is_object v); auto.
  destruct v; auto.
  repeat match goal with
         | |- context [if ?b then _ else _] => destruct b
         end; auto.
Qed.

Section Loop.

Variable JSON_parse : string -> option value.
Variable hasAccountGroup : bool.

Local Abbreviation step := (build_step JSON_parse hasAccountGroup).

Lemma set_request_other k key x st :
  k <> key ->
  obj_get k (request (set_request key x st)) = obj_get k (request st).
Proof.
  intros N. unfold set_request. destruct x as [y|]; auto.
  destruct (isEmptyValue y); auto. simpl. now apply obj_get_set_other.
Qed.

Lemma set_account_other k key x st :
  k <> key ->
  obj_get k (accountFields (set_account key x st)) = obj_get k (accountFields st).
Proof.
  intros N. unfold set_account.
  destruct (isEmptyValue x); auto. simpl. now apply obj_get_set_other.
Qed.

Lemma set_request_account key x st :
  accountFields (set_request key x st) = accountFields st.
Proof.
  unfold set_request. destruct x as [y|]; auto. now destruct (isEmptyValue y).
Qed.

Lemma set_account_request key x st :
  request (set_account key x st) = request st.
Proof. unfold set_account. now destruct (isEmptyValue x). Qed.

Ltac split_ifs :=
  repeat match goal with
         | |- context [if ?b then _ else _] => destruct b eqn:?
         end.

(** An iteration touches no key but its own, in either object. *)
Lemma step_other k key v st :
  k <> key ->
  obj_get k (request (step st (key, v))) = obj_get k (request st)
  /\ obj_get k (accountFields (step st (key, v))) = obj_get k (accountFields st).
Proof.
  intros N. unfold build_step. split_ifs;
    rewrite ?set_request_account, ?set_account_request;
    rewrite ?set_request_other, ?set_account_other by assumption; auto.
Qed.

Lemma loop_other k entries : forall st,
  ~ In k (keys entries) ->
  obj_get k (request (fold_left step entries st)) = obj_get k (request st)
  /\ obj_get k (accountFields (fold_left step entries st))
     = obj_get k (accountFields st).
Proof.
  induction entries as [|[key v] rest IH]; intros st N; cbn [fold_left]; auto.
  cbn [keys map fst In] in N.
  destruct (IH (step st (key, v))) as [R A]; [unfold keys; tauto|].
  destruct (step_other k key v st) as [R' A']; [intuition congruence|].
  rewrite R, A. auto.
Qed.

(** Only the four identity fields are ever put in [accountFields]. *)
Lemma step_account_only_dataFields k kv st :
  Str.mem k dataFields = false ->
  obj_get k (accountFields (step st kv)) = obj_get k (accountFields st).
Proof.
  intros M. destruct kv as [key v].
  destruct (String.eqb_spec k key) as [->|N]; [|now apply step_other].
  unfold build_step. rewrite M. simpl andb. split_ifs;
    rewrite ?set_request_account; auto.
Qed.

Lemma loop_account_only_dataFields k entries : forall st,
  Str.mem k dataFields = false ->
  obj_get k (accountFields (fold_left step entries st))
  = obj_get k (accountFields st).
Proof.
  induction entries as [|kv rest IH]; intros st M; cbn [fold_left]; auto.
  rewrite IH by assumption. now apply step_account_only_dataFields.
Qed.

(** The value at [k] after the loop is the one the iteration on [k]'s own
    entry leaves there. *)
Lemma loop_own k v before after st :
  ~ In k (keys before) -> ~ In k (keys after) ->
  let st1 := fold_left step before st in
  obj_get k (request (fold_left step (before ++ (k, v) :: after) st))
  = obj_get k (request (step st1 (k, v)))
  /\ obj_get k (accountFields (fold_left step (before ++ (k, v) :: after) st))
     = obj_get k (accountFields (step st1 (k, v)))
  /\ obj_get k (request st1) = obj_get k (request st)
  /\ obj_get k (accountFields st1) = obj_get k (accountFields st).
Proof.
  intros Nb Na st1. rewrite fold_left_app. cbn [fold_left]. fold st1.
  destruct (loop_other k after (step st1 (k, v)) Na) as [R A].
  destruct (loop_other k before st Nb) as [R' A'].
  auto.
Qed.

(** What an iteration does with one of the four identity fields. *)
Lemma step_dataField k v st :
  In k dataFields ->
  step st (k, v)
  = if isEmptyValue v then st
    else if negb hasAccountGroup then set_account k (normalizeField k v) st
    else set_request k (Some (normalizeField k v)) st.
Proof.
  intros I. simpl in I.
  destruct I as [<-|[<-|[<-|[<-|[]]]]]; unfold build_step; simpl;
    destruct (isEmptyValue v); auto; destruct hasAccountGroup; auto.
Qed.

(** What an iteration does with an explicit [account] group. *)
Lemma step_account a st :
  step st ("account", a)
  = if isEmptyValue a then st
    else set_request "account" (cleanObject (normalizeGroupFields a)) st.
Proof. unfold build_step. simpl. reflexivity. Qed.

(** With an explicit group nothing is collected for a synthesized one. *)
Lemma loop_collects_nothing entries : forall st,
  hasAccountGroup = true ->
  accountFields (fold_left step entries st) = accountFields st.
Proof.
  induction entries as [|[key v] rest IH]; intros st H; cbn [fold_left]; auto.
  rewrite IH by assumption.
  unfold build_step. rewrite H. rewrite andb_false_r. split_ifs;
    rewrite ?set_request_account; auto.
Qed.

End Loop.

(** The flags copied at the end leave every other key alone. *)
Lemma copy_flag_other k flag data req :
  k <> flag -> obj_get k (copy_flag flag data req) = obj_get k req.
Proof.
  intros N. unfold copy_flag. destruct (obj_get flag data); auto.
  now apply obj_get_set_other.
Qed.

Lemma dataFields_names k :
  In k dataFields ->
  k <> "account" /\ k <> "action" /\ k <> "echo_query"
  /\ k <> "connectivity" /\ k <> "signals".
Proof.
  simpl. intros [<-|[<-|[<-|[<-|[]]]]]; repeat split; discriminate.
Qed.

Lemma obj_get_none_not_in k o : obj_get k o = None -> ~ In k (keys o).
Proof.
  induction o as [|[k' v'] rest IH]; simpl; auto.
  destruct (String.eqb_spec k k'); [discriminate|].
  intros H [E|E]; [congruence | now apply IH].
Qed.

Lemma mem_dataFields k : Str.mem k dataFields = true <-> In k dataFields.
Proof.
  unfold Str.mem. rewrite existsb_exists. split.
  - intros (x & I & E). apply String.eqb_eq in E. now subst.
  - intros I. exists k. split; auto. apply String.eqb_refl.
Qed.

Section Build.

Variable JSON_parse : string -> option value.
Variable data : obj.
Hypothesis W : wf_obj data.

Variable hasAccountGroup : bool.
Hypothesis group_flag :
  hasAccountGroup
  = match obj_get "account" data with Some _ => true | None => false end.

Let st0 : build_state :=
  {| request := [("action", action_or_default (obj_get "action" data))];
     accountFields := [] |}.

Let stF : build_state := fold_left (build_step JSON_parse hasAccountGroup) data st0.

(** The request and the collected fields after the loop, at an identity
    field [k]. *)
Lemma loop_at_dataField k :
  In k dataFields ->
  obj_get k (request stF)
  = (if hasAccountGroup then contribution k data else None)
  /\ obj_get k (accountFields stF)
     = (if hasAccountGroup then None else contribution k data).
Proof.
  intros I. destruct (dataFields_names k I) as (_ & Nact & _).
  assert (R0 : obj_get k (request st0) = None).
  { simpl. destruct (String.eqb_spec k "action"); congruence. }
  unfold contribution. destruct (obj_get k data) as [v|] eqn:G.
  - destruct (obj_get_split k v data W G) as (b & a & E & Nb & Na).
    destruct (loop_own JSON_parse hasAccountGroup k v b a st0 Nb Na)
      as (R & A & R1 & A1).
    unfold stF. rewrite E, R, A. rewrite step_dataField by assumption.
    destruct (isEmptyValue v) eqn:Ev.
    + rewrite R1, A1, R0. simpl. case hasAccountGroup; auto.
    + pose proof (normalizeField_not_empty k v Ev) as En.
      revert R1 A1. case hasAccountGroup; intros R1 A1; simpl negb; cbv iota.
      * rewrite set_request_account, A1. unfold set_request. rewrite En.
        simpl. now rewrite obj_get_set_same.
      * rewrite set_account_request, R1, R0. unfold set_account. rewrite En.
        simpl. now rewrite obj_get_set_same.
  - apply obj_get_none_not_in in G.
    destruct (loop_other JSON_parse hasAccountGroup k data st0 G) as [R A].
    unfold stF. rewrite R, A, R0. simpl. case hasAccountGroup; auto.
Qed.

(** Stripping the three flag assignments and the synthesized group. *)
Lemma buildRequest_get k :
  k <> "echo_query" -> k <> "connectivity" -> k <> "signals" ->
  obj_get k (buildRequest JSON_parse data)
  = match accountFields stF with
    | [] => obj_get k (request stF)
    | fields =>
        if negb hasAccountGroup
        then obj_get k (obj_set "account" (JObj fields) (request stF))
        else obj_get k (request stF)
    end.
Proof.
  intros N1 N2 N3. unfold buildRequest.
  rewrite !copy_flag_other by assumption.
  rewrite <- group_flag. fold st0. fold stF.
  destruct (accountFields stF); auto. now destruct (negb hasAccountGroup).
Qed.

Lemma root_without_account k :
  obj_get "account" data = None -> In k dataFields ->
  obj_get k (buildRequest JSON_parse data) = None.
Proof.
  intros G I. destruct (dataFields_names k I) as (Na & _ & N1 & N2 & N3).
  rewrite buildRequest_get by assumption.
  destruct (loop_at_dataField k I) as [R _].
  assert (H : hasAccountGroup = false) by (rewrite group_flag; now rewrite G).
  rewrite H in *.
  destruct (accountFields stF); auto. simpl negb. cbv iota.
  now rewrite obj_get_set_other.
Qed.

Lemma synthesized_account k :
  obj_get "account" data = None ->
  member (obj_get "account" (buildRequest JSON_parse data)) k
  = obj_get k (accountFields stF).
Proof.
  intros G.
  assert (H : hasAccountGroup = false) by (rewrite group_flag; now rewrite G).
  rewrite buildRequest_get by discriminate. rewrite H.
  destruct (accountFields stF) as [|f fs] eqn:E.
  - apply obj_get_none_not_in in G.
    destruct (loop_other JSON_parse hasAccountGroup "account" data st0 G) as [R _].
    unfold stF. rewrite R. reflexivity.
  - simpl negb. cbv iota. now rewrite obj_get_set_same.
Qed.

Lemma root_with_account a k :
  obj_get "account" data = Some a -> In k dataFields ->
  obj_get k (buildRequest JSON_parse data) = contribution k data.
Proof.
  intros G I. destruct (dataFields_names k I) as (Na & _ & N1 & N2 & N3).
  assert (H : hasAccountGroup = true) by (rewrite group_flag; now rewrite G).
  rewrite buildRequest_get by assumption.
  destruct (loop_at_dataField k I) as [R _]. rewrite H in *.
  now destruct (accountFields stF).
Qed.

Lemma explicit_account a :
  obj_get "account" data = Some a ->
  obj_get "account" (buildRequest JSON_parse data)
  = if isEmptyValue a then None else cleanObject (normalizeGroupFields a).
Proof.
  intros G.
  assert (H : hasAccountGroup = true) by (rewrite group_flag; now rewrite G).
  rewrite buildRequest_get by discriminate. rewrite H.
  transitivity (obj_get "account" (request stF));
    [now destruct (accountFields stF)|].
  destruct (obj_get_split "account" a data W G) as (b & af & E & Nb & Naf).
  destruct (loop_own JSON_parse hasAccountGroup "account" a b af st0 Nb Naf)
    as (R & _ & R1 & _).
  unfold stF. rewrite E, R, step_account.
  destruct (isEmptyValue a); [rewrite R1; reflexivity|].
  unfold set_request.
  destruct (cleanObject (normalizeGroupFields a)) as [c|] eqn:C.
  - rewrite (SanitizerFacts.cleanObject_not_empty _ _ C). simpl.
    now rewrite obj_get_set_same.
  - rewrite R1. reflexivity.
Qed.

End Build.

(** C1: root-level identity fields (name, email, phone, address) are folded
    into a synthesized [account] group exactly when the input has no
    [account] key.  Without the key, no identity field stays at the root and
    the [account] group of the result holds the normalized form of each
    non-empty one and nothing else.  With the key (even [account: {}]),
    each non-empty identity field stays at the root in normalized form and
    the [account] of the result is computed from the supplied group alone.
    The two examples of the specification are instances. *)
Theorem identity_fields_folded_iff_no_account
  (JSON_parse : string -> option value) (data : obj) :
  wf_obj data ->
  let r := buildRequest JSON_parse data in
  match obj_get "account" data with
  | None =>
      (forall k, In k dataFields ->
         obj_get k r = None
         /\ member (obj_get "account" r) k = contribution k data)
      /\ (forall k, ~ In k dataFields -> member (obj_get "account" r) k = None)
  | Some a =>
      (forall k, In k dataFields -> obj_get k r = contribution k data)
      /\ obj_get "account" r
         = (if isEmptyValue a then None
            else cleanObject (normalizeGroupFields a))
  end
  /\ buildRequest JSON_parse [("name", JStr "Jo Doe")]
     = [("action", JObj [("type", JStr "purchase")]);
        ("account", JObj [("name", JObj [("raw", JStr "Jo Doe")])])]
  /\ buildRequest JSON_parse [("account", JObj []); ("name", JStr "Jo Doe")]
     = [("action", JObj [("type", JStr "purchase")]);
        ("name", JObj [("raw", JStr "Jo Doe")])].
Proof.
  intros W r. split; [|split; reflexivity].
  destruct (obj_get "account" data) as [a|] eqn:G.
  - assert (Hh : true = match obj_get "account" data with
                        | Some _ => true | None => false end) by now rewrite G.
    split.
    + intros k I. apply (root_with_account JSON_parse data W true Hh a k G I).
    + apply (explicit_account JSON_parse data W true Hh a G).
  - assert (Hh : false = match obj_get "account" data with
                         | Some _ => true | None => false end) by now rewrite G.
    split.
    + intros k I. split.
      * apply (root_without_account JSON_parse data W false Hh k G I).
      * unfold r. rewrite (synthesized_account JSON_parse data false Hh k G).
        destruct (loop_at_dataField JSON_parse data W false k I) as [_ A].
        exact A.
    + intros k N. unfold r.
      rewrite (synthesized_account JSON_parse data false Hh k G).
      rewrite loop_account_only_dataFields; [reflexivity|].
      destruct (Str.mem k dataFields) eqn:M; auto.
      apply mem_dataFields in M. tauto.
Qed.

(** The theorem at the two inputs of the specification. *)
Lemma identity_fields_folded_witness :
  wf_obj [("name", JStr "Jo Doe")]
  /\ member (obj_get "account"
               (buildRequest (fun _ => None) [("name", JStr "Jo Doe")])) "name"
     = Some (JObj [("raw", JStr "Jo Doe")])
  /\ wf_obj [("account", JObj []); ("name", JStr "Jo Doe")]
  /\ obj_get "name"
       (buildRequest (fun _ => None) [("account", JObj []); ("name", JStr "Jo Doe")])
     = Some (JObj [("raw", JStr "Jo Doe")]).
Proof.
  assert (W1 : wf_obj [("name", JStr "Jo Doe")]).
  { unfold wf_obj. simpl. constructor; [simpl; tauto | constructor]. }
  assert (W2 : wf_obj [("account", JObj []); ("name", JStr "Jo Doe")]).
  { unfold wf_obj. simpl. constructor.
    - simpl. intros [E|[]]. discriminate E.
    - constructor; [simpl; tauto | constructor]. }
  split; [exact W1|]. split.
  - pose proof (identity_fields_folded_iff_no_account (fun _ => None) _ W1) as T.
    simpl in T. destruct T as [[F _] _].
    destruct (F "name") as [_ M]; [simpl; tauto|]. exact M.
  - split; [exact W2|].
    pose proof (identity_fields_folded_iff_no_account (fun _ => None) _ W2) as T.
    simpl in T. destruct T as [[F _] _].
    apply (F "name"). simpl. tauto.
Defined.

End CanonicalizerFacts.

(** ** RateLimiter *)

Module LimiterFacts.
Import Client Limiter.
Local Open Scope list_scope.

Lemma default_client_constructed :
  new_client {| cfg_apiKey := "k"; cfg_baseUrl := None; cfg_maxRetries := None;
                cfg_retryDelay := None; cfg_timeout := None;
                cfg_rateLimitQPS := None |}
  = Some default_client.
Proof. reflexivity. Qed.

(** C6 fails on the code: the call that finds the window full is not
    checked again after its sleep and pushes the time it read on entry.
    With ceiling 10 and ten calls at time 0, a call entering at 1 sleeps
    for 1009 ms, is let through at 1010 and records 1; the ten calls that
    enter at 1010 prune that timestamp and pass at once, so eleven calls are
    let through at time 1010. *)
Theorem rate_limit_ceiling_exceeded :
  rateLimitQPS default_client = 10
  /\ admit_all default_client (repeat 0 10) (new_limiter 0)
     = (repeat None 10, ten_at_zero)
  /\ applyRateLimit default_client 1 ten_at_zero
     = (Some 1009, {| requests := repeat 0 10 ++ [1]; lastReset := 0 |})
  /\ admission_times default_client burst (new_limiter 0)
     = repeat 0 10 ++ repeat 1010 11
  /\ count_occ Z.eq_dec
       (admission_times default_client burst (new_limiter 0)) 1010
     = 11%nat.
Proof.
  split; [reflexivity|].
  split; [vm_compute; reflexivity|].
  split; [vm_compute; reflexivity|].
  assert (A : admission_times default_client burst (new_limiter 0)
              = repeat 0 10 ++ repeat 1010 11) by (vm_compute; reflexivity).
  split; [exact A|]. rewrite A. vm_compute. reflexivity.
Qed.

End LimiterFacts.

(** ** ResilientTransport *)

Module TransportFacts.
Import Client Transport.
Local Open Scope list_scope.

Section Attempts.

Variable c : TrustAPIClient.
Variable net : nat -> fetch_outcome.

(** [makeRequest] is its verdict on this attempt, followed by the next
    attempt when the verdict is to retry. *)
Lemma makeRequest_from_unfold fuel attempt :
  makeRequest_from c net (S fuel) attempt
  = match verdict c attempt (net attempt) with
    | inl o => finished o
    | inr delay =>
        after_sleep delay (makeRequest_from c net fuel (S attempt))
    end.
Proof.
  unfold verdict. cbn [makeRequest_from].
  destruct (net attempt) as [status h b| |m]; auto.
  - destruct (status =? 429).
    + now destruct (may_retry c attempt).
    + destruct ((500 <=? status) && may_retry c attempt)%bool; auto.
      destruct b as [data|m].
      * destruct (response_ok status); auto.
        destruct data; auto; now destruct (may_retry c attempt).
      * now destruct (may_retry c attempt).
  - now destruct (may_retry c attempt).
Qed.

Lemma verdict_retry attempt o delay :
  verdict c attempt o = inr delay ->
  may_retry c attempt = true
  /\ o <> Aborted
  /\ (delay = backoff c attempt
      \/ exists h b, o = Response 429 (Some h) b /\ h <> EmptyString).
Proof.
  unfold verdict. destruct o as [status h b| |m].
  - destruct (status =? 429) eqn:E429.
    + apply Z.eqb_eq in E429. subst status.
      destruct (may_retry c attempt); [|discriminate].
      intros H. inversion H; subst; clear H.
      split; auto. split; [discriminate|].
      destruct h as [h|]; auto.
      destruct (String.eqb_spec h ""); auto.
      right. now exists h, b.
    + destruct (may_retry c attempt) eqn:R.
      * intros H. split; auto. split; [discriminate|]. left.
        destruct (500 <=? status); simpl in H; [congruence|].
        destruct b as [data|m]; [|congruence].
        destruct (response_ok status); [discriminate|].
        destruct data; congruence.
      * rewrite andb_false_r. destruct b as [data|m]; [|discriminate].
        destruct (response_ok status); [discriminate|].
        destruct data; discriminate.
  - discriminate.
  - destruct (may_retry c attempt); [|discriminate].
    intros H. inversion H. split; auto. split; [discriminate|auto].
Qed.

Lemma verdict_server_error attempt status h b :
  500 <= status -> may_retry c attempt = true ->
  verdict c attempt (Response status h b) = inr (backoff c attempt).
Proof.
  intros S R. unfold verdict.
  destruct (Z.eqb_spec status 429); [lia|].
  rewrite R. destruct (Z.leb_spec 500 status); [reflexivity | lia].
Qed.

Lemma verdict_success attempt h data :
  verdict c attempt (Response 200 h (Parsed data)) = inl (inr data).
Proof. reflexivity. Qed.

(** Once retries are used up every attempt is final. *)
Lemma verdict_final attempt o :
  may_retry c attempt = false -> exists r, verdict c attempt o = inl r.
Proof.
  intros R. destruct (verdict c attempt o) as [r|d] eqn:V; [now exists r|].
  apply verdict_retry in V. destruct V as [V _]. congruence.
Qed.

(** The bound on the recursion is never reached. *)
Lemma makeRequest_from_total fuel : forall attempt,
  (1 <= fuel)%nat ->
  maxRetries c + 2 <= Z.of_nat fuel + Z.of_nat attempt ->
  exists r, makeRequest_from c net fuel attempt = Some r.
Proof.
  induction fuel as [|fuel IH]; intros attempt F B; [lia|].
  rewrite makeRequest_from_unfold.
  destruct (verdict c attempt (net attempt)) as [o|d] eqn:V.
  - eexists. reflexivity.
  - apply verdict_retry in V. destruct V as (R & _).
    unfold may_retry in R. apply Z.leb_le in R.
    destruct (IH (S attempt)) as [r Hr]; [lia | lia |].
    rewrite Hr. eexists. reflexivity.
Qed.

(** What a finished call records, from whichever attempt it started. *)
Lemma makeRequest_from_trace fuel : forall attempt r,
  makeRequest_from c net fuel attempt = Some r ->
  attempts r = S (List.length (sleeps r))
  /\ verdict c (attempt + List.length (sleeps r))
             (net (attempt + List.length (sleeps r))%nat)
     = inl (outcome r)
  /\ forall i delay,
       nth_error (sleeps r) i = Some delay ->
       verdict c (attempt + i) (net (attempt + i)%nat) = inr delay.
Proof.
  induction fuel as [|fuel IH]; intros attempt r H; [discriminate|].
  rewrite makeRequest_from_unfold in H.
  destruct (verdict c attempt (net attempt)) as [o|d] eqn:V.
  - inversion H; subst; clear H. simpl. rewrite Nat.add_0_r.
    split; auto. split; auto. intros [|i] delay E; discriminate.
  - destruct (makeRequest_from c net fuel (S attempt)) as [r'|] eqn:N;
      [|discriminate].
    inversion H; subst; clear H. simpl.
    destruct (IH _ _ N) as (A & O & S).
    split; [now rewrite A|]. split.
    + now rewrite Nat.add_succ_r.
    + intros [|i] delay E; simpl in E.
      * inversion E; subst. now rewrite Nat.add_0_r.
      * rewrite Nat.add_succ_r. now apply S.
Qed.

End Attempts.

(** Every call finishes, after at least one attempt. *)
Lemma makeRequest_total c net :
  exists r, makeRequest c net = Some r /\ (1 <= attempts r)%nat.
Proof.
  destruct (makeRequest_from_total c net (S (Z.to_nat (maxRetries c))) 1)
    as [r H]; [lia | lia |].
  exists r. split; auto.
  destruct (makeRequest_from_trace c net _ _ _ H) as (A & _). lia.
Qed.

Lemma may_retry_at c n :
  may_retry c n = (Z.of_nat n <=? maxRetries c).
Proof. reflexivity. Qed.

(** C7, as stated, fails twice.  A 200 whose body is not JSON makes
    [response.json()] throw inside the [try], so it is retried like a
    network fault: after two 503 answers the call makes four attempts and
    fails.  And a 429 that carries a Retry-After header sleeps for what the
    header says, not for [retryDelay] times the attempt number. *)
Lemma retry_scenario_counterexample :
  ~ scenario_as_claimed default_client two_503_then_html
  /\ ~ linear_as_claimed default_client retry_after_then_200.
Proof.
  split.
  - intros H.
    destruct (H eq_refl) as (r & data & M & O & _).
    + exists 503, None, (Parsed JNull). split; [reflexivity | lia].
    + exists 503, None, (Parsed JNull). split; [reflexivity | lia].
    + eexists _, _. reflexivity.
    + vm_compute in M. inversion M; subst; clear M. discriminate O.
  - intros H.
    assert (M : makeRequest default_client retry_after_then_200
                = Some {| outcome := inr (JObj [("score", JNum 700)]);
                          attempts := 2; sleeps := [Some 7000] |})
      by (vm_compute; reflexivity).
    specialize (H _ M 0%nat (Some 7000) eq_refl). discriminate H.
Qed.

(** C7 (amended): the backoff is linear in the attempt number: the sleep
    after attempt [i] is [retryDelay * i] (only a 429 that carries a
    Retry-After header sleeps otherwise); a call always finishes, after at
    most [maxRetries + 1] attempts; a client constructed without
    [maxRetries] allows 3 retries, and with 3 retries a call whose every
    attempt meets a 5xx status makes exactly 4 attempts; with 3 retries, a
    5xx status on attempts 1 and 2 and a 200 with a JSON body on attempt 3,
    the call returns that body after 3 attempts, having slept
    [retryDelay * 1] and [retryDelay * 2]. *)
Theorem retry_backoff_linear (c : TrustAPIClient) (net : nat -> fetch_outcome) :
  (exists r, makeRequest c net = Some r)
  /\ (forall r, makeRequest c net = Some r ->
        attempts r = S (List.length (sleeps r))
        /\ (0 <= maxRetries c -> Z.of_nat (attempts r) <= maxRetries c + 1)
        /\ forall i delay,
             nth_error (sleeps r) i = Some delay ->
             delay = Some (retryDelay c * Z.of_nat (S i))
             \/ exists h b, net (S i) = Response 429 (Some h) b
                            /\ h <> EmptyString)
  /\ (forall cfg, cfg_apiKey cfg <> EmptyString -> cfg_maxRetries cfg = None ->
        exists c', new_client cfg = Some c' /\ maxRetries c' = 3)
  /\ (maxRetries c = 3 -> (forall n, server_error (net n)) ->
      exists r, makeRequest c net = Some r
                /\ attempts r = 4%nat
                /\ sleeps r = [Some (retryDelay c * 1); Some (retryDelay c * 2);
                               Some (retryDelay c * 3)])
  /\ (maxRetries c = 3 ->
      forall s1 h1 b1 s2 h2 b2 h3 data,
        net 1%nat = Response s1 h1 b1 -> 500 <= s1 ->
        net 2%nat = Response s2 h2 b2 -> 500 <= s2 ->
        net 3%nat = Response 200 h3 (Parsed data) ->
        exists r, makeRequest c net = Some r
                  /\ outcome r = inr data
                  /\ attempts r = 3%nat
                  /\ sleeps r = [Some (retryDelay c * 1); Some (retryDelay c * 2)]
                  /\ retryDelay c * 1 + retryDelay c * 2 <= total_sleep (sleeps r)).
Proof.
  split; [|split; [|split; [|split]]].
  - destruct (makeRequest_total c net) as (r & H & _). now exists r.
  - intros r H. unfold makeRequest in H.
    destruct (makeRequest_from_trace c net _ _ _ H) as (A & _ & S).
    split; auto. split.
    + intros M. rewrite A.
      destruct (List.length (sleeps r)) as [|n] eqn:L; [lia|].
      destruct (nth_error (sleeps r) n) as [d|] eqn:E.
      * apply S in E. apply verdict_retry in E. destruct E as (R & _).
        unfold may_retry in R. apply Z.leb_le in R. lia.
      * apply nth_error_None in E. lia.
    + intros i delay E. specialize (S i delay E).
      apply verdict_retry in S. destruct S as (_ & _ & [D|D]).
      * left. subst. reflexivity.
      * right. exact D.
  - intros cfg K N. unfold new_client.
    destruct (String.eqb_spec (cfg_apiKey cfg) ""); [contradiction|].
    eexists. split; [reflexivity|]. simpl. now rewrite N.
  - intros M F. unfold makeRequest. rewrite M. simpl Z.to_nat.
    assert (V : forall n, (n <= 3)%nat ->
                verdict c n (net n) = inr (backoff c n)).
    { intros n L. destruct (F n) as (st & h & b & E & S). rewrite E.
      apply verdict_server_error; auto.
      rewrite may_retry_at, M. apply Z.leb_le. lia. }
    destruct (verdict_final c 4 (net 4%nat)) as [o O].
    { rewrite may_retry_at, M. reflexivity. }
    change (Pos.to_nat 3) with 3%nat.
    rewrite !makeRequest_from_unfold.
    rewrite (V 1%nat), (V 2%nat), (V 3%nat), O by lia.
    eexists. split; [reflexivity|]. split; reflexivity.
  - intros M s1 h1 b1 s2 h2 b2 h3 data E1 S1 E2 S2 E3.
    unfold makeRequest. rewrite M. simpl Z.to_nat.
    change (Pos.to_nat 3) with 3%nat.
    rewrite !makeRequest_from_unfold.
    rewrite E1, E2, E3.
    rewrite !verdict_server_error
      by (auto; rewrite may_retry_at, M; reflexivity).
    rewrite verdict_success.
    eexists. split; [reflexivity|]. simpl. repeat split; auto. lia.
Qed.

(** The retry scenario for the default client, and the four attempts it
    makes against a server that always answers 503. *)
Lemma retry_backoff_linear_witness :
  (exists c', new_client {| cfg_apiKey := "k"; cfg_baseUrl := None;
                            cfg_maxRetries := None; cfg_retryDelay := None;
                            cfg_timeout := None; cfg_rateLimitQPS := None |}
              = Some c' /\ maxRetries c' = 3)
  /\ (exists r,
        makeRequest default_client two_503_then_200 = Some r
        /\ outcome r = inr (JObj [("score", JNum 700)])
        /\ attempts r = 3%nat
        /\ sleeps r = [Some 1000; Some 2000])
  /\ (exists r,
        makeRequest default_client (fun _ => Response 503 None (Parsed JNull))
        = Some r
        /\ attempts r = 4%nat).
Proof.
  split; [|split].
  - destruct (retry_backoff_linear default_client two_503_then_200)
      as (_ & _ & Default & _).
    apply Default; [discriminate | reflexivity].
  - destruct (retry_backoff_linear default_client two_503_then_200)
      as (_ & _ & _ & _ & Scenario).
    destruct (Scenario eq_refl 503 None (Parsed JNull) 503 None (Parsed JNull)
                None (JObj [("score", JNum 700)]))
      as (r & H & O & A & S & _);
      try reflexivity; try lia.
    exists r. repeat split; assumption.
  - destruct (retry_backoff_linear default_client
                (fun _ => Response 503 None (Parsed JNull)))
      as (_ & _ & _ & Four & _).
    destruct (Four eq_refl) as (r & H & A & _).
    + intros n. exists 503, None, (Parsed JNull). split; [reflexivity | lia].
    + exists r. split; assumption.
Defined.

(** C8: a timed-out exchange is never retried.  When the first exchange
    times out the call fails at once with the timeout error (HTTP status
    408), after exactly one attempt and no sleep, whatever the number of
    retries allowed; in any call, an attempt that timed out is the last
    one, and the call then fails with the timeout error. *)
Theorem timeout_never_retried (c : TrustAPIClient) (net : nat -> fetch_outcome) :
  (net 1%nat = Aborted ->
   makeRequest c net
   = Some {| outcome := inl timeout_error; attempts := 1; sleeps := [] |})
  /\ (forall r, makeRequest c net = Some r ->
        (forall n, (1 <= n < attempts r)%nat -> net n <> Aborted)
        /\ (net (attempts r) = Aborted -> outcome r = inl timeout_error)).
Proof.
  split.
  - intros T. unfold makeRequest. rewrite makeRequest_from_unfold, T.
    reflexivity.
  - intros r H. unfold makeRequest in H.
    destruct (makeRequest_from_trace c net _ _ _ H) as (A & O & S).
    split.
    + intros n [L U].
      destruct (nth_error (sleeps r) (n - 1)) as [d|] eqn:E.
      * apply S in E. apply verdict_retry in E. destruct E as (_ & N & _).
        now replace (1 + (n - 1))%nat with n in N by lia.
      * apply nth_error_None in E. lia.
    + intros T. rewrite A in T. simpl in O. rewrite T in O.
      simpl in O. now inversion O.
Qed.

(** The theorem for the default client on a network that always times out. *)
Lemma timeout_never_retried_witness :
  makeRequest Client.default_client (fun _ => Aborted)
  = Some {| outcome := inl timeout_error; attempts := 1; sleeps := [] |}.
Proof.
  apply (timeout_never_retried Client.default_client (fun _ => Aborted)).
  reflexivity.
Defined.

End TransportFacts.

(** ** ScoringClient facade *)

Module FacadeFacts.
Import Sanitizer Canonicalizer Client Limiter Transport Facade.
Import CanonicalizerFacts.
Local Open Scope list_scope.

(** C9 fails on the code for 0 items: [sendFeedback] does fail locally,
    leaving the limiter untouched and making no network call, but the error
    it throws is built without a code, so it is not the
    missing-required-field error (code 2023); the sibling check two lines
    below passes its code, 1023, for 1001 items. *)
Theorem feedback_empty_error_uncoded :
  sendFeedback Client.default_client (fun _ => Aborted) 0 (new_limiter 0)
               no_feedback
  = Some (fails_locally no_items_error (new_limiter 0))
  /\ error_code no_items_error = None
  /\ ~ missing_required_field no_items_error
  /\ (exists r e,
        sendFeedback Client.default_client (fun _ => Aborted) 0 (new_limiter 0)
                     (feedback_of 1001) = Some r
        /\ result r = inl e
        /\ error_code e = Some (JNum Types.ERROR_CODES.TOO_MANY_FEEDBACKS)).
Proof.
  split; [reflexivity|]. split; [reflexivity|]. split.
  - unfold missing_required_field. discriminate.
  - eexists _, _. split; [vm_compute; reflexivity|]. split; reflexivity.
Qed.

Lemma deliver_defined c net now st body :
  exists r, deliver c net now st body = Some r
            /\ sent r = Some body
            /\ (1 <= network_attempts r)%nat
            /\ limiter r = snd (applyRateLimit c now st).
Proof.
  unfold deliver.
  destruct (applyRateLimit c now st) as [w st'] eqn:A.
  destruct (TransportFacts.makeRequest_total c net) as (tr & T & P).
  rewrite T. eexists. split; [reflexivity|]. simpl.
  split; auto.
Qed.

(** [sendFeedback] checks the number of items before the limiter and the
    network are touched: without items and with more than 1000 items it
    fails locally, with 1 to 1000 items it passes the limiter, records the
    call there and sends the payload. *)
Lemma feedback_bounds (c : TrustAPIClient)
  (net : nat -> fetch_outcome) (now : Z) (st : RateLimiterState)
  (request : FeedbackInput) :
  let count := List.length (feedback_items request) in
  (count = 0%nat ->
   exists r, sendFeedback c net now st request = Some r
             /\ result r
                = inl (TrustAPIError
                         (Some (JStr "At least one feedback item is required"))
                         None None)
             /\ limiter r = st /\ sent r = None /\ network_attempts r = 0%nat)
  /\ ((1000 < count)%nat ->
      exists r, sendFeedback c net now st request = Some r
                /\ result r
                   = inl (TrustAPIError
                            (Some (JStr "Maximum 1000 feedback items allowed per request"))
                            (Some (JNum 1023)) None)
                /\ limiter r = st /\ sent r = None /\ network_attempts r = 0%nat)
  /\ ((1 <= count <= 1000)%nat ->
      exists r, sendFeedback c net now st request = Some r
                /\ sent r = Some (feedback_payload c request)
                /\ (1 <= network_attempts r)%nat
                /\ limiter r = snd (applyRateLimit c now st)).
Proof.
  intros count. unfold sendFeedback. fold count. split; [|split].
  - intros Z0. rewrite Z0. simpl. eexists. split; [reflexivity|].
    simpl. auto.
  - intros L.
    destruct (Z.eqb_spec (Z.of_nat count) 0); [lia|].
    destruct (Z.ltb_spec 1000 (Z.of_nat count)); [|lia].
    eexists. split; [reflexivity|]. simpl. auto.
  - intros [L U].
    destruct (Z.eqb_spec (Z.of_nat count) 0); [lia|].
    destruct (Z.ltb_spec 1000 (Z.of_nat count)); [lia|].
    apply deliver_defined.
Qed.

Lemma differ_get k a b :
  differ_only_in_key a b -> k <> "key" -> obj_get k a = obj_get k b.
Proof.
  intros R N. induction R as [|[k1 v1] [k2 v2] a b [K V] _ IH]; auto.
  simpl in *. subst k2. destruct (String.eqb_spec k k1); auto.
  destruct V; congruence.
Qed.

Lemma differ_without_key a b :
  differ_only_in_key a b -> ~ In "key" (keys a) -> a = b.
Proof.
  intros R. induction R as [|[k1 v1] [k2 v2] a b [K V] _ IH]; auto.
  simpl in *. intros N. subst k2. destruct V as [V|V]; [tauto|].
  subst v2. f_equal. apply IH. tauto.
Qed.

Lemma differ_set_key v a b :
  differ_only_in_key a b -> wf_obj a ->
  obj_set "key" v a = obj_set "key" v b.
Proof.
  unfold wf_obj.
  intros R. induction R as [|[k1 v1] [k2 v2] a b [K V] R IH]; auto.
  intros W. cbn [keys map fst] in W. cbn [fst snd] in K, V.
  inversion W as [|? ? Hnot Hrest]; subst. cbn [obj_set].
  destruct (String.eqb_spec "key" k2) as [E|E].
  - subst k2. f_equal. now apply differ_without_key.
  - destruct V as [V|V]; [congruence|]. subst v2. f_equal. now apply IH.
Qed.

Lemma differ_loop JSON_parse h a b :
  differ_only_in_key a b ->
  forall st, fold_left (build_step JSON_parse h) a st
             = fold_left (build_step JSON_parse h) b st.
Proof.
  intros R. induction R as [|[k1 v1] [k2 v2] a b [K V] _ IH]; auto.
  simpl fst in *. simpl snd in *. subst k2. intros st. cbn [fold_left].
  destruct V as [V|V].
  - subst k1. change (build_step JSON_parse h st ("key", v1)) with st.
    change (build_step JSON_parse h st ("key", v2)) with st. apply IH.
  - subst v2. apply IH.
Qed.

Lemma differ_buildRequest JSON_parse a b :
  differ_only_in_key a b ->
  buildRequest JSON_parse a = buildRequest JSON_parse b.
Proof.
  intros R. unfold buildRequest, copy_flag.
  rewrite !(differ_get _ a b R) by discriminate.
  now rewrite (differ_loop JSON_parse _ a b R).
Qed.

(** The loop of [buildRequest] never writes under [key]. *)
Lemma loop_drops_key JSON_parse h data : forall st,
  obj_get "key" (request (fold_left (build_step JSON_parse h) data st))
  = obj_get "key" (request st).
Proof.
  induction data as [|[k v] rest IH]; intros st; cbn [fold_left]; auto.
  rewrite IH. destruct (String.eqb_spec "key" k) as [<-|N].
  - reflexivity.
  - now apply step_other.
Qed.

Lemma buildRequest_drops_key JSON_parse data :
  obj_get "key" (buildRequest JSON_parse data) = None.
Proof.
  unfold buildRequest. rewrite !copy_flag_other by discriminate.
  match goal with
  | |- context [fold_left ?f data ?s] =>
      pose proof (loop_drops_key JSON_parse
        (match obj_get "account" data with Some _ => true | None => false end)
        data s) as L
  end.
  simpl in L.
  destruct (accountFields _); [exact L|].
  destruct (negb _); [|exact L].
  rewrite obj_get_set_other by discriminate. exact L.
Qed.

Lemma score_payload_key c request :
  obj_get "key" (score_payload c request) = Some (JStr (apiKey c)).
Proof.
  unfold score_payload. rewrite obj_get_set_other by discriminate.
  apply obj_get_set_same.
Qed.

Lemma wf_two (k1 k2 : string) (v1 v2 : value) :
  k1 <> k2 -> wf_obj [(k1, v1); (k2, v2)].
Proof.
  intros N. unfold wf_obj. simpl. constructor.
  - simpl. intros [E|[]]. congruence.
  - constructor; [simpl; tauto | constructor].
Qed.

(** C10: the payload that [scoreTransaction] or [sendFeedback] builds
    holds the API key of the client under [key], whatever the caller
    supplied, and that payload is the one handed to the transport: always
    for a request that passes the local check, and never another one.
    [buildRequest] drops the caller's [key]; for two well-formed inputs that
    differ only in the value under [key], [buildRequest] returns the same
    request and [scoreTransaction] behaves identically (same payload, same
    result); the feedback payload does not depend on the caller's [key]
    either. *)
Theorem outbound_key_is_configured (c : TrustAPIClient)
  (net : nat -> fetch_outcome) (now : Z) (st : RateLimiterState) :
  (forall request,
     obj_get "key" (score_payload c request) = Some (JStr (apiKey c)))
  /\ (forall f,
        obj_get "key" (feedback_payload c f) = Some (JStr (apiKey c)))
  /\ (forall request,
        validateRequest (score_payload c request) = None ->
        exists r, scoreTransaction c net now st request = Some r
                  /\ sent r = Some (score_payload c request))
  /\ (forall f,
        (1 <= List.length (feedback_items f) <= 1000)%nat ->
        exists r, sendFeedback c net now st f = Some r
                  /\ sent r = Some (feedback_payload c f))
  /\ (forall request r body,
        scoreTransaction c net now st request = Some r -> sent r = Some body ->
        body = score_payload c request
        /\ obj_get "key" body = Some (JStr (apiKey c)))
  /\ (forall request r body,
        sendFeedback c net now st request = Some r -> sent r = Some body ->
        body = feedback_payload c request
        /\ obj_get "key" body = Some (JStr (apiKey c)))
  /\ (forall JSON_parse data,
        obj_get "key" (buildRequest JSON_parse data) = None)
  /\ (forall JSON_parse a b,
        differ_only_in_key a b ->
        buildRequest JSON_parse a = buildRequest JSON_parse b)
  /\ (forall a b,
        wf_obj a -> differ_only_in_key a b ->
        score_payload c a = score_payload c b
        /\ scoreTransaction c net now st a = scoreTransaction c net now st b)
  /\ (forall f k,
        feedback_payload c f
        = feedback_payload c {| in_key := k; in_action := in_action f;
                                in_feedbacks := in_feedbacks f |}
        /\ sendFeedback c net now st f
           = sendFeedback c net now st
               {| in_key := k; in_action := in_action f;
                  in_feedbacks := in_feedbacks f |}).
Proof.
  split; [apply score_payload_key|].
  split; [reflexivity|].
  split.
  { intros request V. unfold scoreTransaction. rewrite V.
    destruct (deliver_defined c net now st (score_payload c request))
      as (r & D & S & _).
    exists r. split; assumption. }
  split.
  { intros f B. destruct (feedback_bounds c net now st f) as (_ & _ & Ok).
    destruct (Ok B) as (r & H & S & _). exists r. split; assumption. }
  split.
  { intros request r body H S. unfold scoreTransaction in H.
    destruct (validateRequest (score_payload c request)).
    - inversion H; subst. discriminate S.
    - destruct (deliver_defined c net now st (score_payload c request))
        as (r' & D & S' & _).
      rewrite D in H. inversion H; subst. rewrite S' in S.
      inversion S; subst. split; [reflexivity | apply score_payload_key]. }
  split.
  { intros request r body H S. unfold sendFeedback in H.
    destruct (_ =? 0); [inversion H; subst; discriminate S|].
    destruct (1000 <? _); [inversion H; subst; discriminate S|].
    destruct (deliver_defined c net now st (feedback_payload c request))
      as (r' & D & S' & _).
    rewrite D in H. inversion H; subst. rewrite S' in S.
    inversion S; subst. split; reflexivity. }
  split; [apply buildRequest_drops_key|].
  split; [apply differ_buildRequest|].
  split.
  - intros a b W R.
    assert (P : score_payload c a = score_payload c b).
    { unfold score_payload.
      rewrite (differ_get "action" a b R) by discriminate.
      now rewrite (differ_set_key (JStr (apiKey c)) a b R W). }
    split; auto. unfold scoreTransaction. now rewrite P.
  - intros f k. split; reflexivity.
Qed.

(** The theorem at two inputs that differ in the caller's [key]: both
    are sent with the client's key, in the same payload. *)
Lemma outbound_key_is_configured_witness :
  (exists r body,
     scoreTransaction Client.default_client (fun _ => Aborted) 0 (new_limiter 0)
       [("key", JStr "mine"); ("email", JObj [("address", JStr "a@b.com")])]
     = Some r
     /\ sent r = Some body
     /\ obj_get "key" body = Some (JStr (apiKey Client.default_client)))
  /\ score_payload Client.default_client
       [("key", JStr "mine"); ("email", JObj [("address", JStr "a@b.com")])]
     = score_payload Client.default_client
         [("key", JStr "yours"); ("email", JObj [("address", JStr "a@b.com")])].
Proof.
  destruct (outbound_key_is_configured Client.default_client
              (fun _ => Aborted) 0 (new_limiter 0))
    as (Key & _ & Sent & _ & _ & _ & _ & _ & Same & _).
  split.
  - destruct (Sent [("key", JStr "mine");
                    ("email", JObj [("address", JStr "a@b.com")])])
      as (r & H & S); [reflexivity|].
    exists r, (score_payload Client.default_client
                 [("key", JStr "mine");
                  ("email", JObj [("address", JStr "a@b.com")])]).
    split; [exact H|]. split; [exact S | apply Key].
  - apply Same.
    + apply wf_two. discriminate.
    + constructor; [simpl; auto|]. constructor; [simpl; auto | constructor].
Defined.

End FacadeFacts.

(** ** RequestValidator *)

Module ValidatorFacts.
Import Types Types.ERROR_CODES RequestValidator.
Local Open Scope list_scope.

Create HintDb checks.

Lemma sound_skip : sound skip.
Proof.
  split.
  - intros [e w]. unfold skip. simpl. now rewrite !app_nil_r.
  - auto.
Qed.

Lemma sound_push_error fld msg c : sound (push_error fld msg c).
Proof.
  split.
  - intros f. unfold push_error. simpl. now rewrite app_nil_r.
  - intros f C. unfold coded, push_error in *. simpl.
    apply Forall_app. split; auto. constructor; [discriminate | constructor].
Qed.

Lemma sound_push_warning fld msg c : sound (push_warning fld msg c).
Proof.
  split.
  - intros f. unfold push_warning. simpl. now rewrite app_nil_r.
  - intros f C. exact C.
Qed.

Lemma sound_seq a b : sound a -> sound b -> sound (a ;; b).
Proof.
  intros [Aa Ca] [Ab Cb]. split.
  - intros f. unfold seq. rewrite Ab. rewrite (Ab (a no_findings)).
    rewrite Aa. simpl. now rewrite !app_assoc.
  - intros f C. unfold seq. auto.
Qed.

Lemma sound_when b a : sound a -> sound (when_ b a).
Proof. intros H. destruct b; simpl; auto using sound_skip. Qed.

Lemma sound_if_present {A} (x : option A) body :
  (forall a, sound (body a)) -> sound (if_present x body).
Proof. intros H. destruct x; simpl; auto using sound_skip. Qed.

Lemma sound_all (cs : list check) :
  Forall sound cs -> sound (fold_right seq skip cs).
Proof.
  induction 1; simpl; auto using sound_skip, sound_seq.
Qed.

#[local] Hint Resolve sound_skip sound_push_error sound_push_warning sound_seq
  sound_when sound_if_present sound_all : checks.

Ltac sound_cases :=
  repeat match goal with
         | |- sound (if ?b then _ else _) => destruct b
         | |- sound (match ?x with _ => _ end) => destruct x
         end;
  auto 20 with checks.

Lemma sound_validateName n path : sound (validateName n path).
Proof. unfold validateName. sound_cases. Qed.

Lemma sound_validateEmail e path : sound (validateEmail e path).
Proof. unfold validateEmail. sound_cases. Qed.

Lemma sound_validatePhone p path : sound (validatePhone p path).
Proof. unfold validatePhone. sound_cases. Qed.

Lemma sound_validateAddress a path : sound (validateAddress a path).
Proof. unfold validateAddress. sound_cases. Qed.

Lemma sound_validateDevice d path : sound (validateDevice d path).
Proof. unfold validateDevice. sound_cases. Qed.

Lemma sound_validatePerson p path : sound (validatePerson p path).
Proof. unfold validatePerson. sound_cases. Qed.

Lemma sound_validatePersonalIdentifier i path :
  sound (validatePersonalIdentifier i path).
Proof. unfold validatePersonalIdentifier. sound_cases. Qed.

#[local] Hint Resolve sound_validateName sound_validateEmail sound_validatePhone
  sound_validateAddress sound_validateDevice sound_validatePerson
  sound_validatePersonalIdentifier : checks.

Lemma sound_validateAccountGroup a : sound (validateAccountGroup a).
Proof.
  unfold validateAccountGroup.
  repeat (apply sound_seq; [auto 20 with checks|]).
  apply sound_if_present. intros history. apply sound_all.
  apply Forall_forall. intros c I. apply in_map_iff in I.
  destruct I as (entry & <- & _). auto with checks.
Qed.

Lemma sound_validateBillingShippingGroup g name :
  sound (validateBillingShippingGroup g name).
Proof. unfold validateBillingShippingGroup. auto 20 with checks. Qed.

#[local] Hint Resolve sound_validateAccountGroup
  sound_validateBillingShippingGroup : checks.

Lemma request_checks_sub_checks request :
  request_checks request = fold_right seq skip (sub_checks request).
Proof. reflexivity. Qed.

Lemma sound_sub_checks request : Forall sound (sub_checks request).
Proof.
  unfold sub_checks. apply Forall_cons.
  { destruct (TrustRequest.action request); auto with checks. }
  repeat (apply Forall_cons; [auto 20 with checks|]). constructor.
Qed.

(** Running additive checks one after the other collects what each of them
    finds on its own, in order. *)
Lemma run_all (cs : list check) :
  Forall sound cs ->
  errs (fold_right seq skip cs no_findings)
  = flat_map (fun c => errors (run c)) cs
  /\ warns (fold_right seq skip cs no_findings)
     = flat_map (fun c => warnings (run c)) cs.
Proof.
  induction cs as [|c cs IH]; intros F; simpl; auto.
  inversion F as [|? ? Hc Hcs]; subst.
  destruct (IH Hcs) as [IHe IHw].
  destruct (sound_all cs Hcs) as [Ar _].
  unfold seq at 1 3. rewrite Ar. simpl. now rewrite IHe, IHw.
Qed.

(** C5, as stated, fails in general: for the phone
    [{raw: 555, number: 5551234}] both the raw-with-other-fields Error and
    the too-short Warning are emitted. *)
Lemma phone_error_with_warning_counterexample :
  ~ error_silences_warnings (phone_of (Some "555") (Some (inl "5551234"))) "phone".
Proof.
  unfold error_silences_warnings. vm_compute. intros H.
  specialize (H ltac:(discriminate)). discriminate H.
Qed.

(** C5 (amended): for a phone, validation emits at most one Error.  The
    missing-fields Error (no raw, and country_code or number missing) comes
    with no Warning.  With a raw value, the raw-with-other-fields Error
    (code 1024) is emitted exactly when country_code, number or extension
    is also given, and the too-short Warning exactly when raw has fewer
    than 7 digits, each regardless of the other.  The phone
    [{raw: 555-1234, number: 5551234}] yields exactly that one Error and
    no Warning. *)
Theorem phone_error_and_warning (phone : PhoneObject.t) (path : string) :
  let res := run (validatePhone phone path) in
  (List.length (errors res) <= 1)%nat
  /\ (ts (PhoneObject.raw phone) = false ->
      errors res <> [] -> warnings res = [])
  /\ (ts (PhoneObject.raw phone) = true ->
      errors res
      = (if (tn (PhoneObject.country_code phone) || tn (PhoneObject.number phone)
             || tn (PhoneObject.extension phone))%bool
         then [raw_with_other_fields path] else [])
      /\ warnings res
         = (if Nat.ltb (slen (Pattern.keep Pattern.digit
                                (str (PhoneObject.raw phone)))) 7
            then [raw_too_short path] else []))
  /\ run (validatePhone (phone_of (Some "555-1234") (Some (inl "5551234"))) "phone")
     = {| valid := false;
          errors := [{| field := "phone";
                        message := "Cannot use raw with other phone fields";
                        code := Some 1024 |}];
          warnings := [] |}.
Proof.
  intros res. unfold res, run, validatePhone, result_of.
  split; [|split; [|split]].
  - destruct (ts (PhoneObject.raw phone)).
    + unfold seq, when_.
      destruct (_ || _ || _)%bool; destruct (Nat.ltb _ 7); simpl; lia.
    + destruct (_ || _)%bool; [simpl; lia|].
      unfold seq, when_.
      destruct (_ || _)%bool; destruct (_ || _)%bool; simpl; lia.
  - intros R. rewrite R.
    destruct (_ || _)%bool; [reflexivity|].
    unfold seq, when_.
    destruct (_ || _)%bool; destruct (_ || _)%bool; simpl; congruence.
  - intros R. rewrite R. unfold seq, when_.
    destruct (_ || _ || _)%bool; destruct (Nat.ltb _ 7); simpl; auto.
  - reflexivity.
Qed.

(** The theorem at a phone with a short raw value and a number. *)
Lemma phone_error_and_warning_witness :
  ts (PhoneObject.raw (phone_of (Some "555") (Some (inl "5551234")))) = true
  /\ errors (run (validatePhone (phone_of (Some "555") (Some (inl "5551234")))
                               "phone"))
     = [raw_with_other_fields "phone"]
  /\ warnings (run (validatePhone (phone_of (Some "555") (Some (inl "5551234")))
                                 "phone"))
     = [raw_too_short "phone"].
Proof.
  split; [reflexivity|].
  destruct (phone_error_and_warning
              (phone_of (Some "555") (Some (inl "5551234"))) "phone")
    as (_ & _ & Raw & _).
  apply Raw. reflexivity.
Defined.

End ValidatorFacts.

(** ** Local validation on the score path *)

Module ScorePathFacts.
Import Client Limiter Transport Facade.
Local Open Scope list_scope.

(** The first failure is the head of the list of all failures. *)
Lemma first_failure_head rs request e :
  first_failure rs request = Some e ->
  (exists rest, all_failures rs request = e :: rest)
  /\ exists r, In r rs /\ r request = Some e.
Proof.
  induction rs as [|r rs IH]; simpl; [discriminate|].
  destruct (r request) as [e'|] eqn:E.
  - intros H. inversion H; subst. split; [now eexists|].
    exists r. auto.
  - intros H. destruct (IH H) as [A (r' & I & R)]. split; auto.
    exists r'. auto.
Qed.

Ltac coded_rule :=
  repeat match goal with
         | H : (if ?b then _ else _) = Some _ |- _ => destruct b
         | H : None = Some _ |- _ => discriminate H
         | H : Some _ = Some _ |- _ => inversion H; subst; clear H
         end;
  simpl; eauto.

Lemma first_failure_app rs1 rs2 request :
  first_failure (rs1 ++ rs2) request
  = match first_failure rs1 request with
    | Some e => Some e
    | None => first_failure rs2 request
    end.
Proof.
  induction rs1 as [|r rs1 IH]; simpl; auto.
  now destruct (r request).
Qed.

(** The nested loops of [validateRequest] throw what the flat list of rules
    throws first. *)
Lemma validateRequest_rules request :
  Client.validateRequest request = first_failure rules request.
Proof.
  unfold Client.validateRequest, rules.
  rewrite !first_failure_app.
  unfold validatePhoneObjects, validateAddressObjects, validateNameObjects.
  cbn [first_failure].
  destruct (check_action request); auto.
  destruct (check_data_field request); auto.
  destruct (first_failure (map check_phone phoneFields) request); auto.
  destruct (first_failure (map check_address addressFields) request); auto.
  now destruct (first_failure (map check_name nameFields) request).
Qed.

(** Every rule of the client throws with a numeric code. *)
Lemma rules_coded r request e :
  In r rules -> r request = Some e -> exists n, error_code e = Some (JNum n).
Proof.
  unfold rules, phoneFields, addressFields, nameFields. simpl.
  intros I H.
  repeat (destruct I as [<-|I];
          [ unfold check_action, check_data_field, check_phone, check_address,
              check_name in H; coded_rule | ]).
  destruct I.
Qed.

(** C4, as stated, fails on the client's own pre-flight check: the request
    breaks the phone rule and the name rule, and [scoreTransaction] throws
    a single error, the one for the phone. *)
Lemma score_first_failure_only_counterexample :
  ~ receives_all_findings Client.default_client two_faults.
Proof.
  intros H.
  specialize (H (fun _ => Aborted) 0 (new_limiter 0) _ eq_refl eq_refl).
  vm_compute in H. discriminate H.
Qed.

(** C4 (amended): the [RequestValidator] pass, which the
    [score_transaction] tool of [tools/score-transaction.ts] runs first,
    returns every finding: its errors and its warnings are those of each of
    its checks, collected in order; every error carries a domain code; and
    when the result is not valid the tool hands the whole result back.  The
    client's own pre-flight check inside [scoreTransaction] stops at the
    first rule the request breaks and throws that one error, before the
    limiter and the network are touched; the error carries a domain code. *)
Theorem validation_findings_reported :
  (forall request : Types.TrustRequest.t,
     let v := RequestValidator.validateRequest request in
     RequestValidator.errors v
     = flat_map (fun c => RequestValidator.errors (RequestValidator.run c))
                (RequestValidator.sub_checks request)
     /\ RequestValidator.warnings v
        = flat_map (fun c => RequestValidator.warnings (RequestValidator.run c))
                   (RequestValidator.sub_checks request)
     /\ (forall e, In e (RequestValidator.errors v) ->
                   exists n, RequestValidator.code e = Some n)
     /\ (RequestValidator.valid v = false ->
         ScoreTool.validate_stage request = ScoreTool.Rejected v))
  /\ (forall c net now st request e,
        Client.validateRequest (score_payload c request) = Some e ->
        scoreTransaction c net now st request = Some (fails_locally e st)
        /\ (exists n, error_code e = Some (JNum n))
        /\ exists rest,
             all_failures rules (score_payload c request) = e :: rest).
Proof.
  split.
  - intros request v.
    pose proof (ValidatorFacts.sound_sub_checks request) as S.
    destruct (ValidatorFacts.run_all _ S) as [E W].
    unfold v, RequestValidator.validateRequest.
    rewrite ValidatorFacts.request_checks_sub_checks.
    split; [exact E|]. split; [exact W|]. split.
    + destruct (ValidatorFacts.sound_all _ S) as [_ C].
      specialize (C RequestValidator.no_findings (Forall_nil _)).
      unfold RequestValidator.coded in C. rewrite Forall_forall in C.
      intros e I. specialize (C e I).
      destruct (RequestValidator.code e) as [n|]; [now exists n | congruence].
    + intros V. unfold ScoreTool.validate_stage.
      unfold RequestValidator.validateRequest.
      rewrite ValidatorFacts.request_checks_sub_checks.
      now rewrite V.
  - intros c net now st request e H. split; [|split].
    + unfold scoreTransaction. now rewrite H.
    + rewrite validateRequest_rules in H.
      destruct (first_failure_head _ _ _ H) as [_ (r & I & R)].
      now apply (rules_coded r (score_payload c request)).
    + rewrite validateRequest_rules in H.
      now destruct (first_failure_head _ _ _ H) as [A _].
Qed.

(** The theorem at the request that breaks two rules. *)
Lemma validation_findings_reported_witness :
  Client.validateRequest (score_payload Client.default_client two_faults)
  = Some phone_rule_error
  /\ scoreTransaction Client.default_client (fun _ => Aborted) 0
       (new_limiter 0) two_faults
     = Some (fails_locally phone_rule_error (new_limiter 0)).
Proof.
  assert (H : Client.validateRequest
                (score_payload Client.default_client two_faults)
              = Some phone_rule_error) by reflexivity.
  split; [exact H|].
  destruct validation_findings_reported as [_ C].
  apply (C Client.default_client (fun _ => Aborted) 0 (new_limiter 0)
           two_faults phone_rule_error H).
Defined.

End ScorePathFacts.

(** ** ObjectSanitizer: what a cleaned value looks like *)

Module SanitizerShape.
Import Sanitizer Shapes.
Local Open Scope list_scope.

(** What one member of an object contributes to the cleaned object. *)
Local Abbreviation kept :=
  (fun kv : string * value =>
     match cleanObject (snd kv) with
     | Some c => if String.eqb (fst kv) "__proto__" then [] else [(fst kv, c)]
     | None => []
     end).

Lemma deep_clean_flat_items items :
  Forall (fun v => forall c, cleanObject v = Some c -> deep_clean c = true) items ->
  forallb deep_clean
    (flat_map (fun m => match cleanObject m with Some c => [c] | None => [] end)
              items) = true.
Proof.
  induction 1 as [|x t Hx _ IH]; simpl; auto.
  destruct (cleanObject x) as [c|] eqn:E; simpl; auto.
  now rewrite (Hx c eq_refl), IH.
Qed.

Lemma deep_clean_flat_entries (entries : obj) :
  Forall (fun kv => forall c, cleanObject (snd kv) = Some c -> deep_clean c = true)
         entries ->
  forallb (fun kv => deep_clean (snd kv)) (flat_map kept entries) = true.
Proof.
  induction 1 as [|[k x] t Hx _ IH]; simpl; auto.
  simpl in Hx. destruct (cleanObject x) as [c|] eqn:E; simpl; auto.
  destruct (String.eqb k "__proto__"); simpl; auto.
  now rewrite (Hx c eq_refl), IH.
Qed.

Lemma cleanObject_deep_clean v :
  forall c, cleanObject v = Some c -> deep_clean c = true.
Proof.
  induction v as [| b | n | s | items IH | entries IH] using value_nested_ind;
    intros c H.
  - discriminate.
  - simpl in H. inversion H; subst. reflexivity.
  - simpl in H. inversion H; subst. reflexivity.
  - simpl in H. destruct (is_placeholder s) eqn:E; inversion H; subst.
    simpl. now rewrite E.
  - simpl in H. inversion H; subst; clear H.
    rewrite SanitizerFacts.keep_items_clean. simpl.
    now apply deep_clean_flat_items.
  - rewrite SanitizerFacts.cleanObject_obj in H. cbv zeta in H.
    rewrite SanitizerFacts.keep_entries_clean in H.
    destruct (flat_map _ entries) as [|kv rest] eqn:E; [discriminate|].
    inversion H; subst; clear H.
    pose proof (deep_clean_flat_entries entries IH) as D. rewrite E in D.
    simpl. simpl in D. exact D.
Qed.

Lemma proto_free_flat_items items :
  Forall (fun v => forall c, cleanObject v = Some c -> proto_free c = true) items ->
  forallb proto_free
    (flat_map (fun m => match cleanObject m with Some c => [c] | None => [] end)
              items) = true.
Proof.
  induction 1 as [|x t Hx _ IH]; simpl; auto.
  destruct (cleanObject x) as [c|] eqn:E; simpl; auto.
  now rewrite (Hx c eq_refl), IH.
Qed.

Lemma proto_free_flat_entries (entries : obj) :
  Forall (fun kv => forall c, cleanObject (snd kv) = Some c -> proto_free c = true)
         entries ->
  forallb (fun kv => (negb (String.eqb (fst kv) "__proto__")
                      && proto_free (snd kv))%bool)
          (flat_map kept entries) = true.
Proof.
  induction 1 as [|[k x] t Hx _ IH]; simpl; auto.
  simpl in Hx. destruct (cleanObject x) as [c|] eqn:E; simpl; auto.
  destruct (String.eqb k "__proto__") eqn:K; simpl; auto.
  now rewrite K, (Hx c eq_refl), IH.
Qed.

(** No object that [cleanObject] returns has a member named [__proto__]. *)
Lemma cleanObject_proto_free v :
  forall c, cleanObject v = Some c -> proto_free c = true.
Proof.
  induction v as [| b | n | s | items IH | entries IH] using value_nested_ind;
    intros c H.
  - discriminate.
  - simpl in H. inversion H; subst. reflexivity.
  - simpl in H. inversion H; subst. reflexivity.
  - simpl in H. destruct (is_placeholder s); inversion H; subst. reflexivity.
  - simpl in H. inversion H; subst; clear H.
    rewrite SanitizerFacts.keep_items_clean.
    now apply proto_free_flat_items.
  - rewrite SanitizerFacts.cleanObject_obj in H. cbv zeta in H.
    rewrite SanitizerFacts.keep_entries_clean in H.
    destruct (flat_map _ entries) as [|kv rest] eqn:E; [discriminate|].
    inversion H; subst; clear H.
    pose proof (proto_free_flat_entries entries IH) as D. rewrite E in D.
    exact D.
Qed.

Lemma flat_items_fixed items :
  Forall (fun v => deep_clean v = true -> proto_free v = true ->
                   cleanObject v = Some v) items ->
  forallb deep_clean items = true ->
  forallb proto_free items = true ->
  flat_map (fun m => match cleanObject m with Some c => [c] | None => [] end)
           items = items.
Proof.
  induction 1 as [|x t Hx _ IH]; simpl; auto.
  intros D P. apply andb_prop in D. destruct D as [Dx Dt].
  apply andb_prop in P. destruct P as [Px Pt].
  rewrite (Hx Dx Px). simpl. now rewrite IH.
Qed.

Lemma flat_entries_fixed (entries : obj) :
  Forall (fun kv => deep_clean (snd kv) = true -> proto_free (snd kv) = true ->
                    cleanObject (snd kv) = Some (snd kv)) entries ->
  forallb (fun kv => deep_clean (snd kv)) entries = true ->
  forallb (fun kv => (negb (String.eqb (fst kv) "__proto__")
                      && proto_free (snd kv))%bool) entries = true ->
  flat_map kept entries = entries.
Proof.
  induction 1 as [|[k x] t Hx _ IH]; simpl; auto.
  intros D P. apply andb_prop in D. destruct D as [Dx Dt].
  apply andb_prop in P. destruct P as [Px Pt].
  apply andb_prop in Px. destruct Px as [K Px].
  simpl in Hx. rewrite (Hx Dx Px).
  destruct (String.eqb k "__proto__"); [discriminate K|].
  simpl. now rewrite IH.
Qed.

Lemma settled_fixed v :
  deep_clean v = true -> proto_free v = true -> cleanObject v = Some v.
Proof.
  induction v as [| b | n | s | items IH | entries IH] using value_nested_ind;
    intros D P.
  - discriminate.
  - reflexivity.
  - reflexivity.
  - simpl in *. now destruct (is_placeholder s).
  - simpl in D, P. simpl. rewrite SanitizerFacts.keep_items_clean.
    now rewrite flat_items_fixed.
  - simpl in D, P. apply andb_prop in D. destruct D as [N D].
    rewrite SanitizerFacts.cleanObject_obj. cbv zeta.
    rewrite SanitizerFacts.keep_entries_clean.
    rewrite flat_entries_fixed by assumption.
    destruct entries; [discriminate | reflexivity].
Qed.

(** X1: the values [cleanObject] returns are exactly the settled ones.
    Whatever it returns holds, at no depth, a [null], a placeholder string,
    an empty object or a member named [__proto__]; and a value is returned
    unchanged if and only if it is already of that kind. *)
Theorem cleanObject_returns_clean_values :
  (forall v c, cleanObject v = Some c ->
               deep_clean c = true /\ proto_free c = true)
  /\ (forall v, cleanObject v = Some v
                <-> deep_clean v = true /\ proto_free v = true).
Proof.
  split.
  - intros v c H. split.
    + now apply (cleanObject_deep_clean v).
    + now apply (cleanObject_proto_free v).
  - intros v. split.
    + intros H. split.
      * now apply (cleanObject_deep_clean v).
      * now apply (cleanObject_proto_free v).
    + intros [D P]. now apply settled_fixed.
Qed.

(** The theorem at an object with a placeholder nested in it and a member
    named [__proto__]. *)
Lemma cleanObject_returns_clean_values_witness :
  cleanObject (JObj [("a", JObj [("b", JStr "N/A")]);
                     ("__proto__", JObj [("d", JNum 2)]); ("c", JNum 1)])
  = Some (JObj [("c", JNum 1)])
  /\ deep_clean (JObj [("c", JNum 1)]) = true
  /\ proto_free (JObj [("c", JNum 1)]) = true.
Proof.
  assert (H : cleanObject (JObj [("a", JObj [("b", JStr "N/A")]);
                                 ("__proto__", JObj [("d", JNum 2)]);
                                 ("c", JNum 1)])
              = Some (JObj [("c", JNum 1)])) by reflexivity.
  split; [exact H|].
  apply (proj1 cleanObject_returns_clean_values _ _ H).
Defined.

Lemma flat_entries_get k (entries : obj) :
  wf_obj entries ->
  obj_get k (flat_map kept entries)
  = if String.eqb k "__proto__" then None
    else match obj_get k entries with
         | Some v => cleanObject v
         | None => None
         end.
Proof.
  unfold wf_obj. induction entries as [|[k' x] t IH]; simpl.
  - intros _. now destruct (String.eqb k "__proto__").
  - intros W. inversion W as [|? ? Hnot Ht]; subst.
    destruct (String.eqb_spec k k') as [->|N].
    + destruct (String.eqb_spec k' "__proto__") as [P|P].
      * destruct (cleanObject x) as [c|]; simpl; rewrite (IH Ht);
          destruct (String.eqb_spec k' "__proto__"); congruence.
      * destruct (cleanObject x) as [c|] eqn:E; simpl.
        -- now rewrite String.eqb_refl.
        -- rewrite (IH Ht).
           destruct (String.eqb_spec k' "__proto__"); [congruence|].
           now rewrite (CanonicalizerFacts.obj_get_not_in k' t Hnot).
    + destruct (cleanObject x) as [c|] eqn:E; simpl.
      * destruct (String.eqb k' "__proto__"); simpl.
        -- now apply IH.
        -- destruct (String.eqb_spec k k'); [congruence|]. now apply IH.
      * now apply IH.
Qed.

Lemma flat_entries_keys (entries : obj) :
  forall k, In k (keys (flat_map kept entries)) -> In k (keys entries).
Proof.
  induction entries as [|[k' x] t IH]; simpl; auto.
  intros k. destruct (cleanObject x) as [c|]; simpl; [|intuition].
  destruct (String.eqb k' "__proto__"); simpl; intuition.
Qed.

Lemma flat_entries_wf (entries : obj) :
  wf_obj entries -> wf_obj (flat_map kept entries).
Proof.
  unfold wf_obj. induction entries as [|[k' x] t IH]; simpl; auto.
  intros W. inversion W as [|? ? Hnot Ht]; subst.
  destruct (cleanObject x) as [c|]; simpl; auto.
  destruct (String.eqb k' "__proto__"); simpl; auto.
  constructor; auto. intros I. apply Hnot. now apply flat_entries_keys.
Qed.

(** X2: cleaning an object commutes with looking up an own member, the
    member named [__proto__] apart.  For an object with distinct keys, the
    cleaned object again has distinct keys; its own member under [k] is the
    cleaned member under [k] of the original (none when that one cleans to
    absent), and it never has an own member named [__proto__].  When the
    object cleans to absent, every member with another name cleans to
    absent. *)
Theorem cleanObject_lookup (entries : obj) :
  wf_obj entries ->
  (forall cleaned,
     cleanObject (JObj entries) = Some (JObj cleaned) ->
     wf_obj cleaned
     /\ forall k,
          obj_get k cleaned
          = if String.eqb k "__proto__" then None
            else match obj_get k entries with
                 | Some v => cleanObject v
                 | None => None
                 end)
  /\ (cleanObject (JObj entries) = None ->
      forall k v, k <> "__proto__"%string -> obj_get k entries = Some v ->
                  cleanObject v = None).
Proof.
  intros W. rewrite SanitizerFacts.cleanObject_obj. cbv zeta.
  rewrite SanitizerFacts.keep_entries_clean.
  pose proof (fun k => flat_entries_get k entries W) as G.
  pose proof (flat_entries_wf entries W) as F.
  destruct (flat_map _ entries) as [|kv rest] eqn:E.
  - split; [discriminate|]. intros _ k v N K.
    specialize (G k). rewrite K in G.
    destruct (String.eqb_spec k "__proto__"); [contradiction|].
    simpl in G. now symmetry.
  - split; [|discriminate]. intros cleaned H. inversion H; subst.
    split; [exact F | exact G].
Qed.

(** The theorem at an object whose first member cleans to absent. *)
Lemma cleanObject_lookup_witness :
  wf_obj [("a", JStr "none"); ("b", JStr "x")]
  /\ cleanObject (JObj [("a", JStr "none"); ("b", JStr "x")])
     = Some (JObj [("b", JStr "x")])
  /\ obj_get "b" [("b", JStr "x")] = cleanObject (JStr "x")
  /\ obj_get "a" [("b", JStr "x")] = cleanObject (JStr "none").
Proof.
  assert (W : wf_obj [("a", JStr "none"); ("b", JStr "x")]).
  { unfold wf_obj. simpl. constructor.
    - simpl. intros [E|[]]. discriminate E.
    - constructor; [simpl; tauto | constructor]. }
  split; [exact W|]. split; [reflexivity|].
  destruct (cleanObject_lookup _ W) as [Some_ _].
  destruct (Some_ [("b", JStr "x")] eq_refl) as [_ G].
  split; [rewrite (G "b") | rewrite (G "a")]; reflexivity.
Defined.

End SanitizerShape.

(** ** RequestCanonicalizer: the shape of what [buildRequest] returns *)

Module CanonicalizerShape.
Import Sanitizer Canonicalizer Shapes CanonicalizerFacts.
Local Open Scope list_scope.

Lemma obj_get_set k' k v o :
  obj_get k' (obj_set k v o) = if String.eqb k' k then Some v else obj_get k' o.
Proof.
  destruct (String.eqb_spec k' k) as [->|N].
  - apply obj_get_set_same.
  - now apply obj_get_set_other.
Qed.

Lemma obj_set_keys k' k v o :
  In k' (keys (obj_set k v o)) <-> k' = k \/ In k' (keys o).
Proof.
  induction o as [|[k2 v2] rest IH]; simpl.
  - intuition.
  - destruct (String.eqb_spec k k2) as [->|N]; simpl.
    + intuition.
    + rewrite IH. intuition.
Qed.

Lemma obj_set_wf k v o : wf_obj o -> wf_obj (obj_set k v o).
Proof.
  unfold wf_obj. induction o as [|[k2 v2] rest IH]; simpl; intros W.
  - constructor; [simpl; tauto | constructor].
  - inversion W as [|? ? Hnot Hrest]; subst.
    destruct (String.eqb_spec k k2) as [->|N]; simpl.
    + now constructor.
    + constructor; auto. intros I.
      change (In k2 (keys (obj_set k v rest))) in I.
      apply obj_set_keys in I. destruct I; [congruence | tauto].
Qed.

Lemma shaped_set deep k v o :
  shaped deep o ->
  In k recognizedKeys ->
  (k = "action" \/ In k flagKeys \/ isEmptyValue v = false) ->
  (In k deep -> deep_clean v = true) ->
  shaped deep (obj_set k v o).
Proof.
  intros [W H] R E D. split; [now apply obj_set_wf|].
  intros k' v' G. rewrite obj_get_set in G.
  destruct (String.eqb_spec k' k) as [->|N].
  - inversion G; subst. auto.
  - now apply H.
Qed.

Lemma collected_set k v o :
  collected o -> In k dataFields -> isEmptyValue v = false ->
  collected (obj_set k v o).
Proof.
  intros [W H] R E. split; [now apply obj_set_wf|].
  intros k' v' G. rewrite obj_get_set in G.
  destruct (String.eqb_spec k' k) as [->|N].
  - inversion G; subst. auto.
  - now apply H.
Qed.

Lemma shaped_weaken deep deep' o :
  (forall k, In k deep' -> In k deep) -> shaped deep o -> shaped deep' o.
Proof.
  intros S [W H]. split; auto. intros k v G.
  destruct (H k v G) as (R & E & D). auto.
Qed.

(** A value that is not an object and not empty is clean. *)
Lemma scalar_deep_clean v :
  is_object v = false -> isEmptyValue v = false -> deep_clean v = true.
Proof.
  destruct v; simpl; try discriminate; auto.
  intros _ E. now rewrite E.
Qed.

Lemma mem_in k l : Str.mem k l = true -> In k l.
Proof.
  unfold Str.mem. rewrite existsb_exists.
  intros (x & I & E). apply String.eqb_eq in E. now subst.
Qed.

Lemma in_mem k l : In k l -> Str.mem k l = true.
Proof.
  intros I. unfold Str.mem. apply existsb_exists. exists k.
  split; auto. apply String.eqb_refl.
Qed.

Section Step.

Variable JSON_parse : string -> option value.
Variable hasAccountGroup : bool.

Lemma parse_embedded_clean v x :
  parse_embedded JSON_parse v = Some x -> isEmptyValue x = false ->
  deep_clean x = true.
Proof.
  unfold parse_embedded.
  match goal with
  | |- (if is_object ?p then _ else _) = _ -> _ => destruct (is_object p) eqn:O
  end.
  - intros C _. now apply (SanitizerShape.cleanObject_deep_clean _ _ C).
  - intros C E. inversion C; subst. now apply scalar_deep_clean.
Qed.

Lemma set_request_shaped k x st :
  shaped loopKeys (request st) ->
  In k recognizedKeys ->
  (forall y, x = Some y -> isEmptyValue y = false ->
             In k loopKeys -> deep_clean y = true) ->
  shaped loopKeys (request (set_request k x st)).
Proof.
  intros S R D. unfold set_request. destruct x as [y|]; auto.
  destruct (isEmptyValue y) eqn:E; auto. simpl.
  apply shaped_set; auto.
Qed.

Ltac key_cases H :=
  repeat match type of H with
         | (_ || _)%bool = true => apply orb_prop in H; destruct H as [H|H]
         end;
  apply String.eqb_eq in H; subst.

(** One iteration keeps both objects in shape. *)
Lemma step_shaped st kv :
  shaped loopKeys (request st) -> collected (accountFields st) ->
  shaped loopKeys (request (build_step JSON_parse hasAccountGroup st kv))
  /\ collected (accountFields (build_step JSON_parse hasAccountGroup st kv)).
Proof.
  intros S C. destruct kv as [key v]. unfold build_step.
  destruct (String.eqb key "action" || String.eqb key "key")%bool; auto.
  destruct (isEmptyValue v) eqn:Ev; auto.
  destruct (String.eqb key "sender" || String.eqb key "recipient"
            || String.eqb key "metadata")%bool eqn:K1.
  { rewrite set_request_account. split; auto.
    apply set_request_shaped; auto.
    - key_cases K1; simpl; tauto.
    - intros y P E _. now apply (parse_embedded_clean v). }
  destruct (String.eqb key "account" || String.eqb key "billing"
            || String.eqb key "shipping")%bool eqn:K2.
  { rewrite set_request_account. split; auto.
    apply set_request_shaped; auto.
    - key_cases K2; simpl; tauto.
    - intros y P _ _. now apply (SanitizerShape.cleanObject_deep_clean _ _ P). }
  destruct (Str.mem key dataFields && negb hasAccountGroup)%bool eqn:K3.
  { rewrite set_account_request. split; auto.
    apply andb_prop in K3. destruct K3 as [K3 _]. apply mem_in in K3.
    unfold set_account.
    destruct (isEmptyValue (normalizeField key v)) eqn:En; auto. simpl.
    now apply collected_set. }
  destruct (Str.mem key (dataFields ++ otherFields)) eqn:K4; auto.
  rewrite set_request_account. split; auto.
  apply mem_in in K4.
  apply set_request_shaped; auto.
  - unfold recognizedKeys. apply in_or_app. right.
    rewrite app_assoc. apply in_or_app. now left.
  - intros y P E L. exfalso.
    assert (N : ~ In key loopKeys).
    { intros I. unfold loopKeys in I. simpl in I.
      apply orb_false_elim in K1. destruct K1 as [K1 K1c].
      apply orb_false_elim in K1. destruct K1 as [K1a K1b].
      apply orb_false_elim in K2. destruct K2 as [K2 K2c].
      apply orb_false_elim in K2. destruct K2 as [K2a K2b].
      repeat (destruct I as [<-|I]; [discriminate|]). exact I. }
    tauto.
Qed.

Lemma loop_shaped entries : forall st,
  shaped loopKeys (request st) -> collected (accountFields st) ->
  shaped loopKeys
    (request (fold_left (build_step JSON_parse hasAccountGroup) entries st))
  /\ collected
       (accountFields (fold_left (build_step JSON_parse hasAccountGroup) entries st)).
Proof.
  induction entries as [|kv rest IH]; intros st S C; cbn [fold_left]; auto.
  destruct (step_shaped st kv S C) as [S' C']. now apply IH.
Qed.

(** A key that its own iteration leaves alone is left alone by the loop. *)
Lemma loop_fixed_key k :
  (forall st v,
     obj_get k (request (build_step JSON_parse hasAccountGroup st (k, v)))
     = obj_get k (request st)) ->
  forall entries st,
    obj_get k (request (fold_left (build_step JSON_parse hasAccountGroup) entries st))
    = obj_get k (request st).
Proof.
  intros Own. induction entries as [|[key v] rest IH]; intros st;
    cbn [fold_left]; auto.
  rewrite IH. destruct (String.eqb_spec k key) as [<-|N].
  - apply Own.
  - now apply step_other.
Qed.

End Step.

Lemma in_keys_get k (o : obj) : In k (keys o) -> exists v, obj_get k o = Some v.
Proof.
  induction o as [|[k' v'] rest IH]; simpl; [tauto|].
  intros I. destruct (String.eqb_spec k k'); [now exists v'|].
  apply IH. destruct I; [congruence | assumption].
Qed.

Section Result.

Variable JSON_parse : string -> option value.
Variable data : obj.

Let hasAccountGroup : bool :=
  match obj_get "account" data with Some _ => true | None => false end.

Let st0 : build_state :=
  {| request := [("action", action_or_default (obj_get "action" data))];
     accountFields := [] |}.

Let stF : build_state := fold_left (build_step JSON_parse hasAccountGroup) data st0.

Let req : obj :=
  match accountFields stF with
  | [] => request stF
  | fields =>
      if negb hasAccountGroup then obj_set "account" (JObj fields) (request stF)
      else request stF
  end.

Lemma buildRequest_req :
  buildRequest JSON_parse data
  = copy_flag "signals" data
      (copy_flag "connectivity" data (copy_flag "echo_query" data req)).
Proof. reflexivity. Qed.

Lemma loop_result_shaped :
  shaped loopKeys (request stF) /\ collected (accountFields stF).
Proof.
  apply loop_shaped.
  - split.
    + unfold wf_obj. simpl. constructor; [simpl; tauto | constructor].
    + intros k v G. simpl in G.
      destruct (String.eqb_spec k "action") as [->|N]; [|discriminate].
      split; [simpl; tauto|]. split; [tauto|].
      unfold loopKeys. simpl. intros I.
      repeat (destruct I as [I|I]; [discriminate I|]). destruct I.
  - split; [constructor|]. intros k v G. discriminate G.
Qed.

Lemma req_shaped : shaped cleanedKeys req.
Proof.
  destruct loop_result_shaped as [S C].
  assert (S' : shaped cleanedKeys (request stF)).
  { apply (shaped_weaken loopKeys); auto.
    unfold cleanedKeys, loopKeys. simpl. tauto. }
  unfold req. destruct (accountFields stF) as [|f fs]; auto.
  destruct (negb hasAccountGroup); auto.
  apply shaped_set; auto.
  - simpl. tauto.
  - unfold cleanedKeys. simpl. intros I.
    repeat (destruct I as [I|I]; [discriminate I|]). destruct I.
Qed.

Lemma copy_flag_shaped flag o :
  In flag flagKeys -> shaped cleanedKeys o ->
  shaped cleanedKeys (copy_flag flag data o).
Proof.
  intros F S. unfold copy_flag. destruct (obj_get flag data) as [v|]; auto.
  apply shaped_set; auto.
  - unfold recognizedKeys. apply in_or_app. right. apply in_or_app. right.
    apply in_or_app. now right.
  - unfold flagKeys, cleanedKeys in *. simpl in *. intros I.
    destruct F as [<-|[<-|[<-|[]]]];
      repeat (destruct I as [I|I]; [discriminate I|]); destruct I.
Qed.

Lemma buildRequest_shaped : shaped cleanedKeys (buildRequest JSON_parse data).
Proof.
  rewrite buildRequest_req.
  repeat (apply copy_flag_shaped; [unfold flagKeys; simpl; tauto|]).
  apply req_shaped.
Qed.

(** The explicit account group, when there is one, is clean at every depth. *)
Lemma explicit_account_clean v :
  obj_get "account" data <> None ->
  obj_get "account" (buildRequest JSON_parse data) = Some v ->
  deep_clean v = true.
Proof.
  intros A G. rewrite buildRequest_req in G.
  rewrite !copy_flag_other in G by discriminate.
  assert (H : hasAccountGroup = true).
  { unfold hasAccountGroup. destruct (obj_get "account" data); congruence. }
  assert (R : req = request stF).
  { unfold req. rewrite H. now destruct (accountFields stF). }
  rewrite R in G. destruct loop_result_shaped as [[_ S] _].
  destruct (S _ _ G) as (_ & _ & D). apply D.
  unfold loopKeys. simpl. tauto.
Qed.

Lemma buildRequest_action :
  obj_get "action" (buildRequest JSON_parse data)
  = Some (action_or_default (obj_get "action" data)).
Proof.
  rewrite buildRequest_req. rewrite !copy_flag_other by discriminate.
  assert (L : obj_get "action" (request stF) = obj_get "action" (request st0)).
  { unfold stF. apply loop_fixed_key. reflexivity. }
  unfold req. destruct (accountFields stF) as [|f fs]; [exact L|].
  destruct (negb hasAccountGroup); [|exact L].
  rewrite obj_get_set_other by discriminate. exact L.
Qed.

Lemma loop_leaves_flag flag :
  In flag flagKeys -> obj_get flag req = None.
Proof.
  intros F.
  assert (L : obj_get flag (request stF) = obj_get flag (request st0)).
  { unfold stF. apply loop_fixed_key. intros st v.
    unfold flagKeys in F. simpl in F.
    destruct F as [<-|[<-|[<-|[]]]]; unfold build_step; simpl;
      destruct (isEmptyValue v); reflexivity. }
  assert (Z : obj_get flag (request st0) = None).
  { unfold flagKeys in F. simpl in F.
    destruct F as [<-|[<-|[<-|[]]]]; reflexivity. }
  assert (N : flag <> "account").
  { unfold flagKeys in F. simpl in F.
    destruct F as [<-|[<-|[<-|[]]]]; discriminate. }
  unfold req. destruct (accountFields stF) as [|f fs]; [congruence|].
  destruct (negb hasAccountGroup); [|congruence].
  rewrite obj_get_set_other by assumption. congruence.
Qed.

Lemma copy_flag_get flag o :
  obj_get flag (copy_flag flag data o)
  = match obj_get flag data with Some v => Some v | None => obj_get flag o end.
Proof.
  unfold copy_flag. destruct (obj_get flag data); auto.
  apply obj_get_set_same.
Qed.

Lemma buildRequest_flag flag :
  In flag flagKeys ->
  obj_get flag (buildRequest JSON_parse data) = obj_get flag data.
Proof.
  intros F. pose proof (loop_leaves_flag flag F) as L.
  rewrite buildRequest_req. unfold flagKeys in F. simpl in F.
  destruct F as [<-|[<-|[<-|[]]]].
  - rewrite !copy_flag_other by discriminate. rewrite copy_flag_get, L.
    now destruct (obj_get "echo_query" data).
  - rewrite copy_flag_other by discriminate. rewrite copy_flag_get.
    rewrite copy_flag_other by discriminate. rewrite L.
    now destruct (obj_get "connectivity" data).
  - rewrite copy_flag_get. rewrite !copy_flag_other by discriminate.
    rewrite L. now destruct (obj_get "signals" data).
Qed.

End Result.

(** X3: whatever the input, [buildRequest] returns an object with
    pairwise distinct keys, all of them recognized request keys: unknown
    keys of the input never reach the request. *)
Theorem buildRequest_keys_recognized
  (JSON_parse : string -> option value) (data : obj) :
  wf_obj (buildRequest JSON_parse data)
  /\ forall k, In k (keys (buildRequest JSON_parse data)) -> In k recognizedKeys.
Proof.
  destruct (buildRequest_shaped JSON_parse data) as [W S]. split; auto.
  intros k I. destruct (in_keys_get k _ I) as [v G].
  now destruct (S k v G).
Qed.

(** The theorem at the sample input: its key [foo] is not in the result. *)
Lemma buildRequest_keys_recognized_witness :
  ~ In "foo" (keys (buildRequest (fun _ => None) sample_input)).
Proof.
  intros I.
  apply (proj2 (buildRequest_keys_recognized (fun _ => None) sample_input)) in I.
  unfold recognizedKeys in I. simpl in I.
  repeat (destruct I as [I|I]; [discriminate I|]). destruct I.
Defined.

(** X4: no data field of the request [buildRequest] returns is empty:
    under every key but [action] and the three flags the value is neither
    [null], a placeholder string nor an empty object.  Under [billing],
    [shipping], [sender], [recipient] and [metadata], and under [account]
    when the input had an [account] key, the value is clean at every
    depth. *)
Theorem buildRequest_values_not_empty
  (JSON_parse : string -> option value) (data : obj) (k : string) (v : value) :
  obj_get k (buildRequest JSON_parse data) = Some v ->
  (k <> "action" -> ~ In k flagKeys -> isEmptyValue v = false)
  /\ (In k cleanedKeys -> deep_clean v = true)
  /\ (k = "account" -> obj_get "account" data <> None -> deep_clean v = true).
Proof.
  intros G. destruct (buildRequest_shaped JSON_parse data) as [_ S].
  destruct (S k v G) as (_ & E & D). split; [|split].
  - intros Na Nf. destruct E as [E|[E|E]]; tauto.
  - exact D.
  - intros -> A. now apply (explicit_account_clean JSON_parse data).
Qed.

(** The theorem at the sample input: the placeholder phone of the billing
    group is gone. *)
Lemma buildRequest_values_not_empty_witness :
  obj_get "billing" (buildRequest (fun _ => None) sample_input)
  = Some (JObj [("name", JObj [("raw", JStr "Al")])])
  /\ deep_clean (JObj [("name", JObj [("raw", JStr "Al")])]) = true.
Proof.
  assert (G : obj_get "billing" (buildRequest (fun _ => None) sample_input)
              = Some (JObj [("name", JObj [("raw", JStr "Al")])]))
    by reflexivity.
  split; [exact G|].
  destruct (buildRequest_values_not_empty (fun _ => None) sample_input _ _ G)
    as (_ & D & _).
  apply D. unfold cleanedKeys. simpl. tauto.
Defined.

(** X5: the request [buildRequest] returns always carries an action: the
    caller's when it is truthy, [{type: purchase}] otherwise; in both cases
    a truthy value. *)
Theorem buildRequest_action_default
  (JSON_parse : string -> option value) (data : obj) :
  obj_get "action" (buildRequest JSON_parse data)
  = Some (action_or_default (obj_get "action" data))
  /\ truthy (action_or_default (obj_get "action" data)) = true
  /\ (forall a, obj_get "action" data = Some a -> truthy a = true ->
                obj_get "action" (buildRequest JSON_parse data) = Some a)
  /\ (obj_get "action" data = None ->
      obj_get "action" (buildRequest JSON_parse data)
      = Some (JObj [("type", JStr "purchase")])).
Proof.
  pose proof (buildRequest_action JSON_parse data) as A.
  split; [exact A|]. split; [|split].
  - unfold action_or_default. destruct (obj_get "action" data) as [a|]; auto.
    destruct (truthy a) eqn:T; auto.
  - intros a G T. rewrite A, G. unfold action_or_default. now rewrite T.
  - intros G. rewrite A, G. reflexivity.
Qed.

(** The theorem at the sample input, which gives no action, and at an input
    with a signup action. *)
Lemma buildRequest_action_default_witness :
  obj_get "action" (buildRequest (fun _ => None) sample_input)
  = Some (JObj [("type", JStr "purchase")])
  /\ obj_get "action"
       (buildRequest (fun _ => None)
          [("action", JObj [("type", JStr "signup")]); ("email", JStr "a@b.com")])
     = Some (JObj [("type", JStr "signup")]).
Proof.
  split.
  - apply (buildRequest_action_default (fun _ => None) sample_input).
    reflexivity.
  - apply (buildRequest_action_default (fun _ => None)
             [("action", JObj [("type", JStr "signup")]); ("email", JStr "a@b.com")]
             ); reflexivity.
Defined.

(** X6: the three query flags are copied verbatim, with no default: the
    request holds [echo_query], [connectivity] or [signals] exactly when the
    input does, with the same value, even [null] or [false]. *)
Theorem buildRequest_flags_verbatim
  (JSON_parse : string -> option value) (data : obj) (flag : string) :
  In flag flagKeys ->
  obj_get flag (buildRequest JSON_parse data) = obj_get flag data.
Proof.
  intros F. pose proof (loop_leaves_flag JSON_parse data flag F) as L.
  rewrite <- (buildRequest_flag JSON_parse data flag F). reflexivity.
Qed.

(** The theorem at the sample input, which sets [signals] to [false] and
    gives no [echo_query]. *)
Lemma buildRequest_flags_verbatim_witness :
  obj_get "signals" (buildRequest (fun _ => None) sample_input) = Some (JBool false)
  /\ obj_get "echo_query" (buildRequest (fun _ => None) sample_input) = None.
Proof.
  split.
  - rewrite (buildRequest_flags_verbatim (fun _ => None) sample_input "signals");
      [reflexivity | unfold flagKeys; simpl; tauto].
  - rewrite (buildRequest_flags_verbatim (fun _ => None) sample_input "echo_query");
      [reflexivity | unfold flagKeys; simpl; tauto].
Defined.

Section PerKey.

Variable JSON_parse : string -> option value.
Variable data : obj.
Hypothesis W : wf_obj data.

(** The value under a key whose iteration is an emptiness test followed by
    one guarded assignment. *)
Lemma loop_at_key h st0 k (X : value -> option value) :
  obj_get k (request st0) = None ->
  (forall st v,
     build_step JSON_parse h st (k, v)
     = if isEmptyValue v then st else set_request k (X v) st) ->
  obj_get k (request (fold_left (build_step JSON_parse h) data st0))
  = match obj_get k data with
    | Some v =>
        if isEmptyValue v then None
        else match X v with
             | Some y => if isEmptyValue y then None else Some y
             | None => None
             end
    | None => None
    end.
Proof.
  intros Z S. destruct (obj_get k data) as [v|] eqn:G.
  - destruct (obj_get_split k v data W G) as (b & a & E & Nb & Na).
    destruct (loop_own JSON_parse h k v b a st0 Nb Na) as (R & _ & R1 & _).
    rewrite E, R, S. destruct (isEmptyValue v); [congruence|].
    unfold set_request. destruct (X v) as [y|]; [|congruence].
    destruct (isEmptyValue y); [congruence|]. simpl. apply obj_get_set_same.
  - apply obj_get_none_not_in in G.
    destruct (loop_other JSON_parse h k data st0 G) as [R _]. congruence.
Qed.

Lemma buildRequest_at_key k (X : value -> option value) :
  k <> "action" -> k <> "account" -> ~ In k flagKeys ->
  (forall h st v,
     build_step JSON_parse h st (k, v)
     = if isEmptyValue v then st else set_request k (X v) st) ->
  obj_get k (buildRequest JSON_parse data)
  = match obj_get k data with
    | Some v =>
        if isEmptyValue v then None
        else match X v with
             | Some y => if isEmptyValue y then None else Some y
             | None => None
             end
    | None => None
    end.
Proof.
  intros Na Nc Nf S.
  rewrite (buildRequest_get JSON_parse data _ eq_refl k)
    by (intros ->; apply Nf; unfold flagKeys; simpl; tauto).
  rewrite <- (loop_at_key
                (match obj_get "account" data with Some _ => true | None => false end)
                {| request := [("action", action_or_default (obj_get "action" data))];
                   accountFields := [] |} k X).
  - destruct (accountFields _); auto. destruct (negb _); auto.
    now apply obj_get_set_other.
  - simpl. destruct (String.eqb_spec k "action"); congruence.
  - intros st v. apply S.
Qed.

End PerKey.

(** X7: group boundaries are kept.  For an input with distinct keys, what
    the request holds under [billing] or [shipping] is computed from the
    input's value under the same key alone: absent when that value is
    missing or empty, its normalized and cleaned form otherwise.  Likewise
    [sender], [recipient] and [metadata] depend on their own entry alone,
    and each of the other recognized fields (device, browser, card, ...)
    stays at the root in normalized form, whether or not an account group
    is given. *)
Theorem buildRequest_keeps_groups
  (JSON_parse : string -> option value) (data : obj) :
  wf_obj data ->
  (forall k, In k ["billing"; "shipping"] ->
     obj_get k (buildRequest JSON_parse data) = group_result (obj_get k data))
  /\ (forall k, In k ["sender"; "recipient"; "metadata"] ->
        obj_get k (buildRequest JSON_parse data)
        = embedded_result JSON_parse (obj_get k data))
  /\ (forall k, In k otherFields ->
        obj_get k (buildRequest JSON_parse data) = contribution k data).
Proof.
  intros W. split; [|split].
  - intros k I. unfold group_result.
    rewrite (buildRequest_at_key JSON_parse data W k
               (fun v => cleanObject (normalizeGroupFields v))).
    + destruct (obj_get k data) as [v|]; auto.
      destruct (isEmptyValue v); auto.
      destruct (cleanObject (normalizeGroupFields v)) as [y|] eqn:C; auto.
      now rewrite (SanitizerFacts.cleanObject_not_empty _ _ C).
    + simpl in I. destruct I as [<-|[<-|[]]]; discriminate.
    + simpl in I. destruct I as [<-|[<-|[]]]; discriminate.
    + unfold flagKeys. simpl in *. intros F.
      destruct I as [<-|[<-|[]]];
        repeat (destruct F as [F|F]; [discriminate F|]); destruct F.
    + intros h st v. simpl in I.
      destruct I as [<-|[<-|[]]]; reflexivity.
  - intros k I. unfold embedded_result.
    rewrite (buildRequest_at_key JSON_parse data W k (parse_embedded JSON_parse)).
    + reflexivity.
    + simpl in I. destruct I as [<-|[<-|[<-|[]]]]; discriminate.
    + simpl in I. destruct I as [<-|[<-|[<-|[]]]]; discriminate.
    + unfold flagKeys. simpl in *. intros F.
      destruct I as [<-|[<-|[<-|[]]]];
        repeat (destruct F as [F|F]; [discriminate F|]); destruct F.
    + intros h st v. simpl in I.
      destruct I as [<-|[<-|[<-|[]]]]; reflexivity.
  - intros k I. unfold contribution.
    rewrite (buildRequest_at_key JSON_parse data W k
               (fun v => Some (normalizeField k v))).
    + destruct (obj_get k data) as [v|]; auto.
      destruct (isEmptyValue v) eqn:E; auto.
      now rewrite (normalizeField_not_empty k v E).
    + unfold otherFields in I. simpl in I.
      repeat (destruct I as [<-|I]; [discriminate|]). destruct I.
    + unfold otherFields in I. simpl in I.
      repeat (destruct I as [<-|I]; [discriminate|]). destruct I.
    + unfold flagKeys, otherFields in *. simpl in *. intros F.
      repeat (destruct I as [<-|I];
              [repeat (destruct F as [F|F]; [discriminate F|]); destruct F|]).
      destruct I.
    + intros h st v. unfold otherFields in I. simpl in I.
      repeat (destruct I as [<-|I];
              [unfold build_step; simpl; destruct (isEmptyValue v); reflexivity|]).
      destruct I.
Qed.

(** The theorem at an input with a device given as a bare string beside an
    account group. *)
Lemma buildRequest_keeps_groups_witness :
  wf_obj [("account", JObj [("email", JStr "a@b.com")]); ("device", JStr "1.2.3.4")]
  /\ obj_get "device"
       (buildRequest (fun _ => None)
          [("account", JObj [("email", JStr "a@b.com")]); ("device", JStr "1.2.3.4")])
     = Some (JObj [("ip", JStr "1.2.3.4")]).
Proof.
  assert (W : wf_obj [("account", JObj [("email", JStr "a@b.com")]);
                      ("device", JStr "1.2.3.4")]).
  { unfold wf_obj. simpl. constructor.
    - simpl. intros [E|[]]. discriminate E.
    - constructor; [simpl; tauto | constructor]. }
  split; [exact W|].
  destruct (buildRequest_keeps_groups (fun _ => None) _ W) as (_ & _ & O).
  rewrite (O "device"); [reflexivity|]. unfold otherFields. simpl. tauto.
Defined.

(** X8: normalizing a field is idempotent, whatever the kind and the
    value: a bare string of an identity kind is wrapped once, as
    [{raw: ...}] ([{ip: ...}] for a device), and a value that is already an
    object, or of another type, is returned as it is. *)
Theorem normalizeField_idempotent (fieldType : string) (v : value) :
  normalizeField fieldType (normalizeField fieldType v)
  = normalizeField fieldType v
  /\ (is_object v = true -> normalizeField fieldType v = v)
  /\ (forall s, v = JStr s -> In fieldType dataFields ->
                normalizeField fieldType v = JObj [("raw", v)])
  /\ (forall s, v = JStr s -> normalizeField "device" v = JObj [("ip", v)]).
Proof.
  split; [|split; [|split]].
  - destruct v as [| b | n | s | items | entries]; try reflexivity.
    unfold normalizeField at 2 3. cbn [is_object].
    destruct (String.eqb fieldType "email") eqn:E1; [reflexivity|].
    destruct (String.eqb fieldType "phone") eqn:E2; [reflexivity|].
    destruct (String.eqb fieldType "address") eqn:E3; [reflexivity|].
    destruct (String.eqb fieldType "name") eqn:E4; [reflexivity|].
    destruct (String.eqb fieldType "device") eqn:E5; [reflexivity|].
    unfold normalizeField. cbn [is_object].
    now rewrite E1, E2, E3, E4, E5.
  - intros O. unfold normalizeField. now rewrite O.
  - intros s -> I. unfold normalizeField. simpl in *.
    destruct I as [<-|[<-|[<-|[<-|[]]]]]; reflexivity.
  - intros s ->. reflexivity.
Qed.

(** The theorem at an email given as a bare string. *)
Lemma normalizeField_idempotent_witness :
  normalizeField "email" (JStr "a@b.com") = JObj [("raw", JStr "a@b.com")]
  /\ normalizeField "email" (JObj [("raw", JStr "a@b.com")])
     = JObj [("raw", JStr "a@b.com")].
Proof.
  split.
  - apply (normalizeField_idempotent "email" (JStr "a@b.com")) with (s := "a@b.com").
    + reflexivity.
    + unfold dataFields. simpl. tauto.
  - apply (normalizeField_idempotent "email" (JObj [("raw", JStr "a@b.com")])).
    reflexivity.
Defined.

End CanonicalizerShape.

(** ** RateLimiter: the window it keeps *)

Module LimiterWindow.
Import Client Limiter Windows.
Local Open Scope list_scope.

Lemma filter_length_le {A} (f : A -> bool) l :
  (List.length (filter f l) <= List.length l)%nat.
Proof.
  induction l as [|x t IH]; simpl; auto.
  destruct (f x); simpl; lia.
Qed.

Lemma sorted_filter (f : Z -> bool) l :
  StronglySorted Z.le l -> StronglySorted Z.le (filter f l).
Proof.
  induction 1 as [|x t S IH F]; simpl; [constructor|].
  destruct (f x); auto. constructor; auto.
  rewrite Forall_forall in *. intros y I. apply filter_In in I.
  apply F. tauto.
Qed.

Lemma sorted_snoc l x :
  StronglySorted Z.le l -> Forall (fun y => y <= x) l ->
  StronglySorted Z.le (l ++ [x]).
Proof.
  induction 1 as [|y t S IH F]; simpl; intros B.
  - constructor; constructor.
  - inversion B; subst. constructor; auto.
    apply Forall_app. split; auto.
Qed.

(** The window a call leaves, whatever it found. *)
Lemma window_after c now st :
  requests (snd (applyRateLimit c now st))
  = filter (fun ts => now - 1000 <? ts) (requests st) ++ [now].
Proof. reflexivity. Qed.

Lemma step_in_order c now st :
  in_order st -> not_after now st ->
  in_order (snd (applyRateLimit c now st))
  /\ not_after now (snd (applyRateLimit c now st)).
Proof.
  unfold in_order, not_after. intros S B. rewrite window_after. split.
  - apply sorted_snoc; [now apply sorted_filter|].
    rewrite Forall_forall in *. intros y I. apply filter_In in I.
    apply B. tauto.
  - apply Forall_app. split.
    + rewrite Forall_forall in *. intros y I. apply filter_In in I.
      apply B. tauto.
    + constructor; [lia | constructor].
Qed.

Lemma not_after_later now now' st :
  now <= now' -> not_after now st -> not_after now' st.
Proof.
  unfold not_after. intros L B. rewrite Forall_forall in *.
  intros y I. specialize (B y I). lia.
Qed.

Lemma admit_all_cons c now rest st :
  fst (admit_all c (now :: rest) st)
  = fst (applyRateLimit c now st)
    :: fst (admit_all c rest (snd (applyRateLimit c now st)))
  /\ snd (admit_all c (now :: rest) st)
     = snd (admit_all c rest (snd (applyRateLimit c now st))).
Proof.
  cbn [admit_all].
  destruct (applyRateLimit c now st) as [w st1].
  cbn [fst snd]. now destruct (admit_all c rest st1).
Qed.

(** X9: one call keeps the window ordered and within the last second.
    If the timestamps are in non-decreasing order and none is later than
    [now], then after a call entering at [now] they still are, every
    timestamp kept is less than 1000 ms old, and the entry the code reads
    as [requests[0]] is the oldest one kept. *)
Theorem rate_window_in_order (c : TrustAPIClient) (now : Z)
  (st : RateLimiterState) :
  in_order st -> not_after now st ->
  let st' := snd (applyRateLimit c now st) in
  in_order st'
  /\ (forall ts, In ts (requests st') -> now - 1000 < ts <= now)
  /\ (forall oldest rest,
        filter (fun ts => now - 1000 <? ts) (requests st) = oldest :: rest ->
        forall ts, In ts rest -> oldest <= ts).
Proof.
  intros S B st'. split; [|split].
  - now apply step_in_order.
  - intros ts I. unfold st' in I. rewrite window_after in I.
    apply in_app_or in I. destruct I as [I|[<-|[]]]; [|lia].
    apply filter_In in I. destruct I as [I L]. apply Z.ltb_lt in L.
    unfold not_after in B. rewrite Forall_forall in B.
    specialize (B ts I). lia.
  - intros oldest rest E ts I.
    pose proof (sorted_filter (fun ts => now - 1000 <? ts) _ S) as F.
    rewrite E in F. apply StronglySorted_inv in F. destruct F as [_ F].
    rewrite Forall_forall in F. now apply F.
Qed.

(** The theorem at a window of three timestamps, entered at 1200. *)
Lemma rate_window_in_order_witness :
  in_order {| requests := [100; 300; 900]; lastReset := 0 |}
  /\ not_after 1200 {| requests := [100; 300; 900]; lastReset := 0 |}
  /\ in_order (snd (applyRateLimit default_client 1200
                      {| requests := [100; 300; 900]; lastReset := 0 |})).
Proof.
  assert (S : in_order {| requests := [100; 300; 900]; lastReset := 0 |}).
  { unfold in_order. simpl.
    repeat (constructor; [|repeat (constructor; try lia)]). constructor. }
  assert (B : not_after 1200 {| requests := [100; 300; 900]; lastReset := 0 |}).
  { unfold not_after. simpl. repeat (constructor; try lia). }
  split; [exact S|]. split; [exact B|].
  apply (rate_window_in_order default_client 1200 _ S B).
Defined.

Lemma admit_all_no_wait c times : forall st,
  Z.of_nat (List.length (requests st)) + Z.of_nat (List.length times)
  <= rateLimitQPS c ->
  fst (admit_all c times st) = repeat None (List.length times).
Proof.
  induction times as [|now rest IH]; intros st L; [reflexivity|].
  destruct (admit_all_cons c now rest st) as [-> _].
  pose proof (filter_length_le (fun ts => now - 1000 <? ts) (requests st)) as F.
  cbn [List.length] in L.
  assert (W : fst (applyRateLimit c now st) = None).
  { unfold applyRateLimit. cbn [fst].
    destruct (Z.leb_spec (rateLimitQPS c)
                (Z.of_nat (List.length
                   (filter (fun ts => now - 1000 <? ts) (requests st)))));
      [lia | reflexivity]. }
  rewrite W, IH; [reflexivity|].
  rewrite window_after, length_app. cbn [List.length]. lia.
Qed.

(** X10: a fresh window lets a burst through.  On a new limiter, any
    series of calls no longer than the configured ceiling passes without
    any delay, whatever the entry times. *)
Theorem fresh_window_admits_burst (c : TrustAPIClient) (times : list Z)
  (t0 : Z) :
  Z.of_nat (List.length times) <= rateLimitQPS c ->
  fst (admit_all c times (new_limiter t0)) = repeat None (List.length times).
Proof.
  intros L. apply admit_all_no_wait. simpl. lia.
Qed.

(** The theorem for the default client and ten calls within 9 ms. *)
Lemma fresh_window_admits_burst_witness :
  fst (admit_all default_client [0; 1; 2; 3; 4; 5; 6; 7; 8; 9] (new_limiter 0))
  = repeat None 10.
Proof.
  apply (fresh_window_admits_burst default_client [0; 1; 2; 3; 4; 5; 6; 7; 8; 9] 0).
  simpl. lia.
Defined.

(** X11: a call that finds the window full always waits, and never long.
    When the ceiling is at least 1, no timestamp is later than [now] and the
    count kept has reached the ceiling, the call sleeps for
    [oldest + 1010 - now] ms, which is more than 10 and at most 1010: it is
    let through exactly 1010 ms after the first timestamp kept. *)
Theorem full_window_wait_bounded (c : TrustAPIClient) (now : Z)
  (st : RateLimiterState) :
  1 <= rateLimitQPS c ->
  not_after now st ->
  rateLimitQPS c
  <= Z.of_nat (List.length (filter (fun ts => now - 1000 <? ts) (requests st))) ->
  exists oldest rest w,
    filter (fun ts => now - 1000 <? ts) (requests st) = oldest :: rest
    /\ fst (applyRateLimit c now st) = Some w
    /\ w = oldest + 1010 - now
    /\ 10 < w <= 1010
    /\ admitted_at now (Some w) = oldest + 1010.
Proof.
  intros Q B L. unfold applyRateLimit. cbn [fst].
  destruct (filter (fun ts => now - 1000 <? ts) (requests st))
    as [|oldest rest] eqn:E; [cbn [List.length] in L; lia|].
  assert (I : In oldest (filter (fun ts => now - 1000 <? ts) (requests st)))
    by (rewrite E; now left).
  apply filter_In in I. destruct I as [I O]. apply Z.ltb_lt in O.
  unfold not_after in B. rewrite Forall_forall in B. specialize (B _ I).
  exists oldest, rest, (oldest + 1010 - now).
  split; auto.
  destruct (Z.leb_spec (rateLimitQPS c) (Z.of_nat (List.length (oldest :: rest))));
    [|lia].
  destruct (Z.ltb_spec 0 (1000 - (now - oldest) + 10)); [|lia].
  split; [f_equal; lia|]. split; auto. split; [lia|].
  unfold admitted_at. lia.
Qed.

(** The theorem for the default client: ten timestamps at 0, entry at 400. *)
Lemma full_window_wait_bounded_witness :
  exists w, fst (applyRateLimit default_client 400 ten_at_zero) = Some w
            /\ 10 < w <= 1010.
Proof.
  destruct (full_window_wait_bounded default_client 400 ten_at_zero)
    as (oldest & rest & w & _ & H & _ & Bd & _).
  - simpl. lia.
  - unfold not_after, ten_at_zero. simpl. repeat (constructor; try lia).
  - simpl. lia.
  - exists w. split; assumption.
Defined.

End LimiterWindow.

(** ** ResilientTransport: outcomes and exhaustion *)

Module TransportOutcomes.
Import Client Transport Exchanges TransportFacts.
Local Open Scope list_scope.

Lemma verdict_stop c attempt o res :
  verdict c attempt o = inl res ->
  match res with
  | inr data =>
      exists status h, o = Response status h (Parsed data)
                       /\ response_ok status = true
  | inl e => is_api_error e
  end.
Proof.
  unfold verdict. destruct o as [status h b| |m].
  - destruct (status =? 429).
    + destruct (may_retry c attempt); [discriminate|].
      intros H. inversion H; subst. exact I.
    + destruct ((500 <=? status) && may_retry c attempt)%bool; [discriminate|].
      destruct b as [data|m].
      * destruct (response_ok status) eqn:Ok.
        -- intros H. inversion H; subst. now exists status, h.
        -- destruct data; try (intros H; inversion H; subst; exact I).
           destruct (may_retry c attempt); [discriminate|].
           intros H. inversion H; subst. exact I.
      * destruct (may_retry c attempt); [discriminate|].
        intros H. inversion H; subst. exact I.
  - intros H. inversion H; subst. exact I.
  - destruct (may_retry c attempt); [discriminate|].
    intros H. inversion H; subst. exact I.
Qed.

Lemma verdict_ok c attempt status h data :
  response_ok status = true ->
  verdict c attempt (Response status h (Parsed data)) = inl (inr data).
Proof.
  intros Ok. unfold verdict. unfold response_ok in Ok.
  apply andb_prop in Ok. destruct Ok as [Lo Hi].
  apply Z.leb_le in Lo. apply Z.leb_le in Hi.
  destruct (Z.eqb_spec status 429); [lia|].
  destruct (Z.leb_spec 500 status); [lia|]. simpl.
  unfold response_ok.
  destruct (Z.leb_spec 200 status); [|lia].
  destruct (Z.leb_spec status 299); [|lia]. reflexivity.
Qed.

(** X12: the transport returns data only from a 2xx answer with a JSON
    body, and every failure it reports is a [TrustAPIError].  A call whose
    first answer is such a 2xx returns its body after one attempt and no
    sleep; conversely, when a call returns data, its last attempt was
    answered by a 2xx whose parsed body is that data; and an error outcome is
    never a [TypeError]. *)
Theorem transport_outcomes (c : TrustAPIClient) (net : nat -> fetch_outcome) :
  (forall status h data,
     net 1%nat = Response status h (Parsed data) -> response_ok status = true ->
     makeRequest c net
     = Some {| outcome := inr data; attempts := 1; sleeps := [] |})
  /\ (forall r data,
        makeRequest c net = Some r -> outcome r = inr data ->
        exists status h,
          net (attempts r) = Response status h (Parsed data)
          /\ response_ok status = true)
  /\ (forall r e,
        makeRequest c net = Some r -> outcome r = inl e -> is_api_error e).
Proof.
  split; [|split].
  - intros status h data N Ok. unfold makeRequest.
    rewrite makeRequest_from_unfold, N, verdict_ok by assumption. reflexivity.
  - intros r data H O. unfold makeRequest in H.
    destruct (makeRequest_from_trace c net _ _ _ H) as (A & V & _).
    rewrite O in V. apply verdict_stop in V. now rewrite A.
  - intros r e H O. unfold makeRequest in H.
    destruct (makeRequest_from_trace c net _ _ _ H) as (_ & V & _).
    rewrite O in V. now apply verdict_stop in V.
Qed.

(** The theorem for the default client and a 201 answered at once. *)
Lemma transport_outcomes_witness :
  makeRequest default_client (fun _ => Response 201 None (Parsed (JNum 7)))
  = Some {| outcome := inr (JNum 7); attempts := 1; sleeps := [] |}.
Proof.
  destruct (transport_outcomes default_client
              (fun _ => Response 201 None (Parsed (JNum 7)))) as [First _].
  apply (First 201 None (JNum 7)); reflexivity.
Defined.

Lemma verdict_transient c attempt o :
  transient o -> may_retry c attempt = true ->
  exists delay, verdict c attempt o = inr delay.
Proof.
  intros T R. unfold verdict. destruct o as [status h b| |m]; simpl in T.
  - destruct (Z.eqb_spec status 429).
    + rewrite R. eexists. reflexivity.
    + destruct T as [T|T]; [congruence|].
      rewrite R. destruct (Z.leb_spec 500 status); [|lia].
      eexists. reflexivity.
  - destruct T.
  - rewrite R. eexists. reflexivity.
Qed.

Lemma may_retry_within c a :
  (1 <= a <= Z.to_nat (maxRetries c))%nat -> may_retry c a = true.
Proof. intros B. unfold may_retry. apply Z.leb_le. lia. Qed.

Lemma may_retry_beyond c a :
  (Z.to_nat (maxRetries c) < a)%nat -> may_retry c a = false.
Proof. intros B. unfold may_retry. apply Z.leb_gt. lia. Qed.

Lemma exhaust c net :
  (forall n, transient (net n)) ->
  forall k a,
    (1 <= a)%nat -> (a + k = S (Z.to_nat (maxRetries c)))%nat ->
    exists r, makeRequest_from c net (S k) a = Some r
              /\ attempts r = S k
              /\ verdict c (S (Z.to_nat (maxRetries c)))
                         (net (S (Z.to_nat (maxRetries c))))
                 = inl (outcome r).
Proof.
  intros T. induction k as [|k IH]; intros a A E.
  - rewrite makeRequest_from_unfold.
    assert (Ea : a = S (Z.to_nat (maxRetries c))) by lia. subst a.
    destruct (verdict_final c (S (Z.to_nat (maxRetries c)))
                (net (S (Z.to_nat (maxRetries c)))))
      as [o O]; [apply may_retry_beyond; lia|].
    rewrite O. eexists. split; [reflexivity|]. simpl. auto.
  - rewrite makeRequest_from_unfold.
    destruct (verdict_transient c a (net a) (T a)) as [d D];
      [apply may_retry_within; lia|].
    rewrite D. destruct (IH (S a)) as (r & H & At & V); [lia | lia |].
    rewrite H. eexists. split; [reflexivity|]. simpl. split; auto.
Qed.

(** X13: retries are used up exactly.  When every attempt meets a
    transient failure (a 429, a 5xx or a network fault), the call makes
    [maxRetries + 1] attempts (one when [maxRetries] is not positive) and
    fails; if the last answer is a 429 the error is [Rate limit exceeded],
    code 1001, HTTP status 429, and if it is a network fault the error
    carries the fault's message, no code and no status. *)
Theorem transient_failures_exhaust_retries (c : TrustAPIClient)
  (net : nat -> fetch_outcome) :
  (forall n, transient (net n)) ->
  let final := S (Z.to_nat (maxRetries c)) in
  exists r e,
    makeRequest c net = Some r
    /\ attempts r = final
    /\ outcome r = inl e
    /\ (forall h b, net final = Response 429 h b ->
          e = api_error "Rate limit exceeded" (Some 1001) (Some 429))
    /\ (forall m, net final = Fault m -> m <> EmptyString ->
          e = api_error m None None).
Proof.
  intros T final.
  destruct (exhaust c net T (Z.to_nat (maxRetries c)) 1) as (r & H & A & V);
    [lia | lia |].
  fold final in V.
  assert (R : may_retry c final = false) by (apply may_retry_beyond; unfold final; lia).
  destruct (outcome r) as [e|data] eqn:O.
  - exists r, e. split; [exact H|]. split; [exact A|]. split; [exact O|].
    split.
    + intros h b N. rewrite N in V. unfold verdict in V. simpl in V.
      rewrite R in V. now inversion V.
    + intros m N Ne. rewrite N in V. unfold verdict in V. rewrite R in V.
      destruct (String.eqb_spec m ""); [congruence|]. now inversion V.
  - exfalso. apply verdict_stop in V. destruct V as (status & h & N & Ok).
    specialize (T final). rewrite N in T. simpl in T.
    unfold response_ok in Ok. apply andb_prop in Ok. destruct Ok as [Lo Hi].
    apply Z.leb_le in Lo. apply Z.leb_le in Hi. lia.
Qed.

(** The theorem for the default client against a server that always
    answers 429: four attempts, then the rate-limit error. *)
Lemma transient_failures_exhaust_retries_witness :
  exists r,
    makeRequest default_client always_429 = Some r
    /\ attempts r = 4%nat
    /\ outcome r = inl (api_error "Rate limit exceeded" (Some 1001) (Some 429)).
Proof.
  destruct (transient_failures_exhaust_retries default_client always_429)
    as (r & e & H & A & O & L & _).
  - intros n. simpl. left. reflexivity.
  - exists r. split; [exact H|]. split; [exact A|].
    rewrite O. f_equal. apply (L None (Parsed (JObj []))). reflexivity.
Defined.

End TransportOutcomes.

(** ** ResilientTransport: client errors and total backoff *)

Module TransportBackoff.
Import Client Transport Exchanges Networks TransportFacts.
Local Open Scope list_scope.

Lemma verdict_readable c attempt status h data :
  status <> 429 -> status < 500 -> response_ok status = false ->
  data <> JNull ->
  verdict c attempt (Response status h (Parsed data))
  = inl (inl (http_error status data)).
Proof.
  intros N L Ok D. unfold verdict.
  destruct (Z.eqb_spec status 429); [contradiction|].
  destruct (Z.leb_spec 500 status); [lia|]. simpl. rewrite Ok.
  destruct data; try reflexivity. contradiction.
Qed.

Lemma verdict_unreadable c attempt status h b :
  status <> 429 -> status < 500 ->
  (forall data, b = Parsed data -> response_ok status = false) ->
  ~ readable b -> may_retry c attempt = true ->
  verdict c attempt (Response status h b) = inr (backoff c attempt).
Proof.
  intros N L Ok U R. unfold verdict.
  destruct (Z.eqb_spec status 429); [contradiction|].
  destruct (Z.leb_spec 500 status); [lia|]. simpl.
  destruct b as [data|m].
  - rewrite (Ok data eq_refl).
    destruct data; simpl in U; try (exfalso; apply U; exact I).
    now rewrite R.
  - now rewrite R.
Qed.

(** X14: a 4xx answer (other than 429) is final exactly when its body can
    be read.  With a JSON body other than [null] the call stops after that
    one attempt with an error that carries the HTTP status, the body's
    [code], and the body's [message] when it is truthy (otherwise
    [HTTP <status>]).  With a body that is [null] or not JSON, reading it
    throws inside the [try], so while a retry is left the call sleeps
    [retryDelay * 1] and tries again; a body that is not JSON is retried in
    this way even on a 2xx answer. *)
Theorem client_error_final_iff_readable (c : TrustAPIClient)
  (net : nat -> fetch_outcome) (status : Z) (h : option string) (b : body) :
  net 1%nat = Response status h b ->
  status <> 429 -> status < 500 ->
  (forall data, b = Parsed data -> response_ok status = false) ->
  1 <= maxRetries c ->
  exists r,
    makeRequest c net = Some r
    /\ (attempts r = 1%nat <-> readable b)
    /\ (forall data, b = Parsed data -> data <> JNull ->
          outcome r = inl (http_error status data))
    /\ (~ readable b -> hd_error (sleeps r) = Some (Some (retryDelay c * 1))).
Proof.
  intros N S429 S500 Ok M. unfold makeRequest.
  rewrite makeRequest_from_unfold, N.
  assert (Dec : readable b \/ ~ readable b).
  { destruct b as [[]|]; simpl; tauto. }
  destruct Dec as [Rd|Un].
  - destruct b as [data|m]; [|destruct Rd].
    assert (D : data <> JNull) by (intros ->; exact Rd).
    rewrite verdict_readable by eauto.
    eexists. split; [reflexivity|]. simpl. split; [tauto|]. split.
    + intros data' E _. now inversion E.
    + intros U. now destruct U.
  - rewrite verdict_unreadable; auto;
      [|unfold may_retry; apply Z.leb_le; lia].
    destruct (makeRequest_from_total c net (Z.to_nat (maxRetries c)) 2)
      as [r' H']; [lia | lia |].
    rewrite H'. eexists. split; [reflexivity|]. simpl. split; [|split].
    + split; [|tauto]. intros A.
      destruct (makeRequest_from_trace c net _ _ _ H') as (A' & _). lia.
    + intros data E D. subst b. exfalso. apply Un.
      destruct data; simpl; auto.
    + reflexivity.
Qed.

(** The theorem for the default client and a 404 with a JSON body: one
    attempt, and the error of the body. *)
Lemma client_error_final_iff_readable_witness :
  exists r,
    makeRequest default_client always_404 = Some r
    /\ attempts r = 1%nat
    /\ outcome r
       = inl (TrustAPIError (Some (JStr "not found")) (Some (JNum 2006))
                            (Some 404)).
Proof.
  destruct (client_error_final_iff_readable default_client always_404 404 None
              (Parsed (JObj [("message", JStr "not found");
                             ("code", JNum 2006)])))
    as (r & H & A & O & _).
  - reflexivity.
  - discriminate.
  - reflexivity.
  - intros data _. reflexivity.
  - simpl. lia.
  - exists r. split; [exact H|]. split.
    + apply A. exact I.
    + rewrite (O _ eq_refl); [reflexivity | discriminate].
Defined.

Lemma nth_error_determines {A} (f : nat -> A) :
  forall (l : list A) (start : nat),
    (forall i x, nth_error l i = Some x -> x = f (start + i)%nat) ->
    l = map f (seq start (List.length l)).
Proof.
  induction l as [|x l IH]; intros start H; [reflexivity|].
  simpl. f_equal.
  - rewrite (H 0%nat x eq_refl). f_equal. lia.
  - apply IH. intros i y E. rewrite (H (S i) y E). f_equal. lia.
Qed.

Lemma total_linear d : forall n start,
  2 * total_sleep (map (fun i => Some (d * Z.of_nat i)) (seq start n))
  = d * Z.of_nat n * (2 * Z.of_nat start + Z.of_nat n - 1).
Proof.
  induction n as [|n IH]; intros start.
  - simpl. lia.
  - cbn [seq map total_sleep fold_right].
    fold (total_sleep (map (fun i => Some (d * Z.of_nat i)) (seq (S start) n))).
    specialize (IH (S start)). nia.
Qed.

(** X15: the backoff of a whole call in closed form.  When no 429 carries
    a Retry-After header, a call that has slept [n] times has slept
    [retryDelay * 1, ..., retryDelay * n] in this order, [n] is at most
    [maxRetries], and the total is [retryDelay * n * (n + 1) / 2]. *)
Theorem backoff_total_closed_form (c : TrustAPIClient)
  (net : nat -> fetch_outcome) (r : transport_result) :
  no_retry_after net ->
  makeRequest c net = Some r ->
  let n := List.length (sleeps r) in
  sleeps r = linear_sleeps c n
  /\ (n = 0%nat \/ Z.of_nat n <= maxRetries c)
  /\ 2 * total_sleep (sleeps r) = retryDelay c * Z.of_nat n * (Z.of_nat n + 1).
Proof.
  intros NR H n. unfold makeRequest in H.
  destruct (makeRequest_from_trace c net _ _ _ H) as (_ & _ & Sl).
  assert (L : sleeps r = linear_sleeps c n).
  { unfold linear_sleeps, n. apply nth_error_determines.
    intros i delay E. apply Sl in E. apply verdict_retry in E.
    destruct E as (_ & _ & [E|(h & b & E & Ne)]); [exact E|].
    apply NR in E. contradiction. }
  split; [exact L|]. split.
  - destruct n as [|k] eqn:En; [now left|right].
    assert (E : exists delay, nth_error (sleeps r) k = Some delay).
    { destruct (nth_error (sleeps r) k) eqn:Nk; [eauto|].
      apply nth_error_None in Nk. fold n in Nk. lia. }
    destruct E as [delay E]. apply Sl in E. apply verdict_retry in E.
    destruct E as (R & _). unfold may_retry in R. apply Z.leb_le in R. lia.
  - rewrite L at 1. unfold linear_sleeps. rewrite total_linear. lia.
Qed.

(** The theorem for the default client when two 503 answers precede the
    200: the sleeps are 1000 and 2000 ms, 3000 ms in all. *)
Lemma backoff_total_closed_form_witness :
  exists r,
    makeRequest default_client two_503_then_200 = Some r
    /\ sleeps r = [Some 1000; Some 2000]
    /\ 2 * total_sleep (sleeps r) = 6000.
Proof.
  exists {| outcome := inr (JObj [("score", JNum 700)]);
            attempts := 3; sleeps := [Some 1000; Some 2000] |}.
  split; [reflexivity|].
  destruct (backoff_total_closed_form default_client two_503_then_200
              {| outcome := inr (JObj [("score", JNum 700)]);
                 attempts := 3; sleeps := [Some 1000; Some 2000] |})
    as (L & _ & T).
  - intros n h b E. unfold two_503_then_200 in E.
    destruct (n <? 3)%nat; discriminate.
  - reflexivity.
  - split; [exact L | exact T].
Defined.

End TransportBackoff.

(** ** ScoringClient facade: replies and the limiter *)

Module FacadeReplies.
Import Json Canonicalizer Client Limiter Transport Facade Exchanges Replies.
Import TransportFacts TransportOutcomes.
Local Open Scope list_scope.

Lemma check_response_ok data data' :
  check_response data = inr data' ->
  data' = data /\ data <> JNull
  /\ truthy_u (get_prop (Some data) "error") = false.
Proof.
  unfold check_response. intros H.
  destruct (truthy_u (get_prop (Some data) "error")) eqn:T.
  - destruct data; discriminate.
  - destruct data; try discriminate; inversion H; subst;
      (split; [reflexivity|]; split;
       [discriminate | first [exact T | reflexivity]]).
Qed.

Lemma check_response_error data :
  data <> JNull -> truthy_u (get_prop (Some data) "error") = true ->
  check_response data = inl (reply_error data).
Proof.
  intros N T. unfold check_response, reply_error.
  destruct data; try contradiction; now rewrite T.
Qed.

Lemma deliver_ok c net now st full r data :
  deliver c net now st full = Some r -> result r = inr data ->
  clean_reply r data.
Proof.
  unfold deliver. destruct (applyRateLimit c now st) as [w st'].
  destruct (makeRequest c net) as [tr|]; [|discriminate].
  intros H R. inversion H; subst; clear H. simpl in R.
  destruct (outcome tr) as [e|d] eqn:O; [discriminate|].
  apply check_response_ok in R. destruct R as (-> & N & T).
  exists tr. simpl. auto.
Qed.

Lemma deliver_window c net now st full r :
  deliver c net now st full = Some r ->
  requests (limiter r) = still_counted now st ++ [now]
  /\ network r = makeRequest c net.
Proof.
  unfold deliver, applyRateLimit.
  destruct (makeRequest c net) as [tr|]; [|discriminate].
  intros H. inversion H; subst; clear H. simpl. auto.
Qed.

Lemma deliver_returns c net now st full :
  exists r, deliver c net now st full = Some r.
Proof.
  unfold deliver. destruct (applyRateLimit c now st) as [w st'].
  destruct (makeRequest_total c net) as (tr & H & _). rewrite H. eauto.
Qed.

(** X16: a call only succeeds with a reply that reports no error.
    Whenever [scoreTransaction] or [sendFeedback] returns a value, that
    value is the JSON body the transport got back, it is not [null], its
    [error] member is falsy, and the local check had passed: the request
    broke no rule of [validateRequest], respectively it carried between 1
    and 1000 feedback items. *)
Theorem success_reply_has_no_error (c : TrustAPIClient)
  (net : nat -> fetch_outcome) (now : Z) (st : RateLimiterState) :
  (forall request r data,
     scoreTransaction c net now st request = Some r ->
     result r = inr data ->
     clean_reply r data /\ validateRequest (score_payload c request) = None)
  /\ (forall request r data,
        sendFeedback c net now st request = Some r ->
        result r = inr data ->
        clean_reply r data
        /\ (1 <= List.length (feedback_items request) <= 1000)%nat).
Proof.
  split.
  - intros request r data H R. unfold scoreTransaction in H.
    destruct (validateRequest (score_payload c request)) as [e|] eqn:V.
    + inversion H; subst. discriminate.
    + split; [|reflexivity]. eapply deliver_ok; eauto.
  - intros request r data H R. unfold sendFeedback in H.
    destruct (Z.eqb_spec (Z.of_nat (List.length (feedback_items request))) 0).
    + inversion H; subst. discriminate.
    + destruct (Z.ltb_spec 1000
                  (Z.of_nat (List.length (feedback_items request)))).
      * inversion H; subst. discriminate.
      * split; [eapply deliver_ok; eauto | lia].
Qed.

(** The theorem for a request with one email against a server that
    answers 200 with a score: the reply reports no error. *)
Lemma success_reply_has_no_error_witness :
  clean_reply
    {| result := inr (JObj [("score", JNum 700)]);
       limiter := {| requests := [5]; lastReset := 0 |};
       waited := None;
       sent := Some (score_payload default_client one_email);
       network := Some {| outcome := inr (JObj [("score", JNum 700)]);
                          attempts := 1; sleeps := [] |} |}
    (JObj [("score", JNum 700)]).
Proof.
  destruct (success_reply_has_no_error default_client
              (fun _ => Response 200 None (Parsed (JObj [("score", JNum 700)])))
              5 {| requests := []; lastReset := 0 |}) as [Score _].
  apply (Score one_email); reflexivity.
Defined.

(** X17: an error reported inside a 2xx reply fails the call at once.
    When the first answer to a valid score request is a 2xx whose JSON body
    has a truthy [error] member, [scoreTransaction] throws a
    [TrustAPIError] built from [error.message] and [error.code], without an
    HTTP status, after exactly one network attempt and no backoff. *)
Theorem reply_error_fails_without_retry (c : TrustAPIClient)
  (net : nat -> fetch_outcome) (now : Z) (st : RateLimiterState)
  (request : obj) (status : Z) (h : option string) (data : value) :
  validateRequest (score_payload c request) = None ->
  net 1%nat = Response status h (Parsed data) ->
  response_ok status = true ->
  data <> JNull ->
  truthy_u (get_prop (Some data) "error") = true ->
  exists r,
    scoreTransaction c net now st request = Some r
    /\ result r = inl (reply_error data)
    /\ network_attempts r = 1%nat
    /\ network r = Some {| outcome := inr data; attempts := 1; sleeps := [] |}.
Proof.
  intros V N Ok D T. unfold scoreTransaction. rewrite V.
  unfold deliver. destruct (applyRateLimit c now st) as [w st'].
  unfold makeRequest. rewrite makeRequest_from_unfold, N, verdict_ok by exact Ok.
  unfold finished. eexists. split; [reflexivity|].
  unfold network_attempts. simpl.
  rewrite check_response_error by assumption. auto.
Qed.

(** The theorem for a server that answers 200 with an error body. *)
Lemma reply_error_fails_without_retry_witness :
  exists r,
    scoreTransaction default_client always_rejected 5
      {| requests := []; lastReset := 0 |} one_email = Some r
    /\ result r
       = inl (TrustAPIError (Some (JStr "Invalid key")) (Some (JNum 1002)) None)
    /\ network_attempts r = 1%nat.
Proof.
  destruct (reply_error_fails_without_retry default_client always_rejected 5
              {| requests := []; lastReset := 0 |} one_email
              200 None rejected_reply)
    as (r & H & R & A & _); try reflexivity; [discriminate|].
  exists r. split; [exact H|]. split; [exact R | exact A].
Defined.

(** X18: retries do not pass through the rate limiter.  A valid score
    request always returns; it adds exactly one timestamp, the entry time,
    to the pruned window, whatever the network does; and when every attempt
    meets a transient failure the call makes [maxRetries + 1] network
    attempts for that single timestamp. *)
Theorem retries_bypass_rate_limiter (c : TrustAPIClient)
  (net : nat -> fetch_outcome) (now : Z) (st : RateLimiterState)
  (request : obj) :
  validateRequest (score_payload c request) = None ->
  exists r,
    scoreTransaction c net now st request = Some r
    /\ requests (limiter r) = still_counted now st ++ [now]
    /\ (1 <= network_attempts r)%nat
    /\ ((forall n, transient (net n)) ->
        network_attempts r = S (Z.to_nat (maxRetries c))).
Proof.
  intros V. unfold scoreTransaction. rewrite V.
  destruct (deliver_returns c net now st (score_payload c request)) as [r H].
  exists r. split; [exact H|].
  destruct (deliver_window _ _ _ _ _ _ H) as (W & N).
  split; [exact W|]. unfold network_attempts. rewrite N.
  destruct (makeRequest_total c net) as (tr & Htr & A). rewrite Htr.
  split; [exact A|]. intros T.
  destruct (exhaust c net T (Z.to_nat (maxRetries c)) 1) as (tr' & H' & A' & _);
    [lia | lia |].
  unfold makeRequest in Htr. rewrite Htr in H'. inversion H'; subst. exact A'.
Qed.

(** The theorem for the default client against a server that always
    answers 429: four network attempts, one timestamp. *)
Lemma retries_bypass_rate_limiter_witness :
  exists r,
    scoreTransaction default_client always_429 5
      {| requests := []; lastReset := 0 |} one_email = Some r
    /\ requests (limiter r) = [5]
    /\ network_attempts r = 4%nat.
Proof.
  destruct (retries_bypass_rate_limiter default_client always_429 5
              {| requests := []; lastReset := 0 |} one_email)
    as (r & H & W & _ & A); [reflexivity|].
  exists r. split; [exact H|]. split; [exact W|].
  apply A. intros n. simpl. left. reflexivity.
Defined.

End FacadeReplies.

(** ** RequestValidator: name, address and email *)

Module FieldFacts.
Import Types RequestValidator Fields.
Local Open Scope list_scope.

Lemma ts_length x : ts x = true -> (1 <= slen (str x))%nat.
Proof.
  destruct x as [s|]; simpl; [|discriminate].
  destruct s; simpl; [discriminate | intros _; unfold slen; simpl; lia].
Qed.

Lemma is_str_ts x s : s <> EmptyString -> is_str x s = true -> ts x = true.
Proof.
  destruct x as [y|]; simpl; [|discriminate].
  intros N E. apply String.eqb_eq in E. subst y.
  destruct (String.eqb_spec s ""); [contradiction | reflexivity].
Qed.

(** X19: whether a name passes, and a warning that is never given.  A
    name with a truthy [raw] is valid exactly when no other name field is
    truthy; without it, exactly when [first_name] and [last_name] are both
    truthy.  At most one Error is emitted, and the Warning about a first
    name shorter than one character is never emitted: it is tested only
    after [first_name] was found truthy. *)
Theorem name_valid_iff (name : NameObject.t) (path : string) :
  let r := run (validateName name path) in
  valid r
  = (if ts (NameObject.raw name) then negb (other_name_fields name)
     else (ts (NameObject.first_name name) && ts (NameObject.last_name name))%bool)
  /\ (List.length (errors r) <= 1)%nat
  /\ (forall w, In w (warnings r) -> message w <> first_name_warning).
Proof.
  unfold run, validateName, other_name_fields.
  destruct (ts (NameObject.raw name)).
  - destruct (ts (NameObject.first_name name) || ts (NameObject.last_name name)
              || ts (NameObject.middle_name name) || ts (NameObject.prefix name)
              || ts (NameObject.suffix name))%bool;
      destruct (Nat.ltb (slen (Str.trim (str (NameObject.raw name)))) 2);
      cbn; (split; [reflexivity|]; split; [lia|]);
      intros w [<-|[]] || intros w []; discriminate.
  - destruct (ts (NameObject.first_name name)) eqn:F; cbn [negb orb andb].
    + destruct (ts (NameObject.last_name name)) eqn:L; cbn [negb orb andb].
      * apply ts_length in F.
        destruct (Nat.ltb_spec (slen (str (NameObject.first_name name))) 1);
          [lia|].
        destruct (Nat.ltb (slen (str (NameObject.last_name name))) 2); cbn;
          (split; [reflexivity|]; split; [lia|]);
          intros w [<-|[]] || intros w []; discriminate.
      * cbn. split; [reflexivity|]. split; [lia|]. intros w [].
    + cbn. split; [reflexivity|]. split; [lia|]. intros w [].
Qed.

(** The theorem for a name with a first name only: not valid. *)
Lemma name_valid_iff_witness :
  valid (run (validateName (name_of None (Some "Jo") None) "name")) = false.
Proof.
  destruct (name_valid_iff (name_of None (Some "Jo") None) "name") as [V _].
  rewrite V. reflexivity.
Defined.

(** X20: for an address, unlike for a phone, an Error is never
    accompanied by a Warning.  At most one Error and at most two Warnings
    are emitted; an address with a truthy [raw] gets no Warning at all; and
    an address without [raw] is in error exactly when [country], [state],
    [zip_code] and [city] are all falsy. *)
Theorem address_error_excludes_warning (address : AddressObject.t)
  (path : string) :
  let r := run (validateAddress address path) in
  (List.length (errors r) <= 1)%nat
  /\ (List.length (warnings r) <= 2)%nat
  /\ (errors r <> [] -> warnings r = [])
  /\ (ts (AddressObject.raw address) = true -> warnings r = [])
  /\ (ts (AddressObject.raw address) = false ->
      valid r = (ts (AddressObject.country address)
                 || ts (AddressObject.state address)
                 || ts (AddressObject.zip_code address)
                 || ts (AddressObject.city address))%bool).
Proof.
  unfold run, validateAddress.
  destruct (ts (AddressObject.raw address)).
  - destruct (existsb ts _); cbn;
      (split; [lia|]; split; [lia|]; split; [reflexivity|];
       split; [reflexivity | discriminate]).
  - pose proof (is_str_ts (AddressObject.country address) "US") as US.
    destruct (ts (AddressObject.country address));
      destruct (is_str (AddressObject.country address) "US");
      try (exfalso; assert (false = true) by (apply US; [discriminate | reflexivity]);
           discriminate);
      clear US;
      destruct (ts (AddressObject.state address));
      destruct (ts (AddressObject.zip_code address));
      destruct (ts (AddressObject.city address));
      destruct (Nat.eqb (slen (str (AddressObject.country address))) 2);
      destruct (Nat.eqb (slen (str (AddressObject.state address))) 2);
      cbn;
      (split; [lia|]; split; [lia|]; split;
       [try reflexivity; intros E; now contradiction E|];
       split; [discriminate | reflexivity]).
Qed.

(** The theorem for an address with a city only: valid, one Warning. *)
Lemma address_error_excludes_warning_witness :
  valid (run (validateAddress (address_of None None None (Some "Paris"))
                              "address")) = true.
Proof.
  destruct (address_error_excludes_warning
              (address_of None None None (Some "Paris")) "address")
    as (_ & _ & _ & _ & V).
  rewrite V; reflexivity.
Defined.

End FieldFacts.

(** ** RequestValidator: email addresses and IP addresses *)

Module FormatFacts.
Import Types Pattern RequestValidator Fields Quads.
Local Open Scope list_scope.

Ltac each_char c := destruct c as [[] [] [] [] [] [] [] []]; reflexivity.

Lemma lower_local c : email_local (Str.lower c) = email_local c.
Proof. each_char c. Qed.

Lemma lower_domain c : email_domain (Str.lower c) = email_domain c.
Proof. each_char c. Qed.

Lemma lower_letter c : letter (Str.lower c) = letter c.
Proof. each_char c. Qed.

Lemma lower_at c : Ascii.eqb (Str.lower c) "@" = Ascii.eqb c "@".
Proof. each_char c. Qed.

Lemma lower_dot c : Ascii.eqb (Str.lower c) "." = Ascii.eqb c ".".
Proof. each_char c. Qed.

Lemma lower_all p s :
  (forall c, p (Str.lower c) = p c) -> all p (Str.toLowerCase s) = all p s.
Proof.
  intros P. induction s as [|c s IH]; simpl; [reflexivity|].
  now rewrite P, IH.
Qed.

Lemma lower_length s : String.length (Str.toLowerCase s) = String.length s.
Proof. induction s as [|c s IH]; simpl; congruence. Qed.

Lemma lower_cut_first s :
  cut_first "@" (Str.toLowerCase s) = option_map lower_pair (cut_first "@" s).
Proof.
  induction s as [|c s IH]; simpl; [reflexivity|].
  rewrite lower_at. destruct (Ascii.eqb c "@"); [reflexivity|].
  rewrite IH. now destruct (cut_first "@" s) as [[a b]|].
Qed.

Lemma lower_cut_last s :
  cut_last "." (Str.toLowerCase s) = option_map lower_pair (cut_last "." s).
Proof.
  induction s as [|c s IH]; simpl; [reflexivity|].
  rewrite IH. destruct (cut_last "." s) as [[a b]|]; simpl; [reflexivity|].
  rewrite lower_dot. now destruct (Ascii.eqb c ".").
Qed.

(** On strings of code units below 256 the pattern gives the same verdict
    before and after [toLowerCase]. *)
Lemma emailRegex_lower s : emailRegex (Str.toLowerCase s) = emailRegex s.
Proof.
  unfold emailRegex. rewrite lower_cut_first.
  destruct (cut_first "@" s) as [[local rest]|]; simpl; [|reflexivity].
  rewrite lower_cut_last.
  destruct (cut_last "." rest) as [[domain tld]|]; simpl; [|reflexivity].
  unfold len_in. rewrite !lower_length.
  rewrite (lower_all email_local), (lower_all email_domain), (lower_all letter);
    auto using lower_local, lower_domain, lower_letter.
Qed.

Lemma testEmails_match s : Str.mem s testEmails = true -> emailRegex s = true.
Proof.
  unfold Str.mem, testEmails. intros H. apply existsb_exists in H.
  destruct H as (t & I & E). apply String.eqb_eq in E. subst t.
  simpl in I. destruct I as [<-|[<-|[<-|[]]]]; reflexivity.
Qed.

(** X21: an address that is one of the test addresses in some
    capitalisation matches the email pattern, so for an email sub-field an
    Error is never accompanied by a Warning; at most one Error is emitted,
    and an email that draws the Warning is valid. *)
Theorem email_error_excludes_warning (email : EmailObject.t) (path : string) :
  let r := run (validateEmail email path) in
  (List.length (errors r) <= 1)%nat
  /\ (errors r <> [] -> warnings r = [])
  /\ (warnings r <> [] -> valid r = true).
Proof.
  unfold run, validateEmail.
  destruct (ts (EmailObject.address email)); cbn [negb].
  - pose proof (testEmails_match
                  (Str.toLowerCase (str (EmailObject.address email)))) as T.
    rewrite emailRegex_lower in T.
    destruct (emailRegex (str (EmailObject.address email)));
      destruct (Str.mem _ testEmails);
      try (assert (false = true) by (now apply T); discriminate);
      cbn; (split; [lia|]; split; intros E; try reflexivity; now contradiction E).
  - cbn. split; [lia|]. split; [reflexivity|]. intros E. now contradiction E.
Qed.

(** The theorem for a capitalised test address: a Warning and no Error. *)
Lemma email_error_excludes_warning_witness :
  valid (run (validateEmail (email_of (Some "Test@Test.COM")) "email")) = true.
Proof.
  destruct (email_error_excludes_warning (email_of (Some "Test@Test.COM"))
              "email") as (_ & _ & V).
  apply V. discriminate.
Defined.

Lemma parts_below_1000 : forallb part_ok (List.seq 0 1000) = true.
Proof. vm_compute. reflexivity. Qed.

Lemma part_facts n :
  (n < 1000)%nat ->
  len_in 1 3 (dec n) = true /\ all digit (dec n) = true
  /\ all (fun c => negb (Ascii.eqb c ".")) (dec n) = true
  /\ octet_ok (dec n) = Nat.leb n 255.
Proof.
  intros B. pose proof parts_below_1000 as P.
  rewrite forallb_forall in P.
  assert (I : In n (List.seq 0 1000)) by (apply in_seq; lia).
  apply P in I. unfold part_ok in I.
  apply andb_prop in I. destruct I as [I O].
  apply andb_prop in I. destruct I as [I D].
  apply andb_prop in I. destruct I as [L A].
  apply Bool.eqb_prop in O. auto.
Qed.

Lemma append_assoc (a b c : string) :
  ((a ++ b) ++ c = a ++ (b ++ c))%string.
Proof. induction a as [|x a IH]; simpl; congruence. Qed.

Lemma split_last s : forall cur,
  all (fun c => negb (Ascii.eqb c ".")) s = true ->
  split "." s cur = [(cur ++ s)%string].
Proof.
  induction s as [|c s IH]; intros cur A; simpl.
  - f_equal. induction cur as [|x cur IHc]; simpl; congruence.
  - simpl in A. apply andb_prop in A. destruct A as [N A].
    destruct (Ascii.eqb c "."); [discriminate|].
    rewrite IH by exact A. now rewrite append_assoc.
Qed.

Lemma split_part s rest : forall cur,
  all (fun c => negb (Ascii.eqb c ".")) s = true ->
  split "." (s ++ dot ++ rest)%string cur
  = (cur ++ s)%string :: split "." rest EmptyString.
Proof.
  induction s as [|c s IH]; intros cur A; simpl.
  - f_equal. induction cur as [|x cur IHc]; simpl; congruence.
  - simpl in A. apply andb_prop in A. destruct A as [N A].
    destruct (Ascii.eqb c "."); [discriminate|].
    rewrite IH by exact A. now rewrite append_assoc.
Qed.

Lemma split_quad a b c d :
  (a < 1000)%nat -> (b < 1000)%nat -> (c < 1000)%nat -> (d < 1000)%nat ->
  split "." (quad a b c d) EmptyString = [dec a; dec b; dec c; dec d].
Proof.
  intros A B C D. unfold quad.
  destruct (part_facts a A) as (_ & _ & Na & _).
  destruct (part_facts b B) as (_ & _ & Nb & _).
  destruct (part_facts c C) as (_ & _ & Nc & _).
  destruct (part_facts d D) as (_ & _ & Nd & _).
  rewrite !split_part by assumption. now rewrite split_last by assumption.
Qed.

(** X22: the IPv4 test on dotted quads.  For four numbers below 1000
    written in decimal, [isValidIP] accepts [a.b.c.d] exactly when each of
    them is at most 255: a string of the IPv4 shape is never handed on to
    the IPv6 pattern. *)
Theorem isValidIP_dotted_quad (a b c d : nat) :
  (a < 1000)%nat -> (b < 1000)%nat -> (c < 1000)%nat -> (d < 1000)%nat ->
  isValidIP (quad a b c d)
  = (Nat.leb a 255 && Nat.leb b 255 && Nat.leb c 255 && Nat.leb d 255)%bool.
Proof.
  intros A B C D. unfold isValidIP, ipv4Regex.
  rewrite split_quad by assumption.
  destruct (part_facts a A) as (La & Da & _ & Oa).
  destruct (part_facts b B) as (Lb & Db & _ & Ob).
  destruct (part_facts c C) as (Lc & Dc & _ & Oc).
  destruct (part_facts d D) as (Ld & Dd & _ & Od).
  cbn [List.length Nat.eqb forallb andb].
  rewrite La, Da, Lb, Db, Lc, Dc, Ld, Dd. cbn [andb].
  rewrite Oa, Ob, Oc, Od.
  now rewrite !Bool.andb_true_r, !Bool.andb_assoc.
Qed.

(** The theorem for 192.168.1.256: rejected. *)
Lemma isValidIP_dotted_quad_witness : isValidIP "192.168.1.256" = false.
Proof.
  apply (isValidIP_dotted_quad 192 168 1 256); lia.
Defined.

End FormatFacts.

(** ** RequestValidator: CPF numbers and requests without data *)

Module RequestFacts.
Import Types Pattern RequestValidator Requests.
Local Open Scope list_scope.

Lemma keep_append p (a b : string) :
  keep p (a ++ b)%string = (keep p a ++ keep p b)%string.
Proof.
  induction a as [|c a IH]; simpl; [reflexivity|].
  destruct (p c); simpl; now rewrite IH.
Qed.

Lemma keep_all p s : all p s = true -> keep p s = s.
Proof.
  induction s as [|c s IH]; simpl; [reflexivity|].
  intros A. apply andb_prop in A. destruct A as [C A].
  rewrite C. now rewrite IH.
Qed.

(** X23: what the CPF test looks at.  A character that is not a digit
    changes nothing wherever it stands, and the check digits are not
    verified: eleven digits of which the first two differ are accepted
    whatever the other nine are. *)
Theorem isValidCPF_digits_only :
  (forall (a b : string) (c : ascii),
     digit c = false ->
     isValidCPF (a ++ String c b) = isValidCPF (a ++ b))
  /\ (forall (d1 d2 : ascii) (rest : string),
        digit d1 = true -> digit d2 = true -> d1 <> d2 ->
        all digit rest = true -> String.length rest = 9%nat ->
        isValidCPF (String d1 (String d2 rest)) = true).
Proof.
  split.
  - intros a b c D. unfold isValidCPF. rewrite !keep_append. simpl.
    now rewrite D.
  - intros d1 d2 rest D1 D2 N A L. unfold isValidCPF.
    rewrite keep_all by (simpl; now rewrite D1, D2, A).
    unfold slen. simpl. rewrite L. simpl. rewrite D1. simpl.
    unfold exactly at 1.
    destruct (Ascii.eqb_spec d2 d1); [congruence | reflexivity].
Qed.

(** The theorem for a formatted number: the punctuation is ignored. *)
Lemma isValidCPF_digits_only_witness :
  isValidCPF "123.456.789-09" = isValidCPF "123456.789-09".
Proof.
  destruct isValidCPF_digits_only as [Skip _].
  apply (Skip "123" "456.789-09" "."%char). reflexivity.
Defined.

Lemma no_data_fields request :
  hasDataField request = false ->
  TrustRequest.name request = None /\ TrustRequest.email request = None
  /\ TrustRequest.phone request = None /\ TrustRequest.address request = None
  /\ TrustRequest.device request = None /\ TrustRequest.person request = None
  /\ TrustRequest.personal_identifier request = None
  /\ TrustRequest.account request = None /\ TrustRequest.billing request = None
  /\ TrustRequest.shipping request = None.
Proof.
  unfold hasDataField. intros H.
  repeat (apply Bool.orb_false_elim in H; destruct H as [H ?]).
  repeat match goal with
         | P : present ?x = false |- _ =>
             destruct x; [discriminate P | clear P]
         end.
  repeat split; reflexivity.
Qed.

(** X24: a request without data fields.  When none of the data fields is
    present, [validateRequest] reports exactly the finding about the action
    (none when the action has a truthy type) followed by the finding
    [At least one data field is required], and no Warning; the request is
    not valid. *)
Theorem request_without_data (request : TrustRequest.t) :
  hasDataField request = false ->
  let r := validateRequest request in
  errors r = action_findings request ++ [data_finding]
  /\ warnings r = []
  /\ valid r = false.
Proof.
  intros H. destruct (no_data_fields request H)
    as (N & E & P & A & D & Pe & Pi & Ac & B & S).
  unfold validateRequest, request_checks, action_findings.
  rewrite H, N, E, P, A, D, Pe, Pi, Ac, B, S.
  destruct (TrustRequest.action request) as [action|]; cbn.
  - destruct (ts (ActionObject.type action)); cbn; auto.
  - auto.
Qed.

(** The theorem for the request without any member: two Errors. *)
Lemma request_without_data_witness :
  List.length (errors (validateRequest empty_request)) = 2%nat.
Proof.
  destruct (request_without_data empty_request) as (E & _); [reflexivity|].
  rewrite E. reflexivity.
Defined.

End RequestFacts.

(** ** Insights: risk level, issues and recommendations *)

Module InsightFacts.
Import Insights.
Local Open Scope list_scope.

Lemma measured_skip : measured (fun n => n).
Proof.
  exists [], []. split; [simpl; lia|].
  intros [i r]. simpl. now rewrite !app_nil_r.
Qed.

Lemma measured_compose f g :
  measured f -> measured g -> measured (fun n => g (f n)).
Proof.
  intros (di & dr & L & F) (di' & dr' & L' & G).
  exists (di ++ di'), (dr ++ dr'). split.
  - rewrite !length_app. lia.
  - intros n. rewrite G, F. simpl. now rewrite !app_assoc.
Qed.

Lemma measured_flag b i r : measured (flag b i r).
Proof.
  destruct b; [|apply measured_skip].
  exists [i], [r]. split; [simpl; lia|]. intros n. reflexivity.
Qed.

Lemma measured_remark b i : measured (remark b i).
Proof.
  destruct b; [|apply measured_skip].
  exists [i], []. split; [simpl; lia|].
  intros n. unfold remark, issue. simpl. now rewrite app_nil_r.
Qed.

Lemma measured_with {T} (s : option T) body :
  (forall x, measured (body x)) -> measured (with_signals s body).
Proof. intros B. destruct s; [apply B | apply measured_skip]. Qed.

Lemma measured_checkEmail s : measured (checkEmail s).
Proof.
  unfold checkEmail.
  apply (measured_compose (flag _ _ _) (remark _ _));
    [apply measured_flag | apply measured_remark].
Qed.

Lemma measured_checkPhone s : measured (checkPhone s).
Proof.
  unfold checkPhone.
  apply (measured_compose (flag _ _ _) (remark _ _));
    [apply measured_flag | apply measured_remark].
Qed.

Lemma measured_checkIP s : measured (checkIP s).
Proof.
  unfold checkIP.
  apply (measured_compose (fun n => flag _ _ _ (flag _ _ _ n)) (flag _ _ _));
    [|apply measured_flag].
  apply (measured_compose (flag _ _ _) (flag _ _ _)); apply measured_flag.
Qed.

Lemma measured_checkAddress s : measured (checkAddress s).
Proof.
  unfold checkAddress.
  apply (measured_compose (flag _ _ _) (flag _ _ _)); apply measured_flag.
Qed.

Lemma measured_analyzeFieldSignals response :
  measured (analyzeFieldSignals response).
Proof.
  unfold analyzeFieldSignals.
  repeat first
    [ apply (measured_compose
               (fun n => with_signals _ _ (with_signals _ _ (with_signals _ _ n)))
               (with_signals _ _))
    | apply (measured_compose
               (fun n => with_signals _ _ (with_signals _ _ n))
               (with_signals _ _))
    | apply (measured_compose (with_signals _ _) (with_signals _ _))
    | apply measured_with; intros;
      first [ apply measured_checkEmail | apply measured_checkPhone
            | apply measured_checkIP | apply measured_checkAddress ] ].
Qed.

(** X25: the findings of [analyzeResponse].  The risk level is a function
    of the score alone: high below 300, medium from 300 to 599, low from
    600 on.  Whatever the signals are, there are never more
    recommendations than issues, and a level other than low comes with at
    least one issue and one recommendation, the ones about the score,
    first in their lists. *)
Theorem analyzeResponse_levels (response : TrustResponse) :
  let a := analyzeResponse response in
  (riskLevel a = high <-> score response < 300)
  /\ (riskLevel a = medium <-> 300 <= score response < 600)
  /\ (riskLevel a = low <-> 600 <= score response)
  /\ (List.length (recommendations (found a))
      <= List.length (issues (found a)))%nat
  /\ (riskLevel a <> low ->
      exists i r more_i more_r,
        issues (found a) = i :: more_i
        /\ recommendations (found a) = r :: more_r
        /\ (i = "Very low trust score indicates high risk"%string
            <-> riskLevel a = high)).
Proof.
  unfold analyzeResponse. cbn [riskLevel found].
  destruct (measured_analyzeFieldSignals response) as (di & dr & L & F).
  destruct (measured_remark (Nat.ltb 0 (warning_count response))
              (NilZero.string_of_uint (Nat.to_uint (warning_count response))
               ++ " warning(s) in response")) as (wi & wr & Lw & W).
  rewrite F, W. cbn [issues recommendations].
  destruct (Z.ltb_spec (score response) 300) as [A|A].
  - split; [split; [lia | reflexivity]|].
    split; [split; [discriminate | lia]|].
    split; [split; [discriminate | lia]|].
    split; [cbn; rewrite !length_app; simpl; lia|].
    intros _. cbn. do 4 eexists. split; [reflexivity|].
    split; [reflexivity|]. split; reflexivity.
  - destruct (Z.ltb_spec (score response) 600) as [B|B].
    + split; [split; [discriminate | lia]|].
      split; [split; [lia | reflexivity]|].
      split; [split; [discriminate | lia]|].
      split; [cbn; rewrite !length_app; simpl; lia|].
      intros _. cbn. do 4 eexists. split; [reflexivity|].
      split; [reflexivity|]. split; discriminate.
    + split; [split; [discriminate | lia]|].
      split; [split; [discriminate | lia]|].
      split; [split; [lia | reflexivity]|].
      split; [cbn; rewrite !length_app; lia|].
      intros N. now contradiction N.
Qed.

(** The theorem for a score of 450 and no signals: medium. *)
Lemma analyzeResponse_levels_witness :
  riskLevel (analyzeResponse (response_of 450 None None)) = medium.
Proof.
  destruct (analyzeResponse_levels (response_of 450 None None))
    as (_ & M & _).
  apply M. simpl. lia.
Defined.

Lemma with_shipping_fields response ship :
  emailSignals (with_shipping response ship) = emailSignals response
  /\ phoneSignals (with_shipping response ship) = phoneSignals response
  /\ ipSignals (with_shipping response ship) = ipSignals response.
Proof. repeat split. Qed.

(** X26: which address signals are looked at.  The signals of the billing
    address, when there are any, hide those of the shipping address: the
    analysis is the same whatever the shipping data is.  And signals
    without an [is_valid] member count as an invalid address. *)
Theorem billing_signals_hide_shipping (response : TrustResponse)
  (s : AddressTrustSignals) :
  signals_of (through (billing response) address) = Some s ->
  (forall ship,
     analyzeResponse (with_shipping response ship) = analyzeResponse response)
  /\ (is_valid s = None ->
      In "Invalid address provided"%string
         (issues (found (analyzeResponse response)))).
Proof.
  intros B. split.
  - intros ship. unfold analyzeResponse, analyzeFieldSignals.
    destruct (with_shipping_fields response ship) as (E & P & I).
    rewrite E, P, I.
    replace (addressSignals (with_shipping response ship))
      with (addressSignals response);
      [reflexivity|].
    unfold addressSignals. cbn [billing with_shipping]. now rewrite B.
  - intros V. unfold analyzeResponse, analyzeFieldSignals. cbn [found].
    unfold addressSignals. rewrite B. cbn [or_else with_signals].
    unfold checkAddress. rewrite V. cbn [truthy_flag negb].
    set (before := with_signals (ipSignals response) checkIP _).
    assert (Inv : In "Invalid address provided"%string
                     (issues (flag true "Invalid address provided"
                                "Verify address before processing" before))).
    { cbn. apply in_or_app. right. now left. }
    destruct (truthy_flag (is_freight_forward s)); cbn [flag].
    + cbn [recommend issue issues]. apply in_or_app. left. exact Inv.
    + exact Inv.
Qed.

(** The theorem for billing signals without [is_valid] and shipping
    signals that say the address is valid. *)
Lemma billing_signals_hide_shipping_witness :
  In "Invalid address provided"%string
     (issues (found (analyzeResponse
        (response_of 700
           (Some {| is_valid := None; is_freight_forward := None |})
           (Some {| is_valid := Some true; is_freight_forward := None |}))))).
Proof.
  destruct (billing_signals_hide_shipping
              (response_of 700
                 (Some {| is_valid := None; is_freight_forward := None |})
                 (Some {| is_valid := Some true; is_freight_forward := None |}))
              {| is_valid := None; is_freight_forward := None |})
    as (_ & V); [reflexivity|].
  apply V. reflexivity.
Defined.

End InsightFacts.

(** ** The analysis tools: risk levels and connectivity counts *)

Module AnalysisFacts.
Import Analysis.
Local Open Scope list_scope.

Lemma getRiskLevel_rank score :
  risk_rank (getRiskLevel score)
  = if 800 <=? score then 0%nat
    else if 600 <=? score then 1%nat
    else if 400 <=? score then 2%nat
    else if 200 <=? score then 3%nat
    else 4%nat.
Proof.
  unfold getRiskLevel.
  destruct (800 <=? score); [reflexivity|].
  destruct (600 <=? score); [reflexivity|].
  destruct (400 <=? score); [reflexivity|].
  destruct (200 <=? score); reflexivity.
Qed.

Ltac by_thresholds s :=
  destruct (Z.leb_spec 800 s); destruct (Z.leb_spec 600 s);
  destruct (Z.leb_spec 400 s); destruct (Z.leb_spec 200 s).

(** X27: the risk levels of the analysis tool.  [getRiskLevel] never
    calls a higher score riskier; [interpretScore] changes its answer at
    the same scores; the tool reports no issue about the score exactly when
    the level is [low] or [very_low]; but its two issue texts are cut at
    300 and not at 400 or 200, so the level [high] comes with the text about
    a moderate score exactly for the scores from 300 to 399. *)
Theorem risk_levels_of_scores (s t : Z) :
  (s <= t -> (risk_rank (getRiskLevel t) <= risk_rank (getRiskLevel s))%nat)
  /\ (getRiskLevel s = getRiskLevel t <-> interpretScore s = interpretScore t)
  /\ (score_issue s = None <-> (risk_rank (getRiskLevel s) <= 1)%nat)
  /\ (getRiskLevel s = "high"%string
      /\ score_issue s = Some "Moderate trust score - some risk indicators"%string
      <-> 300 <= s < 400).
Proof.
  split; [|split; [|split]].
  - intros L. rewrite !getRiskLevel_rank.
    by_thresholds s; by_thresholds t; lia.
  - unfold getRiskLevel, interpretScore.
    by_thresholds s; by_thresholds t; try lia;
      split; intros E; first [reflexivity | discriminate E].
  - rewrite getRiskLevel_rank. unfold score_issue.
    destruct (Z.ltb_spec s 300); destruct (Z.ltb_spec s 600);
      by_thresholds s; try lia; split; intros E;
      first [reflexivity | discriminate E | lia].
  - unfold getRiskLevel, score_issue.
    destruct (Z.ltb_spec s 300); destruct (Z.ltb_spec s 600);
      by_thresholds s; try lia; split;
      first [ intros [E1 E2]; first [discriminate E1 | discriminate E2 | lia]
            | intros E; first [lia | split; reflexivity] ].
Qed.

(** The theorem for the scores 350 and 450: the higher one is not
    riskier. *)
Lemma risk_levels_of_scores_witness :
  (risk_rank (getRiskLevel 450) <= risk_rank (getRiskLevel 350))%nat.
Proof.
  destruct (risk_levels_of_scores 350 450) as (M & _).
  apply M. lia.
Defined.

Lemma filter_count {A} (p : A -> bool) (l : list A) :
  List.length (filter p l) = list_sum (map (fun x => Nat.b2n (p x)) l).
Proof.
  induction l as [|x l IH]; simpl; [reflexivity|].
  destruct (p x); simpl; now rewrite IH.
Qed.

Lemma list_sum_cons (x : nat) (l : list nat) :
  list_sum (x :: l) = (x + list_sum l)%nat.
Proof. reflexivity. Qed.

Lemma summary_counts threshold connections :
  let s := connectivity_summary threshold connections in
  (strong s + moderate s + weak s + no_data s)%nat
  = list_sum (map (times_counted threshold) connections).
Proof.
  unfold connectivity_summary, strongConnections, moderateConnections,
    weakConnections, noData. cbn [strong moderate weak no_data].
  rewrite !filter_count.
  induction connections as [|c cs IH]; [reflexivity|].
  cbn [map]. rewrite !list_sum_cons. unfold times_counted at 1. lia.
Qed.

Lemma counted_once threshold c :
  0 < threshold <= 80 -> times_counted threshold c = 1%nat.
Proof.
  intros T. unfold times_counted, ge, lt.
  destruct (conn_score c) as [n|]; cbn [to_number is_null negb].
  - destruct (Z.leb_spec 80 n); destruct (Z.leb_spec threshold n);
      destruct (Z.ltb_spec n 80); destruct (Z.ltb_spec n threshold);
      cbn; lia.
  - destruct (Z.leb_spec 80 0); destruct (Z.leb_spec threshold 0);
      destruct (Z.ltb_spec 0 80); destruct (Z.ltb_spec 0 threshold);
      cbn; lia.
Qed.

Lemma counted_at_least_once threshold c :
  (1 <= times_counted threshold c)%nat.
Proof.
  unfold times_counted, ge, lt.
  destruct (conn_score c) as [n|]; cbn [to_number is_null negb].
  - destruct (Z.leb_spec 80 n); destruct (Z.leb_spec threshold n);
      destruct (Z.ltb_spec n 80); destruct (Z.ltb_spec n threshold);
      cbn; lia.
  - cbn. lia.
Qed.

(** X28: the counts of the connectivity summary.  Every connection is
    counted in at least one of the classes strong, moderate, weak and
    no-data, and the four counts add up to the total for every list of
    connections exactly when the threshold is above 0 and at most 80: a
    threshold above 80 counts a score between 80 and the threshold as strong
    and as weak, and a threshold of 0 or less counts a [null] score as
    moderate and as no-data. *)
Theorem connectivity_counts_add_up (threshold : Z) :
  (forall connections,
     let s := connectivity_summary threshold connections in
     (total s <= strong s + moderate s + weak s + no_data s)%nat)
  /\ (0 < threshold <= 80
      <-> forall connections,
            adds_up (connectivity_summary threshold connections)).
Proof.
  split; [|split].
  - intros connections s. unfold s. clear s. rewrite summary_counts.
    cbn [total connectivity_summary].
    induction connections as [|c cs IH]; [reflexivity|].
    cbn [List.length map]. rewrite list_sum_cons.
    pose proof (counted_at_least_once threshold c). lia.
  - intros T connections. unfold adds_up. rewrite summary_counts.
    cbn [total connectivity_summary].
    induction connections as [|c cs IH]; [reflexivity|].
    cbn [List.length map]. rewrite list_sum_cons.
    rewrite (counted_once threshold c T). lia.
  - intros H.
    pose proof (H [scored None]) as N. pose proof (H [scored (Some 80)]) as E.
    unfold adds_up in N, E. rewrite summary_counts in N, E.
    cbn [total connectivity_summary List.length map] in N, E.
    rewrite list_sum_cons in N, E.
    unfold times_counted, ge, lt in N, E.
    cbn [scored conn_score to_number is_null negb] in N, E.
    destruct (Z.leb_spec threshold 0); destruct (Z.ltb_spec 0 threshold);
      destruct (Z.leb_spec threshold 80); destruct (Z.ltb_spec 80 threshold);
      cbn in N, E; lia.
Qed.

(** The theorem for the default threshold of 60: the counts of three
    connections add up. *)
Lemma connectivity_counts_add_up_witness :
  adds_up (connectivity_summary 60
             [scored (Some 90); scored None; scored (Some 10)]).
Proof.
  destruct (connectivity_counts_add_up 60) as (_ & P & _).
  apply P. lia.
Defined.

End AnalysisFacts.

(** ** [toJSONSchema] and the constructor *)

Module SchemaFacts.
Import Types RequestValidator Schema Fields.
Local Open Scope list_scope.

Lemma replace_first_dot_counts s :
  occurrences "." (replace_first_dot s) = Nat.pred (occurrences "." s)
  /\ occurrences "/" (replace_first_dot s)
     = (occurrences "/" s + Nat.min 1 (occurrences "." s))%nat
  /\ String.length (replace_first_dot s) = String.length s.
Proof.
  induction s as [|c s (D & S & L)]; [repeat split|].
  cbn [replace_first_dot].
  destruct (Ascii.eqb_spec c ".") as [->|N].
  - cbn. repeat split; lia.
  - cbn [occurrences String.length]. rewrite D, S, L.
    destruct (Ascii.eqb_spec c "."); [contradiction|].
    destruct (Ascii.eqb c "/"); repeat split; lia.
Qed.

(** X29: what [toJSONSchema] does to a validation result.  It keeps the
    verdict, and the messages and codes of the findings in their order; in
    the path of a finding only the first dot of the field name becomes a
    slash, so a field name with [n + 1] dots gives a path with [n] dots. *)
Theorem toJSONSchema_paths (result : ValidationResult) :
  let s := toJSONSchema result in
  schema_valid s = valid result
  /\ map entry_message (schema_errors s) = map message (errors result)
  /\ map params_code (schema_errors s) = map code (errors result)
  /\ map entry_message (schema_warnings s) = map message (warnings result)
  /\ (forall e x,
        In (e, x) (combine (errors result ++ warnings result)
                           (schema_errors s ++ schema_warnings s)) ->
        occurrences "." (instancePath x) = Nat.pred (occurrences "." (field e))
        /\ String.length (instancePath x) = S (String.length (field e))).
Proof.
  cbn [toJSONSchema schema_valid schema_errors schema_warnings].
  split; [reflexivity|].
  rewrite !map_map. cbn [to_entry entry_message params_code].
  split; [reflexivity|]. split; [reflexivity|]. split; [reflexivity|].
  intros e x I.
  assert (P : forall kw es fs (e : ValidationError) x,
             In (e, x) (combine (es ++ fs)
                          (map (to_entry kw) es ++ map (to_entry "warning") fs)) ->
             exists k, x = to_entry k e).
  { intros kw es. induction es as [|a es IH]; intros fs e' x' I'.
    - cbn in I'. induction fs as [|b fs IHf]; [destruct I'|].
      cbn in I'. destruct I' as [E|I'].
      + inversion E; subst. now exists "warning"%string.
      + now apply IHf.
    - cbn in I'. destruct I' as [E|I'].
      + inversion E; subst. now exists kw.
      + now apply (IH fs). }
  destruct (P _ _ _ _ _ I) as [k ->]. cbn [to_entry instancePath].
  destruct (replace_first_dot_counts (field e)) as (D & _ & L).
  cbn. now rewrite D, L.
Qed.

(** The theorem for an invalid email address in the account group: the
    path keeps the second dot of the field name. *)
Lemma toJSONSchema_paths_witness :
  map instancePath
      (schema_errors
         (toJSONSchema (run (validateEmail (email_of (Some "nobody"))
                                           "account.email"))))
  = ["/account/email.address"%string]
  /\ schema_valid
       (toJSONSchema (run (validateEmail (email_of (Some "nobody"))
                                         "account.email"))) = false.
Proof.
  destruct (toJSONSchema_paths
              (run (validateEmail (email_of (Some "nobody")) "account.email")))
    as (V & _).
  split; [reflexivity | rewrite V; reflexivity].
Defined.

End SchemaFacts.

Module ConstructorFacts.
Import Client Transport TransportFacts.
Local Open Scope list_scope.

(** X30: the constructor keeps an explicit zero.  [maxRetries] falls
    back to its default only when it is missing, so a client configured with
    no retries (0 or less) makes exactly one attempt and never sleeps,
    whatever the network answers; the constructor fails exactly for an
    empty API key; and an empty base URL is replaced by the default one. *)
Theorem configured_retries_are_kept (config : TrustAPIConfig) :
  (new_client config = None <-> cfg_apiKey config = EmptyString)
  /\ (forall c m,
        new_client config = Some c -> cfg_maxRetries config = Some m ->
        maxRetries c = m
        /\ (m <= 0 ->
            forall net, exists r,
              makeRequest c net = Some r
              /\ attempts r = 1%nat /\ sleeps r = []))
  /\ (forall c,
        new_client config = Some c -> cfg_baseUrl config = Some EmptyString ->
        baseUrl c = "https://api.elephant.online/trust/"%string).
Proof.
  unfold new_client.
  destruct (String.eqb_spec (cfg_apiKey config) "") as [E|N].
  - split; [tauto|]. split; [intros c m H; discriminate H|].
    intros c H. discriminate H.
  - split; [split; [discriminate | contradiction]|]. split.
    + intros c m H M. inversion H; subst; clear H.
      cbn [maxRetries]. rewrite M. cbn [nullish_or]. split; [reflexivity|].
      intros Z net. unfold makeRequest. cbn [maxRetries].
      rewrite makeRequest_from_unfold.
      match goal with
      | |- context [verdict ?c 1%nat ?o] =>
          destruct (verdict_final c 1%nat o) as [res V]
      end.
      * unfold may_retry. cbn [maxRetries]. apply Z.leb_gt. lia.
      * rewrite V. eexists. split; [reflexivity|]. split; reflexivity.
    + intros c H U. inversion H; subst; clear H. cbn [baseUrl].
      now rewrite U.
Qed.

(** The theorem for a configuration with [maxRetries: 0] against a
    server that always answers 503: one attempt. *)
Lemma configured_retries_are_kept_witness :
  exists r,
    makeRequest {| apiKey := "k"; baseUrl := "https://api.elephant.online/trust/";
                   maxRetries := 0; retryDelay := 1000; timeout := 30000;
                   rateLimitQPS := 10 |}
                (fun _ => Response 503 None (Parsed JNull)) = Some r
    /\ attempts r = 1%nat /\ sleeps r = [].
Proof.
  destruct (configured_retries_are_kept
              {| cfg_apiKey := "k"; cfg_baseUrl := None;
                 cfg_maxRetries := Some 0; cfg_retryDelay := None;
                 cfg_timeout := None; cfg_rateLimitQPS := None |})
    as (_ & K & _).
  destruct (K {| apiKey := "k"; baseUrl := "https://api.elephant.online/trust/";
                 maxRetries := 0; retryDelay := 1000; timeout := 30000;
                 rateLimitQPS := 10 |} 0 eq_refl eq_refl) as (_ & One).
  apply One. lia.
Defined.

End ConstructorFacts.
